(** * proxy-harold: admission limiter, URL validation and fetch, response cache

    A shallow embedding of the request-admission and response-caching
    pipeline of proxy-harold (Go) and the properties its specification
    states about it.

    Conventions
    - a Go [string] is a [string] (a sequence of 8-bit characters), a
      [[]byte] is a [list byte], and an [option (list byte)] where the
      program tells a [nil] slice from an empty one;
    - a Go [int]/[int64] is a [Z]; no operation below leaves the 64-bit range
      on the inputs the theorems quantify over;
    - a finite [float64] is the rational it denotes, a [Q]: every finite
      float is a rational, and the only float operations of the program
      are a comparison with 0 and a conversion to [int];
    - [time.Now()] is an explicit argument [now];
    - a Go map is a [gmap], a pointer is a location in an explicit heap;
    - an [error] is a value of type [errors.error], [nil] is [None], and a
      result [(v, err)] is a [result];
    - what the program does to the outside (the upstream server, the
      store's disk, the clock) is an explicit argument or part of the
      state. The libraries the program calls are written out after their
      sources where a property depends on what they compute. *)

From Stdlib Require Import ZArith QArith Qround Qminmax Lia Lqa String Ascii List DecimalString.
From Stdlib.Strings Require Import Byte.
From Stdlib Require DecimalPos.
From stdpp Require Import gmap strings list fin_maps.

Local Open Scope string_scope.
Local Open Scope Z_scope.

(** ** Runes and UTF-8 (package unicode/utf8) *)

Module utf8.

Definition RuneError : Z := 0xFFFD.
Definition MaxRune : Z := 0x10FFFF.
Definition surrogateMin : Z := 0xD800.
Definition surrogateMax : Z := 0xDFFF.

(** [byte(x)]: the low eight bits of an integer, as a character. *)
Definition byte_of_Z (x : Z) : ascii := ascii_of_N (Z.to_N (x mod 256)).

Definition Z_of_byte (c : ascii) : Z := Z.of_N (N_of_ascii c).

(** [uint32(r)] of an [int32] rune. *)
Definition uint32 (r : Z) : Z := r mod 2 ^ 32.

(** [rune(x)] of an [int]: wrap to a signed 32-bit value. *)
Definition rune_of_int (x : Z) : Z := (x + 2 ^ 31) mod 2 ^ 32 - 2 ^ 31.

Definition str (l : list ascii) : string := string_of_list_ascii l.

(** [utf8.AppendRune(nil, r)]: the UTF-8 encoding of a rune; values that
    are no code point encode as U+FFFD. *)
Definition EncodeRune (r : Z) : string :=
  let i := uint32 r in
  let enc3 (r : Z) :=
    str [byte_of_Z (Z.lor 0xE0 (Z.shiftr r 12));
         byte_of_Z (Z.lor 0x80 (Z.land (Z.shiftr r 6) 0x3F));
         byte_of_Z (Z.lor 0x80 (Z.land r 0x3F))] in
  if i <=? 0x7F then str [byte_of_Z r]
  else if i <=? 0x7FF then
    str [byte_of_Z (Z.lor 0xC0 (Z.shiftr r 6));
         byte_of_Z (Z.lor 0x80 (Z.land r 0x3F))]
  else if (MaxRune <? i) || ((surrogateMin <=? i) && (i <=? surrogateMax)) then
    enc3 RuneError
  else if i <=? 0xFFFF then enc3 r
  else
    str [byte_of_Z (Z.lor 0xF0 (Z.shiftr r 18));
         byte_of_Z (Z.lor 0x80 (Z.land (Z.shiftr r 12) 0x3F));
         byte_of_Z (Z.lor 0x80 (Z.land (Z.shiftr r 6) 0x3F));
         byte_of_Z (Z.lor 0x80 (Z.land r 0x3F))].

(** The table [first] of package utf8, by ranges of the lead byte: [as_]
    marks ASCII, [xx] an invalid lead byte; otherwise the low three bits are
    the length of the sequence and the high four pick the range accepted
    for the second byte. *)
Definition as_ : Z := 0xF0.
Definition xx : Z := 0xF1.

Definition first (p0 : Z) : Z :=
  if p0 <? 0x80 then as_
  else if p0 <? 0xC2 then xx
  else if p0 <=? 0xDF then 0x02
  else if p0 =? 0xE0 then 0x13
  else if p0 <=? 0xEC then 0x03
  else if p0 =? 0xED then 0x23
  else if p0 <=? 0xEF then 0x03
  else if p0 =? 0xF0 then 0x34
  else if p0 <=? 0xF3 then 0x04
  else if p0 =? 0xF4 then 0x44
  else xx.

Definition locb : Z := 0x80.
Definition hicb : Z := 0xBF.

Definition acceptRanges (i : Z) : Z * Z :=
  if i =? 0 then (locb, hicb)
  else if i =? 1 then (0xA0, hicb)
  else if i =? 2 then (locb, 0x9F)
  else if i =? 3 then (0x90, hicb)
  else if i =? 4 then (locb, 0x8F)
  else (0, 0).

Definition outside (lo x hi : Z) : bool := (x <? lo) || (hi <? x).

(** [utf8.DecodeRuneInString]: the first rune of a string and its width
    in bytes; [(RuneError, 1)] where the bytes are no encoding. Go compares
    the length of the string with the length of the sequence before it
    looks at the second byte; a sequence that is cut short is reported as
    [(RuneError, 1)] in either order. *)
Definition DecodeRuneInString (s : string) : Z * nat :=
  match s with
  | "" => (RuneError, 0%nat)
  | String c0 t =>
    let p0 := Z_of_byte c0 in
    let x := first p0 in
    if as_ <=? x then ((if x =? as_ then p0 else RuneError), 1%nat)
    else
      let sz := Z.land x 7 in
      let '(lo, hi) := acceptRanges (Z.shiftr x 4) in
      match t with
      | "" => (RuneError, 1%nat)
      | String c1 t1 =>
        let b1 := Z_of_byte c1 in
        if sz <=? 2 then
          if outside lo b1 hi then (RuneError, 1%nat)
          else (Z.lor (Z.shiftl (Z.land p0 0x1F) 6) (Z.land b1 0x3F), 2%nat)
        else
          match t1 with
          | "" => (RuneError, 1%nat)
          | String c2 t2 =>
            let b2 := Z_of_byte c2 in
            if sz <=? 3 then
              if outside lo b1 hi || outside locb b2 hicb then (RuneError, 1%nat)
              else (Z.lor (Z.lor (Z.shiftl (Z.land p0 0x0F) 12)
                                 (Z.shiftl (Z.land b1 0x3F) 6))
                          (Z.land b2 0x3F), 3%nat)
            else
              match t2 with
              | "" => (RuneError, 1%nat)
              | String c3 _ =>
                let b3 := Z_of_byte c3 in
                if outside lo b1 hi || outside locb b2 hicb || outside locb b3 hicb
                then (RuneError, 1%nat)
                else (Z.lor (Z.lor (Z.lor (Z.shiftl (Z.land p0 0x07) 18)
                                          (Z.shiftl (Z.land b1 0x3F) 12))
                                   (Z.shiftl (Z.land b2 0x3F) 6))
                            (Z.land b3 0x3F), 4%nat)
              end
          end
      end
  end.

(** The string without the bytes of its first rune: [s[size:]]. *)
Definition after_rune (size : nat) (s : string) : string :=
  match size, s with
  | 2%nat, String _ (String _ t) => t
  | 3%nat, String _ (String _ (String _ t)) => t
  | 4%nat, String _ (String _ (String _ (String _ t))) => t
  | _, String _ t => t
  | _, "" => ""
  end.

(** [utf8.ValidString]: every rune of the string decodes. The loop is
    written with [DecodeRuneInString], which makes the same tests on the
    same bytes. *)
Fixpoint ValidString (s : string) : bool :=
  match s with
  | "" => true
  | String c t =>
    if Z_of_byte c <? 0x80 then ValidString t
    else
      let '(r, size) := DecodeRuneInString s in
      if (r =? RuneError) && (size =? 1)%nat then false
      else
        match size, t with
        | 2%nat, String _ t' => ValidString t'
        | 3%nat, String _ (String _ t') => ValidString t'
        | 4%nat, String _ (String _ (String _ t')) => ValidString t'
        | _, _ => false
        end
  end.

End utf8.

(** ** Byte slices *)

Module bytes.

Definition to_Z (x : byte) : Z := Z.of_N (Byte.to_N x).

(** [byte(x)]: the low eight bits. *)
Definition of_Z (x : Z) : byte := byte_of_ascii (utf8.byte_of_Z x).

(** [string(b)] and [[]byte(s)]. *)
Definition to_string (l : list byte) : string := string_of_list_byte l.
Definition of_string (s : string) : list byte := list_byte_of_string s.

End bytes.

(** ** Characters, and texts with double quotes *)

Module text.

(** The double quote. *)
Definition dquote : ascii := "034".

(** A text written with ['] where it has a double quote. *)
Fixpoint dq (s : string) : string :=
  match s with
  | "" => ""
  | String c s' => String (if Ascii.eqb c "'" then dquote else c) (dq s')
  end.

(** A byte as a number. *)
Definition b (c : ascii) : Z := utf8.Z_of_byte c.

(** [lo <= c && c <= hi]. *)
Definition between (lo c hi : ascii) : bool := (b lo <=? b c) && (b c <=? b hi).

(** [c] is one of the bytes [l]. *)
Definition is_byte (c : ascii) (l : list ascii) : bool :=
  existsb (Ascii.eqb c) l.

(** A hexadecimal digit, and its value. *)
Definition ishex (c : ascii) : bool :=
  between "0" c "9" || between "a" c "f" || between "A" c "F".

Definition unhex (c : ascii) : Z :=
  if between "0" c "9" then b c - b "0"
  else if between "a" c "f" then b c - b "a" + 10
  else if between "A" c "F" then b c - b "A" + 10
  else 0.

End text.

(** ** Strings (package strings) *)

Module gostrings.
Import text.

(** [strings.IndexByte]. *)
Fixpoint IndexByte (c : ascii) (s : string) : option nat :=
  match s with
  | "" => None
  | String x s' => if Ascii.eqb x c then Some O else S <$> IndexByte c s'
  end.

(** [strings.LastIndexByte]. *)
Fixpoint LastIndexByte (c : ascii) (s : string) : option nat :=
  match s with
  | "" => None
  | String x s' =>
    match LastIndexByte c s' with
    | Some i => Some (S i)
    | None => if Ascii.eqb x c then Some O else None
    end
  end.

(** [s[:i]] and [s[i:]]. *)
Definition take (i : nat) (s : string) : string := substring 0 i s.
Definition drop (i : nat) (s : string) : string := substring i (String.length s - i) s.

(** [strings.Cut] with a one-byte separator. *)
Definition Cut (s : string) (sep : ascii) : string * string * bool :=
  match IndexByte sep s with
  | Some i => (take i s, drop (S i) s, true)
  | None => (s, "", false)
  end.

Definition HasPrefix (s p : string) : bool := String.prefix p s.

(** [strings.Count] with a one-byte pattern. *)
Fixpoint Count (s : string) (c : ascii) : nat :=
  match s with
  | "" => O
  | String x s' => (if Ascii.eqb x c then 1 else 0)%nat + Count s' c
  end.

Definition last_byte (s : string) : option ascii :=
  String.get (String.length s - 1) s.

(** [strings.ToLower] on ASCII; a scheme holds ASCII only. *)
Definition lower (c : ascii) : ascii :=
  if between "A" c "Z" then utf8.byte_of_Z (b c + 32) else c.

Fixpoint ToLower (s : string) : string :=
  match s with
  | "" => ""
  | String c s' => String (lower c) (ToLower s')
  end.

End gostrings.

(** ** Errors *)

Module errors.

(** A Go [error] value. The three sentinels of package proxy and
    [badger.ErrKeyNotFound] are compared by identity in Go and are
    constructors here; any other error raised by a library is known by its
    text; [fmt.Errorf] with one [%w] verb yields an error that has a text
    of its own and wraps another. *)
Inductive error : Type :=
  | ErrInvalidURL
  | ErrInvalidScheme
  | ErrResponseTooBig
  | ErrKeyNotFound
  | libError (msg : string)
  | wrapError (msg : string) (err : error).

Definition Error (e : error) : string :=
  match e with
  | ErrInvalidURL => "invalid URL"
  | ErrInvalidScheme => "URL scheme must be http or https"
  | ErrResponseTooBig => "response exceeds maximum allowed size"
  | ErrKeyNotFound => "Key not found"
  | libError msg => msg
  | wrapError msg _ => msg
  end.

Definition error_eqb (a b : error) : bool :=
  match a, b with
  | ErrInvalidURL, ErrInvalidURL => true
  | ErrInvalidScheme, ErrInvalidScheme => true
  | ErrResponseTooBig, ErrResponseTooBig => true
  | ErrKeyNotFound, ErrKeyNotFound => true
  | libError m, libError m' => String.eqb m m'
  | _, _ => false
  end.

(** [errors.Is]: the error or one it wraps is the target. *)
Fixpoint Is (e target : error) : bool :=
  error_eqb e target ||
  match e with
  | wrapError _ inner => Is inner target
  | _ => false
  end.

(** A value or an error, as in [(v, err)] results. *)
Inductive result (A : Type) : Type :=
  | ok (a : A)
  | err (e : error).
Global Arguments ok {A} a.
Global Arguments err {A} e.

Definition bind {A B} (r : result A) (k : A -> result B) : result B :=
  match r with
  | ok a => k a
  | err e => err e
  end.

Global Instance result_bind : MBind result := λ A B k r, bind r k.
Global Instance result_ret : MRet result := λ A a, ok a.

End errors.

(** ** Integers as text (package strconv) *)

Module strconv.

(** [strconv.Itoa], and the verb [%d] of package fmt. *)
Definition Itoa (n : Z) : string :=
  DecimalString.NilZero.string_of_int (Z.to_int n).

End strconv.

(** ** Requests and responses (package net/http)

    Only what the handlers of the repository touch. *)

Module http.

Definition StatusOK : Z := 200.
Definition StatusNoContent : Z := 204.
Definition StatusBadRequest : Z := 400.
Definition StatusTooManyRequests : Z := 429.
Definition StatusBadGateway : Z := 502.

(** An inbound request: the method, the parsed query string in order of
    appearance, the headers (one value each, under the spelling the program
    asks for them with) and the address of the peer. *)
Record Request := mkRequest {
  Method : string;
  Query : list (string * string);
  RequestHeader : gmap string string;
  RemoteAddr : string
}.

(** [r.Header.Get(key)]: the value of the header, or the empty string. *)
Definition Request_Header_Get (key : string) (r : Request) : string :=
  default "" (RequestHeader r !! key).

(** [r.URL.Query().Get(key)]: the first value of the key, or the empty
    string. *)
Fixpoint Query_Get (key : string) (q : list (string * string)) : string :=
  match q with
  | [] => ""
  | (k, v) :: q' => if String.eqb k key then v else Query_Get key q'
  end.

(** A response being written: the header map, the status code once
    [WriteHeader] has run, and the body written so far. *)
Record ResponseWriter := mkResponseWriter {
  Header : gmap string string;
  Code : option Z;
  Body : list byte
}.

Definition NewRecorder : ResponseWriter :=
  {| Header := ∅; Code := None; Body := [] |}.

(** [w.Header().Set(key, value)]. Every key the program uses is set and
    read under one spelling, so the canonical spelling of net/textproto is
    left out. *)
Definition Header_Set (key value : string) (w : ResponseWriter) : ResponseWriter :=
  {| Header := <[key := value]> (Header w); Code := Code w; Body := Body w |}.

(** [w.WriteHeader(code)]: the first call fixes the status. *)
Definition WriteHeader (code : Z) (w : ResponseWriter) : ResponseWriter :=
  match Code w with
  | Some _ => w
  | None => {| Header := Header w; Code := Some code; Body := Body w |}
  end.

(** [w.Write(b)]: an implicit [WriteHeader(200)], then the bytes. *)
Definition Write (b : list byte) (w : ResponseWriter) : ResponseWriter :=
  let w := WriteHeader StatusOK w in
  {| Header := Header w; Code := Code w; Body := Body w ++ b |}.

(** A handler over a server state [S]. *)
Definition Handler (S : Type) : Type :=
  Request -> ResponseWriter -> S -> ResponseWriter * S.

End http.

(** ** Network addresses (package net) *)

Module net.
Import errors gostrings.

(** [&AddrError{Err: why, Addr: addr}]. *)
Definition addrErr {A} (addr why : string) : result A :=
  err (libError ("address " ++ addr ++ ": " ++ why)).

Definition missingPort : string := "missing port in address".
Definition tooManyColons : string := "too many colons in address".

Definition contains (c : ascii) (s : string) : bool :=
  match IndexByte c s with Some _ => true | None => false end.

(** [net.SplitHostPort]: [host:port], [[host]:port] for a host that holds
    colons. *)
Definition SplitHostPort (hostport : string) : result (string * string) :=
  match LastIndexByte ":" hostport with
  | None => addrErr hostport missingPort
  | Some i =>
    '(host, j, k) ←
      (if HasPrefix hostport "[" then
         match IndexByte "]" hostport with
         | None => addrErr hostport "missing ']' in address"
         | Some end_ =>
           if (S end_ =? String.length hostport)%nat then addrErr hostport missingPort
           else if (S end_ =? i)%nat then ok (take (end_ - 1) (drop 1 hostport), 1, S end_)%nat
           else if contains ":" (take 1 (drop (S end_) hostport))
           then addrErr hostport tooManyColons
           else addrErr hostport missingPort
         end
       else
         let host := take i hostport in
         if contains ":" host then addrErr hostport tooManyColons
         else ok (host, 0, 0)%nat);
    if contains "[" (drop j hostport) then addrErr hostport "unexpected '[' in address"
    else if contains "]" (drop k hostport) then addrErr hostport "unexpected ']' in address"
    else ok (host, drop (S i) hostport)
  end.

End net.

(** ** The admission limiter (package ratelimit) *)

Module rate.

(** Modelled from the spec: the token bucket [rate.Limiter] of
    golang.org/x/time/rate, which is a dependency of the repository and not
    part of its sources. Section 4.1: capacity is the burst size [B], the
    refill rate is [R] tokens per second, refill is continuous, computed
    from the time elapsed since the last refill and capped at [B]; a fresh
    bucket is full. Time is in seconds. *)
Record Limiter := mkLimiter {
  limit : Q;      (* R, tokens per second *)
  burst : Z;      (* B *)
  tokens : Q;     (* token count at [last] *)
  last : Q        (* time of the last refill *)
}.

Definition NewLimiter (r : Q) (b : Z) : Limiter :=
  {| limit := r; burst := b; tokens := inject_Z b; last := 0 |}.

(** The token count at time [now]: refilled for the elapsed time, never
    decreased by the refill, capped at the burst size. *)
Definition advance (now : Q) (lim : Limiter) : Q :=
  Qmin (inject_Z (burst lim))
       (tokens lim + Qmax 0 (limit lim * (now - last lim)))%Q.

Definition Tokens (now : Q) (lim : Limiter) : Q := advance now lim.

(** [Allow]: consume exactly one token if at least one is available;
    the bucket is unchanged on denial. *)
Definition Allow (now : Q) (lim : Limiter) : bool * Limiter :=
  let tk := advance now lim in
  if Qle_bool 1 tk
  then (true, {| limit := limit lim; burst := burst lim;
                 tokens := (tk - 1)%Q; last := now |})
  else (false, lim).

End rate.

Module ratelimit.

(** A pointer to a [rate.Limiter]. *)
Definition loc := positive.

(** [IPRateLimiter]: the registry maps a client address to a pointer; the
    limiters themselves live in [heap]. [done] is the shutdown channel
    ([true] once closed). The two locks are not modelled: every operation
    below is one critical section. *)
Record IPRateLimiter := mkIPRateLimiter {
  limiters : gmap string loc;
  heap : gmap loc rate.Limiter;
  rl_rate : Q;
  rl_burst : Z;
  done : bool
}.

Definition NewIPRateLimiter (r : Q) (burst : Z) : IPRateLimiter :=
  {| limiters := ∅; heap := ∅; rl_rate := r; rl_burst := burst; done := false |}.

Definition set_heap (h : gmap loc rate.Limiter) (rl : IPRateLimiter) : IPRateLimiter :=
  {| limiters := limiters rl; heap := h; rl_rate := rl_rate rl;
     rl_burst := rl_burst rl; done := done rl |}.

Definition set_limiters (m : gmap string loc) (rl : IPRateLimiter) : IPRateLimiter :=
  {| limiters := m; heap := heap rl; rl_rate := rl_rate rl;
     rl_burst := rl_burst rl; done := done rl |}.

(** [getLimiter]: look the address up; on a miss look it up again (the
    double check under the write lock), then allocate a limiter and
    register it. *)
Definition getLimiter (ip : string) (rl : IPRateLimiter) : loc * IPRateLimiter :=
  match limiters rl !! ip with
  | Some limiter => (limiter, rl)
  | None =>
    match limiters rl !! ip with
    | Some limiter => (limiter, rl)
    | None =>
      let limiter := fresh (dom (heap rl)) in
      (limiter,
       set_limiters (<[ip := limiter]> (limiters rl))
         (set_heap (<[limiter := rate.NewLimiter (rl_rate rl) (rl_burst rl)]> (heap rl)) rl))
    end
  end.

(** Run a method of the limiter a pointer refers to, and store the
    limiter's new state. A pointer handed out by [getLimiter] is never
    dangling (lemma [getLimiter_alloc]); the [None] branch is there to make
    the function total. *)
Definition with_limiter {A} (l : loc) (f : rate.Limiter -> A * rate.Limiter)
    (dflt : A) (rl : IPRateLimiter) : A * IPRateLimiter :=
  match heap rl !! l with
  | Some lim => let '(a, lim') := f lim in (a, set_heap (<[l := lim']> (heap rl)) rl)
  | None => (dflt, rl)
  end.

(** [Allow]: [rl.getLimiter(ip).Allow()]. *)
Definition Allow (now : Q) (ip : string) (rl : IPRateLimiter) : bool * IPRateLimiter :=
  let '(l, rl1) := getLimiter ip rl in
  with_limiter l (rate.Allow now) false rl1.

(** [Cleanup]: close the shutdown channel. *)
Definition Cleanup (rl : IPRateLimiter) : IPRateLimiter :=
  {| limiters := limiters rl; heap := heap rl; rl_rate := rl_rate rl;
     rl_burst := rl_burst rl; done := true |}.

(** One tick of [cleanupLoop]: once the loop has seen the shutdown signal
    it has returned; otherwise a registry of more than 10000 entries is
    replaced by an empty one. The limiters it pointed to stay where they
    are, unreachable. *)
Definition cleanupTick (rl : IPRateLimiter) : IPRateLimiter :=
  if done rl then rl
  else if (10000 <? Z.of_nat (size (limiters rl)))
       then set_limiters ∅ rl else rl.

(** The bucket of a client address: what the registry's pointer refers to. *)
Definition bucket (ip : string) (rl : IPRateLimiter) : option rate.Limiter :=
  limiters rl !! ip ≫= λ l, heap rl !! l.

(** [extractIP]: the first address of [X-Forwarded-For], else [X-Real-IP],
    else the host of the peer's address. The loop of the source walks the
    header rune by rune and stops at the first comma; a comma is one byte
    and no byte of a longer rune is below 0x80, so that is the first comma
    byte. *)
Definition extractIP (r : http.Request) : string :=
  let xff := http.Request_Header_Get "X-Forwarded-For" r in
  if negb (String.eqb xff "") then
    match gostrings.IndexByte "," xff with
    | Some i => gostrings.take i xff
    | None => xff
    end
  else
    let xri := http.Request_Header_Get "X-Real-IP" r in
    if negb (String.eqb xri "") then xri
    else
      match net.SplitHostPort (http.RemoteAddr r) with
      | errors.ok (ip, _) => ip
      | errors.err _ => http.RemoteAddr r
      end.

(** [int(f)] for a float: truncation toward zero. That is the conversion
    the language defines for a value whose integer part is an [int], that
    is, below [2^63] in size; beyond, the result is left to the
    implementation, and the properties of [formatTokens] are stated below
    that bound. *)
Definition int_of_float64 (f : Q) : Z := Z.quot (Qnum f) (Z.pos (Qden f)).

(** [string(rune(x))]. *)
Definition string_of_rune (x : Z) : string := utf8.EncodeRune (utf8.rune_of_int x).

(** [formatTokens]: [%] is Go's remainder, [Z.rem]; ['0'] is 48. *)
Definition formatTokens (tokens : Q) : string :=
  if QMicromega.Qlt_bool tokens 0 then "0"
  else string_of_rune (48 + Z.rem (int_of_float64 tokens) 10).

(** [Middleware]: deny with 429 when the bucket is empty, otherwise
    publish the remaining tokens and run the next handler. [t_allow] and
    [t_tokens] are the two readings of the clock, in [Allow] and in
    [Tokens]. *)
Definition Middleware {S} (t_allow t_tokens : Q) (next : http.Handler S)
    : http.Handler (IPRateLimiter * S) :=
  λ r w '(rl, s),
    let ip := extractIP r in
    let '(ok, rl) := Allow t_allow ip rl in
    if negb ok then
      let w := http.Header_Set "Content-Type" "application/json" w in
      let w := http.Header_Set "Retry-After" "1" w in
      let w := http.WriteHeader http.StatusTooManyRequests w in
      let w := http.Write
                 (list_byte_of_string (text.dq "{'error':'rate limit exceeded','code':429}")) w in
      (w, (rl, s))
    else
      let '(limiter, rl) := getLimiter ip rl in
      let '(tk, rl) := with_limiter limiter (λ lim, (rate.Tokens t_tokens lim, lim)) 0%Q rl in
      let w := http.Header_Set "X-RateLimit-Remaining" (formatTokens tk) w in
      let '(w, s) := next r w s in
      (w, (rl, s)).

End ratelimit.
(** *** Vocabulary for the limiter's properties *)

Module RateSpec.
Import rate ratelimit.

(** What a bucket holds, up to equality of rationals. *)
Definition holds (lim : Limiter) (R : Q) (B : Z) (tk t : Q) : Prop :=
  limit lim = R ∧ burst lim = B ∧ (tokens lim == tk)%Q ∧ (last lim == t)%Q.

(** Every registered pointer refers to a limiter, and no two addresses
    share one. *)
Definition wf (rl : IPRateLimiter) : Prop :=
  (∀ ip l, limiters rl !! ip = Some l → is_Some (heap rl !! l)) ∧
  (∀ ip1 ip2 l, limiters rl !! ip1 = Some l → limiters rl !! ip2 = Some l → ip1 = ip2).

(** The states a limiter built by [NewIPRateLimiter] can be in. *)
Inductive reachable (r : Q) (b : Z) : IPRateLimiter → Prop :=
  | reach_new : reachable r b (NewIPRateLimiter r b)
  | reach_allow now ip rl :
      reachable r b rl → reachable r b (snd (ratelimit.Allow now ip rl))
  | reach_tick rl : reachable r b rl → reachable r b (cleanupTick rl)
  | reach_cleanup rl : reachable r b rl → reachable r b (Cleanup rl).

(** The bucket a call for [ip] works on: the registered one, or a new one. *)
Definition current (ip : string) (rl : IPRateLimiter) : Limiter :=
  default (NewLimiter (rl_rate rl) (rl_burst rl)) (bucket ip rl).

(** [n] successive calls of [Allow] for one address at one instant. *)
Fixpoint Allow_n (n : nat) (now : Q) (ip : string) (rl : IPRateLimiter)
    : list bool * IPRateLimiter :=
  match n with
  | O => ([], rl)
  | S n =>
    let '(ok, rl) := ratelimit.Allow now ip rl in
    let '(oks, rl) := Allow_n n now ip rl in
    (ok :: oks, rl)
  end.

(** The decimal numeral of an integer: what a header carrying an integer
    count reads. *)
Definition decimal (n : Z) : string := strconv.Itoa n.

(** The remaining-token count as the specification words it: rounded to
    an integer and clamped to a minimum of 0. *)
Definition remaining_header (tokens : Q) : string :=
  decimal (Z.max 0 (int_of_float64 tokens)).

End RateSpec.

Module RateTest.

(** The inner handler of [TestRateLimiter_Middleware]: status 200, body
    [OK]. *)
Definition okHandler : http.Handler unit :=
  λ r w s,
    let w := http.WriteHeader http.StatusOK w in
    (http.Write (list_byte_of_string "OK") w, s).

End RateTest.
(** ** URL parsing (package net/url)

    [ValidateURL] decides on the [Scheme] and [Host] that [url.Parse]
    reports. The parser belongs to Go's standard library, not to the
    repository; what follows transcribes it, step by step, from net/url as
    released with the toolchain the repository builds with, leaving out the
    [RawPath]/[RawFragment] bookkeeping, which decides nothing here. *)

Module url.
Import errors text gostrings.

Record URL := mkURL {
  Scheme : string;
  Opaque : string;
  User : option (string * option string);
  Host : string;
  Path : string;
  OmitHost : bool;
  ForceQuery : bool;
  RawQuery : string;
  Fragment : string
}.

Definition stringContainsCTLByte (s : string) : bool :=
  existsb (λ c, (b c <? 32) || (b c =? 127)) (list_ascii_of_string s).

(** [getScheme]: split off a leading [scheme:]. [i] is the index of the
    first byte of [rest] in [rawURL]. *)
Fixpoint getScheme_from (rawURL : string) (i : nat) (rest : string)
    : result (string * string) :=
  match rest with
  | "" => ok ("", rawURL)
  | String c rest' =>
    if between "a" c "z" || between "A" c "Z" then getScheme_from rawURL (S i) rest'
    else if between "0" c "9" || is_byte c ["+"; "-"; "."]%char then
      match i with
      | O => ok ("", rawURL)
      | _ => getScheme_from rawURL (S i) rest'
      end
    else if Ascii.eqb c ":" then
      match i with
      | O => err (libError "missing protocol scheme")
      | _ => ok (take i rawURL, rest')
      end
    else ok ("", rawURL)
  end.

Definition getScheme (rawURL : string) : result (string * string) :=
  getScheme_from rawURL 0 rawURL.

Inductive encoding :=
  | encodePath | encodePathSegment | encodeHost | encodeZone
  | encodeUserPassword | encodeQueryComponent | encodeFragment.

Definition is_host_mode (mode : encoding) : bool :=
  match mode with encodeHost | encodeZone => true | _ => false end.

(** [shouldEscape(c, encodeHost)]. *)
Definition shouldEscape_host (c : ascii) : bool :=
  if between "a" c "z" || between "A" c "Z" || between "0" c "9" then false
  else if is_byte c ["!"; "$"; "&"; "'"; "("; ")"; "*"; "+"; ","; ";"; "=";
                     ":"; "["; "]"; "<"; ">"; text.dquote]%char then false
  else if is_byte c ["-"; "_"; "."; "~"]%char then false
  else true.

(** [strconv.Quote], the verb [%q], as it writes a text of printable
    ASCII characters that holds no quote and no backslash. The texts of
    errors are not looked into by any caller. *)
Definition quote (s : string) : string :=
  String text.dquote (s ++ String text.dquote "").

Definition EscapeError (s : string) : error :=
  libError ("invalid URL escape " ++ quote s).
Definition InvalidHostError (s : string) : error :=
  libError ("invalid character " ++ quote s ++ " in host name").

(** [unescape]: check the escapes, then decode them. *)
Fixpoint unescape (s : string) (mode : encoding) : result string :=
  match s with
  | "" => ok ""
  | String "%" rest =>
    match rest with
    | String h1 (String h2 rest') =>
      if negb (ishex h1 && ishex h2) then err (EscapeError (take 3 s))
      else if match mode with encodeHost => true | _ => false end
              && (unhex h1 <? 8) && negb (String.eqb (take 3 s) "%25")
      then err (EscapeError (take 3 s))
      else
        let v := utf8.byte_of_Z (Z.lor (Z.shiftl (unhex h1) 4) (unhex h2)) in
        if match mode with encodeZone => true | _ => false end
           && negb (String.eqb (take 3 s) "%25") && negb (Ascii.eqb v " ")
           && shouldEscape_host v
        then err (EscapeError (take 3 s))
        else t ← unescape rest' mode; ok (String v t)
    | _ => err (EscapeError (take 3 s))
    end
  | String c rest =>
    if is_host_mode mode && (b c <? 128) && shouldEscape_host c
    then err (InvalidHostError (String c ""))
    else
      t ← unescape rest mode;
      ok (String (if Ascii.eqb c "+" && match mode with encodeQueryComponent => true | _ => false end
                  then " "%char else c) t)
  end.

Definition validOptionalPort (port : string) : bool :=
  match port with
  | "" => true
  | String c digits =>
    Ascii.eqb c ":" && forallb (λ d, between "0" d "9") (list_ascii_of_string digits)
  end.

Definition validUserinfo (s : string) : bool :=
  forallb (λ r,
    between "A" r "Z" || between "a" r "z" || between "0" r "9" ||
    is_byte r ["-"; "."; "_"; ":"; "~"; "!"; "$"; "&"; "'"; "("; ")"; "*"; "+";
               ","; ";"; "="; "%"; "@"]%char)
    (list_ascii_of_string s).

Definition invalid_port (colonPort : string) : error :=
  libError ("invalid port " ++ quote colonPort ++ " after host").

(** [strings.Index(s, "%25")]. *)
Definition Index_pct25 (s : string) : option nat := String.index 0 "%25" s.

Definition parseHost (host : string) : result string :=
  if HasPrefix host "[" then
    match LastIndexByte "]" host with
    | None => err (libError "missing ']' in host")
    | Some i =>
      let colonPort := drop (S i) host in
      if negb (validOptionalPort colonPort) then err (invalid_port colonPort)
      else
        match Index_pct25 (take i host) with
        | Some zone =>
          host1 ← unescape (take zone host) encodeHost;
          host2 ← unescape (take (i - zone) (drop zone host)) encodeZone;
          host3 ← unescape (drop i host) encodeHost;
          ok (host1 ++ host2 ++ host3)
        | None => unescape host encodeHost
        end
    end
  else
    match LastIndexByte ":" host with
    | Some i =>
      let colonPort := drop i host in
      if negb (validOptionalPort colonPort) then err (invalid_port colonPort)
      else unescape host encodeHost
    | None => unescape host encodeHost
    end.

Definition parseAuthority (authority : string)
    : result (option (string * option string) * string) :=
  match LastIndexByte "@" authority with
  | None => host ← parseHost authority; ok (None, host)
  | Some i =>
    host ← parseHost (drop (S i) authority);
    let userinfo := take i authority in
    if negb (validUserinfo userinfo) then err (libError "net/url: invalid userinfo")
    else
      match IndexByte ":" userinfo with
      | None =>
        userinfo ← unescape userinfo encodeUserPassword;
        ok (Some (userinfo, None), host)
      | Some _ =>
        let '(username, password, _) := Cut userinfo ":" in
        username ← unescape username encodeUserPassword;
        password ← unescape password encodeUserPassword;
        ok (Some (username, Some password), host)
      end
  end.

(** [parse(rawURL, false)]. *)
Definition parse (rawURL : string) : result URL :=
  if stringContainsCTLByte rawURL
  then err (libError "net/url: invalid control character in URL")
  else if String.eqb rawURL "*"
  then ok (mkURL "" "" None "" "*" false false "" "")
  else
    '(scheme, rest) ← getScheme rawURL;
    let scheme := ToLower scheme in
    let '(rest, forceQuery, rawQuery) :=
      if (match last_byte rest with Some c => Ascii.eqb c "?" | None => false end)
         && (Count rest "?" =? 1)%nat
      then (take (String.length rest - 1) rest, true, "")
      else let '(before, after, _) := Cut rest "?" in (before, false, after) in
    if negb (HasPrefix rest "/") && negb (String.eqb scheme "")
    then ok (mkURL scheme rest None "" "" false forceQuery rawQuery "")
    else if negb (HasPrefix rest "/")
            && (let '(segment, _, _) := Cut rest "/" in
                match IndexByte ":" segment with Some _ => true | None => false end)
    then err (libError "first path segment in URL cannot contain colon")
    else
      '(user, host, rest, omitHost) ←
        (if (negb (String.eqb scheme "") || negb (HasPrefix rest "///"))
            && HasPrefix rest "//"
         then
           let authority := drop 2 rest in
           let '(authority, rest) :=
             match IndexByte "/" authority with
             | Some i => (take i authority, drop i authority)
             | None => (authority, "")
             end in
           '(user, host) ← parseAuthority authority;
           ok (user, host, rest, false)
         else ok (None, "", rest,
                  negb (String.eqb scheme "") && HasPrefix rest "/"));
      path ← unescape rest encodePath;
      ok (mkURL scheme "" user host path omitHost forceQuery rawQuery "").

(** [url.Parse]: cut off the fragment, parse, set the fragment. *)
Definition Parse (rawURL : string) : result URL :=
  let '(u, frag, _) := Cut rawURL "#" in
  match parse u with
  | err e => err (wrapError ("parse " ++ quote u ++ ": " ++ Error e) e)
  | ok url =>
    if String.eqb frag "" then ok url
    else
      match unescape frag encodeFragment with
      | err e => err (wrapError ("parse " ++ quote rawURL ++ ": " ++ Error e) e)
      | ok fragment =>
        ok (mkURL (Scheme url) (Opaque url) (User url) (Host url) (Path url)
              (OmitHost url) (ForceQuery url) (RawQuery url) fragment)
      end
  end.

End url.
(** ** The fetcher (package proxy) *)

Module proxy.
Import errors.

(** An outbound request. *)
Record OutRequest := mkOutRequest {
  out_Method : string;
  out_URL : string;
  out_Header : gmap string string
}.

(** An upstream response as [client.Do] hands it over: the headers have
    arrived, the body has not been read. [Body] is what reading the body to
    its end will yield. *)
Record Response := mkResponse {
  StatusCode : Z;
  Header : gmap string string;
  ContentLength : Z;      (* -1 when the length is not declared *)
  Body : result (list byte)
}.

(** [resp.Header.Get(key)]. *)
Definition Header_Get (key : string) (resp : Response) : string :=
  default "" (Header resp !! key).

(** What a fetch does to the outside: it calls [client.Do] on a request,
    reads a body, closes a body. [EvDo] is one call of [client.Do], not one
    request on the wire: the client follows redirects within the call. *)
Inductive Event :=
  | EvDo (req : OutRequest)
  | EvBodyRead
  | EvBodyClose.

(** [http.Client]. The exchange with the upstream server, the redirects it
    follows (as long as [CheckRedirect] lets it) and the timeout that cuts
    it short, is the environment's: [transport] is the outcome of one call
    of [client.Do], which may stand for several requests upstream. *)
Record Client := mkClient {
  Timeout : Z;
  CheckRedirect : nat -> option error;    (* by [len(via)] *)
  transport : OutRequest -> result Response
}.

Definition Client_Do (c : Client) (req : OutRequest) : result Response :=
  transport c req.

Record Fetcher := mkFetcher {
  client : Client;
  maxSize : Z
}.

Definition NewFetcher (upstream : OutRequest -> result Response)
    (timeout : Z) (maxSize : Z) : Fetcher :=
  {| client :=
       {| Timeout := timeout;
          CheckRedirect := λ via,
            if (10 <=? via)%nat then Some (libError "too many redirects") else None;
          transport := upstream |};
     maxSize := maxSize |}.

(** [ValidateURL]: [None] is Go's [nil]. *)
Definition ValidateURL (f : Fetcher) (rawURL : string) : option error :=
  if String.eqb rawURL "" then Some ErrInvalidURL
  else
    match url.Parse rawURL with
    | err e => Some (wrapError (Error ErrInvalidURL ++ ": " ++ Error e) ErrInvalidURL)
    | ok parsed =>
      if negb (String.eqb (url.Scheme parsed) "http")
         && negb (String.eqb (url.Scheme parsed) "https")
      then Some ErrInvalidScheme
      else if String.eqb (url.Host parsed) "" then Some ErrInvalidURL
      else None
    end.

(** [http.NewRequest(method, url, nil)]: fails when the URL does not
    parse. *)
Definition NewRequest (method rawURL : string) : result OutRequest :=
  _ ← url.Parse rawURL; ok (mkOutRequest method rawURL ∅).

Definition Header_Set (key value : string) (req : OutRequest) : OutRequest :=
  mkOutRequest (out_Method req) (out_URL req) (<[key := value]> (out_Header req)).

(** [Fetch], with the events it causes. *)
Definition Fetch (f : Fetcher) (rawURL : string) : result Response * list Event :=
  match ValidateURL f rawURL with
  | Some e => (err e, [])
  | None =>
    match NewRequest "GET" rawURL with
    | err e => (err (wrapError ("failed to create request: " ++ Error e) e), [])
    | ok req =>
      let req := Header_Set "User-Agent" "ProxyHarold/1.0" req in
      let req := Header_Set "Accept" "*/*" req in
      match Client_Do (client f) req with
      | err e => (err (wrapError ("failed to fetch URL: " ++ Error e) e), [EvDo req])
      | ok resp =>
        if maxSize f <? ContentLength resp then
          (err (wrapError
                  (Error ErrResponseTooBig ++ ": " ++ strconv.Itoa (ContentLength resp)
                     ++ " bytes (max " ++ strconv.Itoa (maxSize f) ++ ")")
                  ErrResponseTooBig),
           [EvDo req; EvBodyClose])
        else (ok resp, [EvDo req])
      end
    end
  end.

(** The request [Fetch] sends for a URL. *)
Definition request_for (rawURL : string) : OutRequest :=
  Header_Set "Accept" "*/*"
    (Header_Set "User-Agent" "ProxyHarold/1.0" (mkOutRequest "GET" rawURL ∅)).

End proxy.

(** *** Configuration (package main) *)

Module config.

(** [int64(x)]: wrap to the signed 64-bit range. *)
Definition wrap64 (x : Z) : Z := (x + 2 ^ 63) mod 2 ^ 64 - 2 ^ 63.

(** The digit loop shared by [getEnvInt] and [getEnvInt64]: every decimal
    digit of the value is accumulated, every other character skipped. *)
Fixpoint digits (value : string) (i : Z) : Z :=
  match value with
  | "" => i
  | String c value' =>
    if text.between "0" c "9"
    then digits value' (wrap64 (i * 10 + (text.b c - text.b "0")))
    else digits value' i
  end.

(** [getEnvInt]/[getEnvInt64] on the text of the variable (empty when it is
    unset). *)
Definition getEnvInt (value : string) (defaultValue : Z) : Z :=
  if negb (String.eqb value "") then
    let i := digits value 0 in
    if 0 <? i then i else defaultValue
  else defaultValue.

End config.

(** *** Vocabulary for the validator's properties *)

Module FetcherSpec.

(** A letter of the alphabet, in either case. *)
Definition letter (c : ascii) : bool :=
  text.between "a" c "z" || text.between "A" c "Z".

(** The capital of a lower-case letter. *)
Definition capital (c : ascii) : ascii := utf8.byte_of_Z (text.b c - 32).

(** The URL as written starts with the scheme [name] and a colon, [name]
    being a word of lower-case letters and the URL spelling it in any mix
    of upper and lower case: [http:], [HTTP:] and [hTtP:] all are [http]. *)
Fixpoint written_scheme (name rawURL : string) : bool :=
  match name, rawURL with
  | "", String c _ => Ascii.eqb c ":"
  | String n name', String c rest =>
    (Ascii.eqb c n || Ascii.eqb c (capital n)) && written_scheme name' rest
  | _, "" => false
  end.

(** The URL as written starts with exactly [name] and a colon, letter for
    letter: the scheme rule as the specification words it. *)
Definition exact_scheme (name rawURL : string) : bool :=
  gostrings.HasPrefix rawURL (name ++ ":").

End FetcherSpec.
(** ** SHA-256 (package crypto/sha256)

    The digest of FIPS 180-4, which [sha256.Sum256] computes. Nothing
    proved below depends on more than its being a function. *)

Module sha256.
Local Open Scope list_scope.

Definition w32 (x : Z) : Z := Z.land x 0xFFFFFFFF.

Definition rotr (n x : Z) : Z := Z.lor (Z.shiftr x n) (w32 (Z.shiftl x (32 - n))).

Definition add (x y : Z) : Z := w32 (x + y).

Definition Ch (x y z : Z) : Z := Z.lxor (Z.land x y) (Z.land (Z.lxor x 0xFFFFFFFF) z).
Definition Maj (x y z : Z) : Z := Z.lxor (Z.lxor (Z.land x y) (Z.land x z)) (Z.land y z).
Definition bsig0 (x : Z) : Z := Z.lxor (Z.lxor (rotr 2 x) (rotr 13 x)) (rotr 22 x).
Definition bsig1 (x : Z) : Z := Z.lxor (Z.lxor (rotr 6 x) (rotr 11 x)) (rotr 25 x).
Definition ssig0 (x : Z) : Z := Z.lxor (Z.lxor (rotr 7 x) (rotr 18 x)) (Z.shiftr x 3).
Definition ssig1 (x : Z) : Z := Z.lxor (Z.lxor (rotr 17 x) (rotr 19 x)) (Z.shiftr x 10).

(** The round constants and the initial state are the first 32 bits of
    the fractional parts of the cube roots of the first 64 primes and of the
    square roots of the first 8. *)
Definition is_prime (n : nat) : bool :=
  (1 <? n)%nat && forallb (λ d, negb (n mod d =? 0)%nat) (seq 2 (n - 2)).

Definition primes : list Z := map Z.of_nat (filter (λ n, is_prime n = true) (seq 2 310)).

(** The largest [x] in [[lo, hi)] whose cube is at most [n]. *)
Fixpoint cbrt_between (fuel : nat) (lo hi n : Z) : Z :=
  match fuel with
  | O => lo
  | S fuel =>
    if hi - lo <=? 1 then lo
    else
      let m := (lo + hi) / 2 in
      if m * m * m <=? n then cbrt_between fuel m hi n else cbrt_between fuel lo m n
  end.

Definition K : list Z :=
  Eval vm_compute in
    map (λ p, w32 (cbrt_between 64 0 (2 ^ 40) (p * 2 ^ 96))) primes.

Definition init : list Z :=
  Eval vm_compute in
    map (λ p, w32 (Z.sqrt (p * 2 ^ 64))) (firstn 8 primes).

(** Big-endian bytes of a word. *)
Definition be (nbytes : nat) (x : Z) : list Z :=
  map (λ i, Z.land (Z.shiftr x (8 * Z.of_nat i)) 0xFF) (rev (seq 0 nbytes)).

Definition word_of (bs : list Z) : Z :=
  fold_left (λ acc x, Z.lor (Z.shiftl acc 8) x) bs 0.

(** The message, a 1 bit, zeros up to 56 modulo 64 bytes, the bit length. *)
Definition pad (msg : list Z) : list Z :=
  let l := Z.of_nat (length msg) in
  msg ++ [0x80] ++ repeat 0 (Z.to_nat ((55 - l) mod 64)) ++ be 8 (8 * l).

Fixpoint chunks {A} (n : nat) (count : nat) (l : list A) : list (list A) :=
  match count with
  | O => []
  | S count => firstn n l :: chunks n count (skipn n l)
  end.

(** The message schedule: sixteen words of the block, extended to 64. *)
Fixpoint extend (n : nat) (w : list Z) : list Z :=
  match n with
  | O => w
  | S n =>
    let t := length w in
    let at_ (k : nat) := nth (t - k) w 0 in
    extend n (w ++ [add (add (ssig1 (at_ 2%nat)) (at_ 7%nat))
                        (add (ssig0 (at_ 15%nat)) (at_ 16%nat))])
  end.

Definition round (st : list Z) (kw : Z * Z) : list Z :=
  match st with
  | [a; b; c; d; e; f; g; h] =>
    let t1 := add (add (add h (bsig1 e)) (add (Ch e f g) (fst kw))) (snd kw) in
    let t2 := add (bsig0 a) (Maj a b c) in
    [add t1 t2; a; b; c; add d t1; e; f; g]
  | _ => st
  end.

Definition block (st : list Z) (blk : list Z) : list Z :=
  let w := extend 48 (map word_of (chunks 4 16 blk)) in
  let st' := fold_left round (combine K w) st in
  map (λ p, add (fst p) (snd p)) (combine st st').

(** [sha256.Sum256]: the 32 bytes of the digest. *)
Definition Sum256 (data : list byte) : list byte :=
  let m := pad (map bytes.to_Z data) in
  let st := fold_left block (chunks 64 (length m / 64) m) init in
  map bytes.of_Z (flat_map (be 4) st).

End sha256.
(** ** Encodings used by the cache

    The cache stores a response as the JSON text of a [CachedResponse]
    under the hexadecimal SHA-256 digest of the URL. The encoders and
    decoders are Go's (encoding/hex, encoding/base64, encoding/json), not
    the repository's; they are written out here, after the library, to the
    extent the cache uses them. *)

Module hex.

Definition hextable : string := "0123456789abcdef".

Definition digit (i : Z) : ascii :=
  default "0"%char (String.get (Z.to_nat i) hextable).

(** [hex.EncodeToString]. *)
Fixpoint EncodeToString (src : list byte) : string :=
  match src with
  | [] => ""
  | v :: src' =>
    String (digit (Z.shiftr (bytes.to_Z v) 4))
      (String (digit (Z.land (bytes.to_Z v) 0x0F)) (EncodeToString src'))
  end.

End hex.

Module base64.
Import errors.

Definition encodeStd : string :=
  "ABCDEFGHIJKLMNOPQRSTUVWXYZabcdefghijklmnopqrstuvwxyz0123456789+/".

Definition enc (i : Z) : ascii :=
  default "="%char (String.get (Z.to_nat i) encodeStd).

(** The value of a character of the alphabet. *)
Definition dec (c : ascii) : option Z :=
  if text.between "A" c "Z" then Some (text.b c - 65)
  else if text.between "a" c "z" then Some (text.b c - 97 + 26)
  else if text.between "0" c "9" then Some (text.b c - 48 + 52)
  else if Ascii.eqb c "+" then Some 62
  else if Ascii.eqb c "/" then Some 63
  else None.

(** [base64.StdEncoding.EncodeToString]: three bytes make four characters;
    a last group of one or two bytes is padded with [=]. *)
Fixpoint Encode (src : list byte) : string :=
  match src with
  | [] => ""
  | [x] =>
    let val := Z.shiftl (bytes.to_Z x) 16 in
    String (enc (Z.land (Z.shiftr val 18) 0x3F))
      (String (enc (Z.land (Z.shiftr val 12) 0x3F)) "==")
  | [x; y] =>
    let val := Z.lor (Z.shiftl (bytes.to_Z x) 16) (Z.shiftl (bytes.to_Z y) 8) in
    String (enc (Z.land (Z.shiftr val 18) 0x3F))
      (String (enc (Z.land (Z.shiftr val 12) 0x3F))
         (String (enc (Z.land (Z.shiftr val 6) 0x3F)) "="))
  | x :: y :: z :: src' =>
    let val := Z.lor (Z.lor (Z.shiftl (bytes.to_Z x) 16) (Z.shiftl (bytes.to_Z y) 8))
                     (bytes.to_Z z) in
    String (enc (Z.land (Z.shiftr val 18) 0x3F))
      (String (enc (Z.land (Z.shiftr val 12) 0x3F))
         (String (enc (Z.land (Z.shiftr val 6) 0x3F))
            (String (enc (Z.land val 0x3F)) (Encode src'))))
  end.

Definition CorruptInputError : error := libError "illegal base64 data".

(** The decoder skips carriage returns and line feeds. *)
Fixpoint strip_newlines (s : string) : string :=
  match s with
  | "" => ""
  | String c s' =>
    if Ascii.eqb c "010" || Ascii.eqb c "013" then strip_newlines s'
    else String c (strip_newlines s')
  end.

Fixpoint decode_quanta (s : string) : result (list byte) :=
  match s with
  | "" => ok []
  | String c1 (String c2 (String c3 (String c4 rest))) =>
    match dec c1, dec c2 with
    | Some v1, Some v2 =>
      let out1 := bytes.of_Z (Z.lor (Z.shiftl v1 2) (Z.shiftr v2 4)) in
      if Ascii.eqb c3 "=" then
        if Ascii.eqb c4 "=" && String.eqb rest "" then ok [out1]
        else err CorruptInputError
      else
        match dec c3 with
        | Some v3 =>
          let out2 := bytes.of_Z (Z.lor (Z.shiftl v2 4) (Z.shiftr v3 2)) in
          if Ascii.eqb c4 "=" then
            if String.eqb rest "" then ok [out1; out2] else err CorruptInputError
          else
            match dec c4 with
            | Some v4 =>
              let out3 := bytes.of_Z (Z.lor (Z.shiftl v3 6) v4) in
              tl ← decode_quanta rest; ok (out1 :: out2 :: out3 :: tl)
            | None => err CorruptInputError
            end
        | None => err CorruptInputError
        end
    | _, _ => err CorruptInputError
    end
  | _ => err CorruptInputError
  end.

(** [base64.StdEncoding.DecodeString]. *)
Definition Decode (s : string) : result (list byte) :=
  decode_quanta (strip_newlines s).

End base64.

Module json.
Import errors.

Definition hexdigit (i : Z) : ascii := hex.digit i.

(** [htmlSafeSet]: the ASCII characters a JSON string carries as they are
    when HTML escaping is on, as it is in [json.Marshal]. *)
Definition htmlSafeSet (c : ascii) : bool :=
  (32 <=? text.b c) && (text.b c <? 128) &&
  negb (text.is_byte c [text.dquote; "\"; "<"; ">"; "&"]%char).

(** The escape of an ASCII character outside [htmlSafeSet]. *)
Definition escape_ascii (c : ascii) : string :=
  if text.is_byte c ["\"; text.dquote]%char then String "\" (String c "")
  else if Ascii.eqb c "008" then "\b"
  else if Ascii.eqb c "012" then "\f"
  else if Ascii.eqb c "010" then "\n"
  else if Ascii.eqb c "013" then "\r"
  else if Ascii.eqb c "009" then "\t"
  else "\u00" ++ String (hexdigit (Z.shiftr (text.b c) 4))
                   (String (hexdigit (Z.land (text.b c) 0xF)) "").

(** The loop of [appendString]: the text between the quotes. *)
Fixpoint escape (src : string) : string :=
  match src with
  | "" => ""
  | String c rest =>
    if text.b c <? 0x80 then
      if htmlSafeSet c then String c (escape rest)
      else escape_ascii c ++ escape rest
    else
      let '(r, size) := utf8.DecodeRuneInString src in
      if (r =? utf8.RuneError) && (size =? 1)%nat then "\ufffd" ++ escape rest
      else
        match size, rest with
        | 2%nat, String c1 t =>
          String c (String c1 (escape t))
        | 3%nat, String c1 (String c2 t) =>
          if (r =? 0x2028) || (r =? 0x2029)
          then "\u202" ++ String (hexdigit (Z.land r 0xF)) (escape t)
          else String c (String c1 (String c2 (escape t)))
        | 4%nat, String c1 (String c2 (String c3 t)) =>
          String c (String c1 (String c2 (String c3 (escape t))))
        | _, _ => "\ufffd" ++ escape rest
        end
  end.

(** [appendString(nil, src, true)]: a JSON string literal. *)
Definition appendString (src : string) : string :=
  String text.dquote (escape src ++ String text.dquote "").

Definition SyntaxError (msg : string) : error := libError ("json: " ++ msg).

(** [getu4] on the four characters after [\u]; [-1] when one is no
    hexadecimal digit. *)
Definition getu4 (h1 h2 h3 h4 : ascii) : Z :=
  if text.ishex h1 && text.ishex h2 && text.ishex h3 && text.ishex h4
  then ((text.unhex h1 * 16 + text.unhex h2) * 16 + text.unhex h3) * 16 + text.unhex h4
  else -1.

(** Package unicode/utf16. *)
Definition IsSurrogate (r : Z) : bool := (0xD800 <=? r) && (r <? 0xE000).

Definition utf16_DecodeRune (r1 r2 : Z) : Z :=
  if (0xD800 <=? r1) && (r1 <? 0xDC00) && (0xDC00 <=? r2) && (r2 <? 0xE000)
  then Z.lor (Z.shiftl (r1 - 0xD800) 10) (r2 - 0xDC00) + 0x10000
  else utf8.RuneError.

(** Reading a string literal after its opening quote: the decoded text and
    what follows the closing quote. It does the work of the scanner, which
    finds the end of the literal and rejects control characters and
    malformed escapes, and of [unquoteBytes], which decodes the escapes and
    coerces the text to valid UTF-8. *)
Fixpoint unquote (s : string) : result (string * string) :=
  match s with
  | "" => err (SyntaxError "unexpected end of JSON input")
  | String c rest =>
    if Ascii.eqb c text.dquote then ok ("", rest)
    else if Ascii.eqb c "\" then
      match rest with
      | "" => err (SyntaxError "unexpected end of JSON input")
      | String e rest1 =>
        let simple (x : ascii) :=
          '(t, tl) ← unquote rest1; ok (String x t, tl) in
        if text.is_byte e [text.dquote; "\"; "/"]%char then simple e
        else if Ascii.eqb e "b" then simple "008"%char
        else if Ascii.eqb e "f" then simple "012"%char
        else if Ascii.eqb e "n" then simple "010"%char
        else if Ascii.eqb e "r" then simple "013"%char
        else if Ascii.eqb e "t" then simple "009"%char
        else if Ascii.eqb e "u" then
          match rest1 with
          | String h1 (String h2 (String h3 (String h4 rest2))) =>
            let rr := getu4 h1 h2 h3 h4 in
            if rr <? 0 then err (SyntaxError "invalid character in \u hexadecimal character escape")
            else if IsSurrogate rr then
              match rest2 with
              | String "\" (String "u" (String g1 (String g2 (String g3 (String g4 rest3))))) =>
                let dec := utf16_DecodeRune rr (getu4 g1 g2 g3 g4) in
                if negb (dec =? utf8.RuneError) then
                  '(t, tl) ← unquote rest3; ok (utf8.EncodeRune dec ++ t, tl)
                else
                  '(t, tl) ← unquote rest2; ok (utf8.EncodeRune utf8.RuneError ++ t, tl)
              | _ =>
                '(t, tl) ← unquote rest2; ok (utf8.EncodeRune utf8.RuneError ++ t, tl)
              end
            else
              '(t, tl) ← unquote rest2; ok (utf8.EncodeRune rr ++ t, tl)
          | _ => err (SyntaxError "invalid character in \u hexadecimal character escape")
          end
        else err (SyntaxError "invalid character in string escape code")
      end
    else if text.b c <? 32 then err (SyntaxError "invalid character in string literal")
    else if text.b c <? 0x80 then
      '(t, tl) ← unquote rest; ok (String c t, tl)
    else
      let '(rr, size) := utf8.DecodeRuneInString s in
      match size, rest with
      | 2%nat, String _ t' =>
        '(t, tl) ← unquote t'; ok (utf8.EncodeRune rr ++ t, tl)
      | 3%nat, String _ (String _ t') =>
        '(t, tl) ← unquote t'; ok (utf8.EncodeRune rr ++ t, tl)
      | 4%nat, String _ (String _ (String _ t')) =>
        '(t, tl) ← unquote t'; ok (utf8.EncodeRune rr ++ t, tl)
      | _, _ =>
        '(t, tl) ← unquote rest; ok (utf8.EncodeRune rr ++ t, tl)
      end
  end.

(** [expect lit s]: [s] without its prefix [lit]. *)
Fixpoint expect (lit s : string) : result string :=
  match lit with
  | "" => ok s
  | String c lit' =>
    match s with
    | String c' s' =>
      if Ascii.eqb c c' then expect lit' s'
      else err (SyntaxError "invalid character")
    | "" => err (SyntaxError "unexpected end of JSON input")
    end
  end.

End json.

(** *** Vocabulary for the cache's properties *)

Module JsonSpec.

(** What a string becomes on its way through [json.Marshal] and
    [json.Unmarshal]: every byte that is not part of a well-formed UTF-8
    sequence is replaced by U+FFFD. *)
Fixpoint coerce (s : string) : string :=
  match s with
  | "" => ""
  | String c rest =>
    if text.b c <? 0x80 then String c (coerce rest)
    else
      let '(r, size) := utf8.DecodeRuneInString s in
      if (r =? utf8.RuneError) && (size =? 1)%nat
      then utf8.EncodeRune utf8.RuneError ++ coerce rest
      else
        match size, rest with
        | 2%nat, String c1 t => String c (String c1 (coerce t))
        | 3%nat, String c1 (String c2 t) => String c (String c1 (String c2 (coerce t)))
        | 4%nat, String c1 (String c2 (String c3 t)) =>
          String c (String c1 (String c2 (String c3 (coerce t))))
        | _, _ => utf8.EncodeRune utf8.RuneError ++ coerce rest
        end
  end.

(** A text of characters that JSON carries as they are. *)
Definition all_safe (s : string) : Prop :=
  Forall (λ c, json.htmlSafeSet c = true) (list_ascii_of_string s).

End JsonSpec.
(** ** The key-value store (package badger) *)

Module badger.
Import errors.

(** Modelled from the spec: the embedded key-value store
    (github.com/dgraph-io/badger/v4), a dependency of the repository that
    is not part of its sources. Section 4.3: a key-value store with
    per-entry expiry; an entry is written with a time-to-live; an expired
    entry need not disappear at once, expiry is enforced at read time and
    the entry is reclaimed later by compaction; an operation may fail with
    an I/O error. Following the glossary, an entry is expired once its
    time-to-live has elapsed. Times are in nanoseconds, the unit of
    [time.Duration]. *)
Record Item := mkItem {
  Value : list byte;
  ExpiresAt : Z
}.

(** The store: the entries physically present, the clock [time.Now()]
    reads, and the I/O faults that the coming transactions will meet, one
    element per transaction ([None]: the transaction meets none). *)
Record DB := mkDB {
  items : gmap string Item;
  clock : Z;
  faults : list (option error)
}.

(** [badger.Open] on an empty directory, at a given time. *)
Definition Open (now : Z) : DB := {| items := ∅; clock := now; faults := [] |}.

Definition expired (now : Z) (it : Item) : bool := ExpiresAt it <=? now.

(** A transaction works on the entries and reads the clock. *)
Record Txn := mkTxn {
  txn_items : gmap string Item;
  txn_now : Z
}.

(** [txn.Get]: an entry that is absent or expired is not found. *)
Definition txn_Get (key : string) (txn : Txn) : result Item :=
  match txn_items txn !! key with
  | Some it => if expired (txn_now txn) it then err ErrKeyNotFound else ok it
  | None => err ErrKeyNotFound
  end.

(** [badger.NewEntry(key, value).WithTTL(ttl)], and [txn.SetEntry]. *)
Record Entry := mkEntry {
  Key : string;
  entry_Value : list byte;
  entry_ExpiresAt : Z
}.

Definition NewEntry (key : string) (value : list byte) : Entry :=
  {| Key := key; entry_Value := value; entry_ExpiresAt := 0 |}.

Definition WithTTL (now : Z) (dur : Z) (e : Entry) : Entry :=
  {| Key := Key e; entry_Value := entry_Value e; entry_ExpiresAt := now + dur |}.

Definition txn_SetEntry (e : Entry) (txn : Txn) : result Txn :=
  ok {| txn_items := <[Key e := mkItem (entry_Value e) (entry_ExpiresAt e)]> (txn_items txn);
        txn_now := txn_now txn |}.

(** [txn.Delete]. *)
Definition txn_Delete (key : string) (txn : Txn) : result Txn :=
  ok {| txn_items := delete key (txn_items txn); txn_now := txn_now txn |}.

(** The fault the next transaction meets, and the faults left after it. *)
Definition next_fault (db : DB) : option error := mjoin (head (faults db)).

Definition after_txn (its : gmap string Item) (db : DB) : DB :=
  {| items := its; clock := clock db; faults := tail (faults db) |}.

(** [db.View(fn)]: a read-only transaction. *)
Definition View {A} (fn : Txn -> result A) (db : DB) : result A * DB :=
  match next_fault db with
  | Some e => (err e, after_txn (items db) db)
  | None => (fn (mkTxn (items db) (clock db)), after_txn (items db) db)
  end.

(** [db.Update(fn)]: a read-write transaction, committed when [fn]
    succeeds. *)
Definition Update (fn : Txn -> result Txn) (db : DB) : option error * DB :=
  match next_fault db with
  | Some e => (Some e, after_txn (items db) db)
  | None =>
    match fn (mkTxn (items db) (clock db)) with
    | ok txn => (None, after_txn (txn_items txn) db)
    | err e => (Some e, after_txn (items db) db)
    end
  end.

(** What the environment does to a store: time passes, compaction reclaims
    the expired entries, an I/O fault lies in wait. *)
Definition Sleep (d : Z) (db : DB) : DB :=
  {| items := items db; clock := clock db + d; faults := faults db |}.

Definition RunGC (db : DB) : DB :=
  {| items := filter (λ kv, expired (clock db) kv.2 = false) (items db);
     clock := clock db; faults := faults db |}.

Definition Inject (fs : list (option error)) (db : DB) : DB :=
  {| items := items db; clock := clock db; faults := fs |}.

End badger.

(** ** The response cache (package cache) *)

Module cache.
Import errors.

(** [CachedResponse]. A [[]byte] that may be [nil] is an [option]. *)
Record CachedResponse := mkCachedResponse {
  Data : option (list byte);
  ContentType : string
}.

(** The keys of the two fields in the JSON text, with what precedes
    them. *)
Definition key_data : string := text.dq "{'data':".
Definition key_content_type : string := text.dq ",'content_type':".

(** [json.Marshal] of a [CachedResponse]; it has no way to fail. A byte
    slice is written as [null] when it is [nil] and in base64 otherwise. *)
Definition Marshal (v : CachedResponse) : result (list byte) :=
  ok (bytes.of_string
        (key_data ++
         match Data v with
         | None => "null"
         | Some s => String text.dquote (base64.Encode s ++ String text.dquote "")
         end ++
         key_content_type ++ json.appendString (ContentType v) ++ "}")).

(** [json.Unmarshal] into a zero [CachedResponse], on the documents that
    [json.Marshal] writes for one: the two keys in the order of the
    fields, no white space. The store holds what [Set] has written and
    nothing else; on any other document, some of which Go accepts, the
    model reports a syntax error. A syntax error in the document comes
    before an error in the base64 text. *)
Definition Unmarshal (data : list byte) : result CachedResponse :=
  s ← json.expect key_data (bytes.to_string data);
  '(d, s) ← match json.expect "null" s with
            | ok s' => ok (None, s')
            | err _ =>
              s ← json.expect (String text.dquote "") s;
              '(t, s) ← json.unquote s; ok (Some t, s)
            end;
  s ← json.expect key_content_type s;
  s ← json.expect (String text.dquote "") s;
  '(ct, s) ← json.unquote s;
  s ← json.expect "}" s;
  if negb (String.eqb s "") then err (json.SyntaxError "invalid character after top-level value")
  else
    match d with
    | None => ok (mkCachedResponse None ct)
    | Some t => b ← base64.Decode t; ok (mkCachedResponse (Some b) ct)
    end.

Record BadgerCache := mkBadgerCache {
  db : badger.DB;
  ttl : Z
}.

(** [NewBadgerCache], given the outcome of [badger.Open]. *)
Definition NewBadgerCache (opened : result badger.DB) (ttl : Z) : result BadgerCache :=
  db ← opened; ok (mkBadgerCache db ttl).

(** [GenerateCacheKey]. *)
Definition GenerateCacheKey (url : string) : string :=
  hex.EncodeToString (sha256.Sum256 (bytes.of_string url)).

Definition with_db (d : badger.DB) (c : BadgerCache) : BadgerCache :=
  mkBadgerCache d (ttl c).

(** [Get]: [(data, contentType, found, err)]. *)
Definition Get (url : string) (c : BadgerCache)
    : (option (list byte) * string * bool * option error) * BadgerCache :=
  let key := GenerateCacheKey url in
  let '(r, d) :=
    badger.View (λ txn, item ← badger.txn_Get key txn; Unmarshal (badger.Value item)) (db c) in
  match r with
  | err ErrKeyNotFound => ((None, "", false, None), with_db d c)
  | err e => ((None, "", false, Some e), with_db d c)
  | ok response => ((Data response, ContentType response, true, None), with_db d c)
  end.

(** [Set]. *)
Definition Set_ (url : string) (data : option (list byte)) (contentType : string)
    (c : BadgerCache) : option error * BadgerCache :=
  let key := GenerateCacheKey url in
  let response := mkCachedResponse data contentType in
  match Marshal response with
  | err e => (Some e, c)
  | ok value =>
    let '(e, d) :=
      badger.Update (λ txn,
        let entry := badger.WithTTL (badger.txn_now txn) (ttl c) (badger.NewEntry key value) in
        badger.txn_SetEntry entry txn) (db c) in
    (e, with_db d c)
  end.

(** [Delete]. *)
Definition Delete (url : string) (c : BadgerCache) : option error * BadgerCache :=
  let key := GenerateCacheKey url in
  let '(e, d) := badger.Update (badger.txn_Delete key) (db c) in
  (e, with_db d c).

(** The store as its clients see it once time has passed or compaction has
    run. *)
Definition Sleep (d : Z) (c : BadgerCache) : BadgerCache := with_db (badger.Sleep d (db c)) c.
Definition RunGC (c : BadgerCache) : BadgerCache := with_db (badger.RunGC (db c)) c.

End cache.
(** ** The request handler (package handler) *)

Module handler.
Import errors.

(** The [Cache] interface. An implementation is a state with four
    operations on it. *)
Class Cache (C : Type) := {
  Get : string -> C -> (option (list byte) * string * bool * option error) * C;
  Set_ : string -> option (list byte) -> string -> C -> option error * C;
  Delete : string -> C -> option error * C;
  Close : C -> option error * C
}.

(** [cache.BadgerCache] implements it. Closing is left to the store. *)
Global Instance BadgerCache_Cache : Cache cache.BadgerCache := {
  Get := cache.Get;
  Set_ := cache.Set_;
  Delete := cache.Delete;
  Close := λ c, (None, c)
}.

(** The [mockCache] of the handler's tests: two maps under the cache key. *)
Record mockCache := mkMockCache {
  data : gmap string (option (list byte));
  ct : gmap string string
}.

Definition newMockCache : mockCache := {| data := ∅; ct := ∅ |}.

Global Instance mockCache_Cache : Cache mockCache := {
  Get := λ url m,
    let key := cache.GenerateCacheKey url in
    ((default None (data m !! key), default "" (ct m !! key),
      bool_decide (is_Some (data m !! key)), None), m);
  Set_ := λ url d contentType m,
    let key := cache.GenerateCacheKey url in
    (None, {| data := <[key := d]> (data m); ct := <[key := contentType]> (ct m) |});
  Delete := λ url m,
    let key := cache.GenerateCacheKey url in
    (None, {| data := delete key (data m); ct := delete key (ct m) |});
  Close := λ m, (None, m)
}.

Record ProxyHandler (C : Type) := mkProxyHandler {
  cache_ : C;
  fetcher : proxy.Fetcher
}.
Global Arguments mkProxyHandler {C} _ _.
Global Arguments cache_ {C} _.
Global Arguments fetcher {C} _.

Definition NewProxyHandler {C} (c : C) (f : proxy.Fetcher) : ProxyHandler C :=
  mkProxyHandler c f.

(** [sendError]: the JSON text of an [ErrorResponse], as
    [json.NewEncoder(w).Encode] writes it, with the line feed it adds. *)
Definition sendError (message : string) (code : Z) (w : http.ResponseWriter)
    : http.ResponseWriter :=
  let w := http.Header_Set "Content-Type" "application/json" w in
  let w := http.WriteHeader code w in
  http.Write
    (bytes.of_string
       (text.dq "{'error':" ++ json.appendString message ++ text.dq ",'code':"
          ++ strconv.Itoa code
          ++ "}" ++ String "010" "")) w.

(** [w.Write] of a slice that may be [nil]. *)
Definition Write_slice (b : option (list byte)) (w : http.ResponseWriter)
    : http.ResponseWriter :=
  http.Write (default [] b) w.

(** [ServeHTTP]: the response, the cache afterwards, and what the handler
    did to the upstream server. The deferred [resp.Body.Close()] runs when
    the function returns. *)
Definition ServeHTTP `{Cache C} (h : ProxyHandler C) (r : http.Request)
    (w : http.ResponseWriter) : http.ResponseWriter * C * list proxy.Event :=
  let w := http.Header_Set "Access-Control-Allow-Origin" "*" w in
  let w := http.Header_Set "Access-Control-Allow-Methods" "GET, OPTIONS" w in
  let w := http.Header_Set "Access-Control-Allow-Headers" "*" w in
  let w := http.Header_Set "Access-Control-Max-Age" "86400" w in
  if String.eqb (http.Method r) "OPTIONS" then
    (http.WriteHeader http.StatusNoContent w, cache_ h, [])
  else
    let targetURL := http.Query_Get "url" (http.Query r) in
    if String.eqb targetURL "" then
      (sendError "missing required 'url' parameter" http.StatusBadRequest w, cache_ h, [])
    else
      match proxy.ValidateURL (fetcher h) targetURL with
      | Some e => (sendError (Error e) http.StatusBadRequest w, cache_ h, [])
      | None =>
        let '((data, contentType, found, e), c) := Get targetURL (cache_ h) in
        if match e with None => found | Some _ => false end then
          let w := http.Header_Set "Content-Type" contentType w in
          let w := http.Header_Set "X-Cache" "HIT" w in
          (Write_slice data w, c, [])
        else
          match proxy.Fetch (fetcher h) targetURL with
          | (err e, evs) =>
            (sendError ("failed to fetch URL: " ++ Error e) http.StatusBadGateway w, c, evs)
          | (ok resp, evs) =>
            match proxy.Body resp with
            | err e =>
              (sendError ("failed to read response: " ++ Error e) http.StatusBadGateway w,
               c, (evs ++ [proxy.EvBodyRead; proxy.EvBodyClose])%list)
            | ok body =>
              let contentType := proxy.Header_Get "Content-Type" resp in
              let contentType :=
                if String.eqb contentType "" then "application/octet-stream"
                else contentType in
              let '(_, c) := Set_ targetURL (Some body) contentType c in
              let w := http.Header_Set "Content-Type" contentType w in
              let w := http.Header_Set "X-Cache" "MISS" w in
              (http.Write body w, c, (evs ++ [proxy.EvBodyRead; proxy.EvBodyClose])%list)
            end
          end
      end.

(** [ServeHTTP] as a handler over the cache and the log of events. *)
Definition Handler `{Cache C} (f : proxy.Fetcher) : http.Handler (C * list proxy.Event) :=
  λ r w '(c, log),
    let '(w, c, evs) := ServeHTTP (mkProxyHandler c f) r w in
    (w, (c, (log ++ evs)%list)).

End handler.

(** *** Vocabulary for the handler's properties *)

Module HandlerSpec.
Import errors.

(** The read of the cache did not produce a hit: it returned an error, or
    it did not find the entry. *)
Definition not_a_hit (r : option (list byte) * string * bool * option error) : Prop :=
  r.2 ≠ None ∨ r.1.2 = false.

(** The content type the handler answers with: the upstream one, or
    [application/octet-stream] when there is none. *)
Definition content_type_of (resp : proxy.Response) : string :=
  if String.eqb (proxy.Header_Get "Content-Type" resp) "" then "application/octet-stream"
  else proxy.Header_Get "Content-Type" resp.

End HandlerSpec.

(** *** Test doubles for the handler's properties *)

Module HandlerTest.
Import errors.

(** An origin that answers every request with a JSON document, as the test
    server of [TestFetcher_FetchesURL] does. *)
Definition helloOrigin : proxy.OutRequest -> result proxy.Response :=
  λ _, ok (proxy.mkResponse 200 {["Content-Type" := "application/json"]} (-1)
             (ok (bytes.of_string (text.dq "{'message':'hello'}")))).

(** An origin that declares more than it sends, as the test server of
    [TestFetcher_RejectsTooLargeResponse] does. *)
Definition largeOrigin : proxy.OutRequest -> result proxy.Response :=
  λ _, ok (proxy.mkResponse 200 ∅ 999999999
             (ok (bytes.of_string "start of large response"))).

(** An origin whose responses declare a given length. *)
Definition sizedOrigin (n : Z) : proxy.OutRequest -> result proxy.Response :=
  λ _, ok (proxy.mkResponse 200 ∅ n (ok [])).

(** A store on a failing disk: its next two transactions meet an I/O
    fault. *)
Definition failingCache : cache.BadgerCache :=
  cache.mkBadgerCache
    (badger.Inject [Some (libError "input/output error"); Some (libError "no space left on device")]
       (badger.Open 0))
    3600000000000.

End HandlerTest.

(** ** The server (package main) *)

Module server.

(** [getEnvFloat] on the text of the variable (empty when it is unset).
    [stdin] is the error of [os.Stdin.Read(nil)], the only thing the
    function looks at once the variable is set; [f] is declared and never
    assigned, so what is returned then is the zero of [float64]. *)
Definition getEnvFloat (value : string) (stdin : option errors.error) (defaultValue : Q) : Q :=
  if negb (String.eqb value "") then
    let f := 0%Q in
    match stdin with
    | None => f
    | Some _ => defaultValue
    end
  else defaultValue.

(** The chain [main] builds around the proxy handler,
    [limiter.Middleware(proxyHandler)], over the limiter, the cache and the
    log of upstream events. [loggingMiddleware], which wraps the chain,
    writes a log line and passes the request and the response through. *)
Definition Handler `{handler.Cache C} (f : proxy.Fetcher) (t_allow t_tokens : Q)
    : http.Handler (ratelimit.IPRateLimiter * (C * list proxy.Event)) :=
  ratelimit.Middleware t_allow t_tokens (handler.Handler f).

End server.

(** *** Further vocabulary *)

Module ServerSpec.
Import ratelimit.

(** Calls of [Allow] for one address at successive instants. *)
Fixpoint Allow_at (ts : list Q) (ip : string) (rl : IPRateLimiter)
    : list bool * IPRateLimiter :=
  match ts with
  | [] => ([], rl)
  | now :: ts =>
    let '(ok, rl) := Allow now ip rl in
    let '(oks, rl) := Allow_at ts ip rl in
    (ok :: oks, rl)
  end.

(** The four headers that open a response to every origin. *)
Definition cors (hdr : gmap string string) : Prop :=
  hdr !! "Access-Control-Allow-Origin" = Some "*" ∧
  hdr !! "Access-Control-Allow-Methods" = Some "GET, OPTIONS" ∧
  hdr !! "Access-Control-Allow-Headers" = Some "*" ∧
  hdr !! "Access-Control-Max-Age" = Some "86400".

(** An upstream response with another status code, and a fetcher whose
    upstream answers with that status code whatever the real one is. *)
Definition with_status (code : Z) (resp : proxy.Response) : proxy.Response :=
  proxy.mkResponse code (proxy.Header resp) (proxy.ContentLength resp) (proxy.Body resp).

Definition answering (code : Z) (f : proxy.Fetcher) : proxy.Fetcher :=
  proxy.mkFetcher
    (proxy.mkClient (proxy.Timeout (proxy.client f)) (proxy.CheckRedirect (proxy.client f))
       (λ req,
          match proxy.transport (proxy.client f) req with
          | errors.ok resp => errors.ok (with_status code resp)
          | errors.err e => errors.err e
          end))
    (proxy.maxSize f).

(** A text with no bracket, and one with no colon either: a host name or
    an IPv4 address, a port. *)
Definition unbracketed (s : string) : Prop :=
  gostrings.IndexByte "[" s = None ∧ gostrings.IndexByte "]" s = None.

Definition plain (s : string) : Prop :=
  gostrings.IndexByte ":" s = None ∧ unbracketed s.

(** The decimal digits of a text, in order. *)
Fixpoint only_digits (s : string) : string :=
  match s with
  | "" => ""
  | String c s' =>
    if text.between "0" c "9" then String c (only_digits s') else only_digits s'
  end.

(** A text of lower-case hexadecimal digits. *)
Definition lower_hex (s : string) : Prop :=
  Forall (λ c, text.between "0" c "9" || text.between "a" c "f" = true)
    (list_ascii_of_string s).

End ServerSpec.

(** *** States and doubles for the properties below *)

Module ServerTest.
Import ratelimit.

(** The address number [i], in unary. *)
Definition addr (i : nat) : string := Nat.iter i (String "1") "".

(** A limiter of rate 1 and burst 1 after one request from each of [n]
    addresses at one instant: every bucket is empty. *)
Definition crowded (n : nat) : IPRateLimiter :=
  mkIPRateLimiter
    (list_to_map (map (λ i, (addr i, Pos.of_succ_nat i)) (seq 0 n)))
    (list_to_map (map (λ i, (Pos.of_succ_nat i, rate.mkLimiter 1 1 0 0)) (seq 0 n)))
    1 1 false.

End ServerTest.
(** * Properties *)

(** ** The admission limiter *)

Module RateProps.
Import rate RateSpec.
Local Open Scope Q_scope.

Lemma NewLimiter_holds R B : holds (NewLimiter R B) R B (inject_Z B) 0.
Proof. repeat split; reflexivity. Qed.

Lemma advance_eq lim R B tk t now :
  holds lim R B tk t →
  advance now lim == Qmin (inject_Z B) (tk + Qmax 0 (R * (now - t))).
Proof.
  unfold advance. intros (<- & <- & Htk & Ht). now rewrite Htk, Ht.
Qed.

Lemma Allow_grants lim now :
  1 <= advance now lim →
  Allow now lim =
    (true, {| limit := limit lim; burst := burst lim;
              tokens := advance now lim - 1; last := now |}).
Proof.
  intros H. unfold Allow. apply Qle_bool_iff in H. now rewrite H.
Qed.

Lemma Allow_refuses lim now :
  advance now lim < 1 → Allow now lim = (false, lim).
Proof.
  intros H. unfold Allow.
  destruct (Qle_bool 1 (advance now lim)) eqn:E; [|reflexivity].
  apply Qle_bool_iff in E. lra.
Qed.

(** Tokens are unchanged on denial, and one is consumed on admission. *)
Lemma Allow_spec lim now :
  (1 <= advance now lim ∧ fst (Allow now lim) = true ∧
     tokens (snd (Allow now lim)) == advance now lim - 1) ∨
  (advance now lim < 1 ∧ Allow now lim = (false, lim)).
Proof.
  destruct (Qlt_le_dec (advance now lim) 1) as [H|H].
  - right. split; [assumption | now apply Allow_refuses].
  - left. rewrite (Allow_grants _ _ H). simpl. repeat split; try assumption; reflexivity.
Qed.

Section at_last_refill.

(** A bucket looked at again at the instant of its last refill. *)
Variables (lim : Limiter) (R : Q) (B : Z) (tk t now : Q).
Hypothesis Hholds : holds lim R B tk t.
Hypothesis Hnow : now == t.
Hypothesis Hcap : tk <= inject_Z B.

(** No time has passed: the count is the stored one. *)
Lemma advance_same_instant : advance now lim == tk.
Proof.
  rewrite (advance_eq _ _ _ _ _ _ Hholds).
  assert (Hz : Qmax 0 (R * (now - t)) == 0).
  { rewrite Hnow, Q.max_l; [reflexivity | ring_simplify; apply Qle_refl]. }
  rewrite Hz, Qplus_0_r. now apply Q.min_r.
Qed.

(** One admitted call. *)
Lemma Allow_step :
  1 <= tk →
  fst (Allow now lim) = true ∧ holds (snd (Allow now lim)) R B (tk - 1) t.
Proof.
  intros H1. pose proof advance_same_instant as Hadv.
  rewrite Allow_grants by (rewrite Hadv; assumption).
  destruct Hholds as (HR & HB & _ & _). simpl. split; [reflexivity|].
  unfold holds; simpl. split; [assumption|]. split; [assumption|].
  split; [now rewrite Hadv | assumption].
Qed.

Lemma Allow_empty : tk < 1 → Allow now lim = (false, lim).
Proof.
  intros H1. apply Allow_refuses. now rewrite advance_same_instant.
Qed.

End at_last_refill.

(** A full bucket is full at every instant: the refill is capped at the
    burst size. *)
Lemma advance_full lim R B t0 now :
  holds lim R B (inject_Z B) t0 → advance now lim == inject_Z B.
Proof.
  intros H. rewrite (advance_eq _ _ _ _ _ _ H).
  apply Q.min_l. pose proof (Q.le_max_l 0 (R * (now - t0))). lra.
Qed.

(** The first call on a full bucket, at any instant: admitted when the
    burst size is at least 1, and the refill time is then that instant. *)
Lemma Allow_full lim R B t0 now :
  holds lim R B (inject_Z B) t0 → (1 <= B)%Z →
  fst (Allow now lim) = true ∧ holds (snd (Allow now lim)) R B (inject_Z (B - 1)) now.
Proof.
  intros H HB. pose proof (advance_full _ _ _ _ now H) as Hadv.
  rewrite Allow_grants.
  - destruct H as (HR & HB' & _ & _). simpl. split; [reflexivity|].
    unfold holds; simpl. split; [assumption|]. split; [assumption|].
    split; [|reflexivity].
    rewrite Hadv. unfold Z.sub. rewrite inject_Z_plus. reflexivity.
  - rewrite Hadv. change 1 with (inject_Z 1). now rewrite <- Zle_Qle.
Qed.

(** A bucket of burst size 0 admits nothing. *)
Lemma Allow_burst_0 lim R t0 now :
  holds lim R 0 0 t0 → Allow now lim = (false, lim).
Proof.
  intros H. apply Allow_refuses. rewrite (advance_full _ _ _ _ now H). reflexivity.
Qed.

(** An emptied bucket stays empty for less than [1/R] seconds. *)
Lemma Allow_not_refilled lim R B t now :
  holds lim R B 0 t → t <= now → now < t + / R → 0 < R →
  Allow now lim = (false, lim).
Proof.
  intros H H1 H2 HR. apply Allow_refuses.
  rewrite (advance_eq _ _ _ _ _ _ H).
  assert (Hd : R * (now - t) < 1).
  { assert (H3 : now - t < / R) by lra.
    apply (Qmult_lt_l _ _ R HR) in H3.
    rewrite Qmult_inv_r in H3 by lra. exact H3. }
  assert (Hm : Qmax 0 (R * (now - t)) < 1) by (apply Q.max_lub_lt; lra).
  eapply Qle_lt_trans; [apply Q.le_min_r|]. lra.
Qed.

(** An emptied bucket holds one token again [1/R] seconds later. *)
Lemma Allow_refilled lim R B t now :
  holds lim R B 0 t → now == t + / R → 0 < R → (1 <= B)%Z →
  fst (Allow now lim) = true.
Proof.
  intros H Hnow HR HB.
  rewrite Allow_grants; [reflexivity|].
  rewrite (advance_eq _ _ _ _ _ _ H).
  assert (Hd : R * (now - t) == 1) by (rewrite Hnow; field; lra).
  rewrite Hd, Q.max_r by lra.
  apply Q.min_glb; [| lra].
  change 1 with (inject_Z 1). rewrite <- Zle_Qle. assumption.
Qed.

End RateProps.

Module RegistryProps.
Import ratelimit RateSpec.

Lemma wf_New r b : wf (NewIPRateLimiter r b).
Proof. split; intros *; simpl; rewrite lookup_empty; discriminate. Qed.

Lemma bucket_registered ip l lim rl :
  limiters rl !! ip = Some l → heap rl !! l = Some lim → bucket ip rl = Some lim.
Proof. intros H1 H2. unfold bucket. rewrite H1. exact H2. Qed.

Lemma bucket_unregistered ip rl : limiters rl !! ip = None → bucket ip rl = None.
Proof. intros H. unfold bucket. now rewrite H. Qed.

(** A new limiter gets a pointer no registered address holds. *)
Lemma fresh_not_registered rl ip :
  wf rl → limiters rl !! ip ≠ Some (fresh (dom (heap rl))).
Proof.
  intros [Hp _] H. apply Hp in H. apply elem_of_dom in H.
  exact (is_fresh (dom (heap rl)) H).
Qed.

(** [getLimiter] returns a pointer to the address's current bucket, which
    it has registered if it was not; the buckets of the other addresses are
    as before. *)
Lemma getLimiter_alloc ip rl :
  wf rl →
  let '(l, rl1) := getLimiter ip rl in
  wf rl1 ∧ limiters rl1 !! ip = Some l ∧ heap rl1 !! l = Some (current ip rl) ∧
  rl_rate rl1 = rl_rate rl ∧ rl_burst rl1 = rl_burst rl ∧
  (∀ b, b ≠ ip → limiters rl1 !! b = limiters rl !! b) ∧
  (∀ l', l' ≠ l → heap rl1 !! l' = heap rl !! l').
Proof.
  intros Hwf. unfold getLimiter, current, bucket.
  destruct (limiters rl !! ip) as [l|] eqn:E; simpl.
  - destruct Hwf as [Hp Hi]. destruct (Hp _ _ E) as [lim Hlim].
    rewrite Hlim. simpl. repeat split; eauto.
  - pose proof (λ ip', fresh_not_registered rl ip' Hwf) as Hfresh.
    destruct Hwf as [Hp Hi].
    set (l := fresh (dom (heap rl))) in *.
    repeat split; simpl.
    + intros ip' l'. destruct (decide (ip = ip')) as [<-|Hne].
      * rewrite lookup_insert_eq. intros [= <-]. rewrite lookup_insert_eq. eauto.
      * rewrite lookup_insert_ne by done. intros H.
        rewrite lookup_insert_ne; [eauto|].
        intros <-. exact (Hfresh _ H).
    + intros ip1 ip2 l'.
      destruct (decide (ip = ip1)) as [<-|H1]; destruct (decide (ip = ip2)) as [<-|H2];
        try done.
      * rewrite lookup_insert_eq, lookup_insert_ne by done.
        intros [= <-] H. destruct (Hfresh ip2 H).
      * rewrite lookup_insert_eq, lookup_insert_ne by done.
        intros H [= <-]. destruct (Hfresh ip1 H).
      * rewrite !lookup_insert_ne by done. apply Hi.
    + apply lookup_insert_eq.
    + apply lookup_insert_eq.
    + intros b Hb. now rewrite lookup_insert_ne.
    + intros l' Hl'. now rewrite lookup_insert_ne.
Qed.

(** [Allow] is the bucket's [Allow] on the address's current bucket; it
    stores the result as the address's bucket and touches nothing else. *)
Lemma Allow_bucket now ip rl :
  wf rl →
  let r := rate.Allow now (current ip rl) in
  let rl' := snd (Allow now ip rl) in
  fst (Allow now ip rl) = fst r ∧ bucket ip rl' = Some (snd r) ∧ wf rl' ∧
  rl_rate rl' = rl_rate rl ∧ rl_burst rl' = rl_burst rl ∧
  (∀ b, b ≠ ip → limiters rl' !! b = limiters rl !! b ∧ bucket b rl' = bucket b rl).
Proof.
  intros Hwf. pose proof (getLimiter_alloc ip rl Hwf) as H.
  unfold Allow. destruct (getLimiter ip rl) as [l rl1].
  destruct H as ([Hp Hi] & Hreg & Hheap & Hr & Hb & Hothers & Hheaps).
  unfold with_limiter. rewrite Hheap.
  destruct (rate.Allow now (current ip rl)) as [ok lim'] eqn:E. simpl.
  split; [reflexivity|]. split.
  { unfold bucket. simpl. rewrite Hreg. simpl. apply lookup_insert_eq. }
  split.
  { split; simpl.
    - intros ip' l' H. destruct (decide (l = l')) as [<-|Hne].
      + rewrite lookup_insert_eq. eauto.
      + rewrite lookup_insert_ne by done. eauto.
    - exact Hi. }
  repeat split; try assumption.
  - simpl. now apply Hothers.
  - unfold bucket. simpl. rewrite <- (Hothers b) by assumption.
    destruct (limiters rl1 !! b) as [l'|] eqn:Eb; [|reflexivity]. simpl.
    assert (l ≠ l') by (intros <-; apply H; eauto).
    rewrite lookup_insert_ne by done. now apply Hheaps.
Qed.

Lemma wf_Allow now ip rl : wf rl → wf (snd (Allow now ip rl)).
Proof. intros H. apply (Allow_bucket now ip rl H). Qed.

Lemma wf_cleanupTick rl : wf rl → wf (cleanupTick rl).
Proof.
  intros H. unfold cleanupTick. destruct (done rl); [assumption|].
  destruct (_ <? _)%Z; [|assumption].
  split; intros *; simpl; rewrite lookup_empty; discriminate.
Qed.

Lemma wf_Cleanup rl : wf rl → wf (Cleanup rl).
Proof. intros H. exact H. Qed.

(** The registry invariant holds in every state of a running limiter. *)
Lemma reachable_wf r b rl : reachable r b rl → wf rl.
Proof.
  induction 1; auto using wf_New, wf_Allow, wf_cleanupTick, wf_Cleanup.
Qed.

Lemma reachable_config r b rl :
  reachable r b rl → rl_rate rl = r ∧ rl_burst rl = b.
Proof.
  induction 1 as [|now ip rl Hr [IH1 IH2]|rl Hr [IH1 IH2]|rl Hr IH]; simpl; auto.
  - destruct (Allow_bucket now ip rl (reachable_wf _ _ _ Hr)) as (_ & _ & _ & -> & -> & _).
    auto.
  - unfold cleanupTick. destruct (done rl); [auto|]. destruct (_ <? _)%Z; auto.
Qed.

End RegistryProps.

Module LimiterClaims.
Import ratelimit RateSpec RateProps RegistryProps.
Local Open Scope list_scope.

Lemma holds_proper lim R B tk tk' t :
  holds lim R B tk t → (tk == tk')%Q → holds lim R B tk' t.
Proof.
  intros (H1 & H2 & H3 & H4) E. repeat split; try assumption. now rewrite <- E.
Qed.

Lemma Allow_n_add n m now ip rl :
  Allow_n (n + m) now ip rl =
    (fst (Allow_n n now ip rl) ++ fst (Allow_n m now ip (snd (Allow_n n now ip rl))),
     snd (Allow_n m now ip (snd (Allow_n n now ip rl)))).
Proof.
  revert rl. induction n as [|n IH]; intros rl; simpl.
  - now destruct (Allow_n m now ip rl).
  - destruct (Allow now ip rl) as [ok rl1]. rewrite IH.
    destruct (Allow_n n now ip rl1) as [oks rl2]. reflexivity.
Qed.

(** A bucket holding [k] tokens admits [k] calls made at the instant of its
    last refill, and is empty afterwards. *)
Lemma drain R B ip t now k : ∀ rl,
  wf rl → rl_rate rl = R → rl_burst rl = B →
  holds (current ip rl) R B (inject_Z (Z.of_nat k)) t →
  (now == t)%Q → (Z.of_nat k <= B)%Z →
  let rl' := snd (Allow_n k now ip rl) in
  fst (Allow_n k now ip rl) = replicate k true ∧
  wf rl' ∧ rl_rate rl' = R ∧ rl_burst rl' = B ∧ holds (current ip rl') R B 0 t.
Proof.
  induction k as [|k IH]; intros rl Hwf HR HB Hh Hnow Hk; simpl.
  - split; [reflexivity|]. repeat (split; [assumption|]). exact Hh.
  - destruct (Allow_bucket now ip rl Hwf) as (Hok & Hbk & Hwf' & HR' & HB' & _).
    destruct (Allow now ip rl) as [ok rl1]. simpl in *.
    destruct (Allow_step _ _ _ _ _ _ Hh Hnow) as [Hadm Hh'].
    { rewrite <- Zle_Qle. exact Hk. }
    { change 1%Q with (inject_Z 1). rewrite <- Zle_Qle. lia. }
    assert (Hcur : current ip rl1 = snd (rate.Allow now (current ip rl))).
    { unfold current at 1. now rewrite Hbk. }
    specialize (IH rl1 Hwf' (eq_trans HR' HR) (eq_trans HB' HB)).
    destruct (Allow_n k now ip rl1) as [oks rl2]. simpl in *.
    destruct IH as (-> & IH); [| assumption | lia |].
    + rewrite Hcur. apply (holds_proper _ _ _ _ _ _ Hh').
      rewrite Nat2Z.inj_succ. unfold Z.succ. rewrite inject_Z_plus. ring.
    + split; [|exact IH]. now rewrite Hok, Hadm.
Qed.

(** A denied call leaves the whole limiter's view of the bucket as it was. *)
Lemma denied_call R B ip t now rl :
  wf rl → holds (current ip rl) R B 0 t → (now == t)%Q → (0 <= B)%Z →
  fst (Allow now ip rl) = false ∧
  current ip (snd (Allow now ip rl)) = current ip rl ∧ wf (snd (Allow now ip rl)).
Proof.
  intros Hwf Hh Hnow HB.
  destruct (Allow_bucket now ip rl Hwf) as (Hok & Hbk & Hwf' & _).
  assert (E : rate.Allow now (current ip rl) = (false, current ip rl)).
  { apply (Allow_empty _ _ _ _ _ _ Hh Hnow); [|reflexivity].
    change 0%Q with (inject_Z 0). now rewrite <- Zle_Qle. }
  rewrite E in Hok, Hbk.
  split; [assumption|]. split; [|assumption].
  unfold current at 1. now rewrite Hbk.
Qed.

Lemma refilled_call R B ip t now rl :
  wf rl → holds (current ip rl) R B 0 t → (now == t + / R)%Q → (0 < R)%Q →
  (1 <= B)%Z → fst (Allow now ip rl) = true.
Proof.
  intros Hwf Hh Hnow HR HB.
  destruct (Allow_bucket now ip rl Hwf) as (-> & _).
  exact (Allow_refilled _ _ _ _ _ Hh Hnow HR HB).
Qed.

Lemma Allow_n_S n now ip rl :
  Allow_n (S n) now ip rl =
    (fst (Allow now ip rl) :: fst (Allow_n n now ip (snd (Allow now ip rl))),
     snd (Allow_n n now ip (snd (Allow now ip rl)))).
Proof.
  cbn [Allow_n]. destruct (Allow now ip rl) as [ok rl1]. cbn [fst snd].
  now destruct (Allow_n n now ip rl1).
Qed.

(** The first call for an address whose bucket is full, at any instant. *)
Lemma first_call R B ip t0 now rl :
  wf rl → holds (current ip rl) R B (inject_Z B) t0 → (1 <= B)%Z →
  let rl' := snd (Allow now ip rl) in
  fst (Allow now ip rl) = true ∧ wf rl' ∧
  rl_rate rl' = rl_rate rl ∧ rl_burst rl' = rl_burst rl ∧
  holds (current ip rl') R B (inject_Z (B - 1)) now.
Proof.
  intros Hwf Hh HB.
  destruct (Allow_bucket now ip rl Hwf) as (Hok & Hbk & Hwf' & HR' & HB' & _).
  destruct (Allow_full _ _ _ _ now Hh HB) as [Hadm Hh'].
  cbv zeta. rewrite Hok, Hadm. repeat (split; [assumption || reflexivity|]).
  unfold current at 1. now rewrite Hbk.
Qed.

(** A call made while the emptied bucket has not refilled is denied. *)
Lemma early_call R B ip t now rl :
  wf rl → holds (current ip rl) R B 0 t → (t <= now)%Q → (now < t + / R)%Q →
  (0 < R)%Q → fst (Allow now ip rl) = false.
Proof.
  intros Hwf Hh H1 H2 HR.
  destruct (Allow_bucket now ip rl Hwf) as (-> & _).
  now rewrite (Allow_not_refilled _ _ _ _ _ Hh H1 H2 HR).
Qed.

(** C3. For a client address that has no bucket yet, a limiter configured
    with rate [R > 0] and burst [B] admits the first [B] calls of [Allow]
    and denies call [B + 1], all made at one instant [t], whatever [t] is
    (the time 0 of the claim is the instant of the first call); with all
    [B] tokens consumed at [t], a call made less than [1/R] seconds later
    is denied and, when [B >= 1], a call made [1/R] seconds later is
    admitted again (whether or not the denied call has been made). *)
Theorem fresh_bucket_burst_then_refill (R : Q) (B : nat) (ip : string) (t : Q) rl :
  reachable R (Z.of_nat B) rl → limiters rl !! ip = None → (0 < R)%Q →
  fst (Allow_n (S B) t ip rl) = replicate B true ++ [false] ∧
  (∀ t', (t <= t')%Q → (t' < t + / R)%Q →
     fst (Allow t' ip (snd (Allow_n B t ip rl))) = false) ∧
  ((1 <= B)%nat →
     fst (Allow (t + / R) ip (snd (Allow_n B t ip rl))) = true ∧
     fst (Allow (t + / R) ip (snd (Allow_n (S B) t ip rl))) = true).
Proof.
  intros Hreach Hnone HR.
  pose proof (reachable_wf _ _ _ Hreach) as Hwf.
  destruct (reachable_config _ _ _ Hreach) as [Hrate Hburst].
  assert (Hfresh : holds (current ip rl) R (Z.of_nat B) (inject_Z (Z.of_nat B)) 0).
  { unfold current. rewrite (bucket_unregistered _ _ Hnone). simpl.
    rewrite Hrate, Hburst. apply NewLimiter_holds. }
  assert (Hdenied : ∀ t', fst (Allow_n B t ip rl) = replicate B true ∧
            (B = 0%nat → fst (Allow t' ip (snd (Allow_n B t ip rl))) = false) ∧
            wf (snd (Allow_n B t ip rl)) ∧
            ((1 <= B)%nat →
               holds (current ip (snd (Allow_n B t ip rl))) R (Z.of_nat B) 0 t)).
  { intros t'. destruct B as [|k].
    - simpl. split; [reflexivity|]. split; [|split; [assumption | lia]].
      intros _. destruct (Allow_bucket t' ip rl Hwf) as (-> & _).
      now rewrite (Allow_burst_0 _ _ _ t' Hfresh).
    - destruct (first_call R (Z.of_nat (S k)) ip 0 t rl Hwf Hfresh ltac:(lia))
        as (Hadm & Hwf1 & HR1 & HB1 & Hh1).
      rewrite Allow_n_S. cbn [fst snd].
      destruct (drain R (Z.of_nat (S k)) ip t t k (snd (Allow t ip rl)))
        as (Hoks & Hwf' & _ & _ & Hempty); try assumption; try congruence;
        try reflexivity; try lia.
      { replace (Z.of_nat k) with (Z.of_nat (S k) - 1)%Z by lia. exact Hh1. }
      rewrite Hadm, Hoks. split; [reflexivity|]. split; [discriminate|]. auto. }
  destruct (Hdenied t) as (Hoks & Hzero & Hwf' & Hempty).
  assert (Hcall : fst (Allow t ip (snd (Allow_n B t ip rl))) = false ∧
            ((1 <= B)%nat →
               current ip (snd (Allow t ip (snd (Allow_n B t ip rl)))) =
                 current ip (snd (Allow_n B t ip rl))) ∧
            wf (snd (Allow t ip (snd (Allow_n B t ip rl))))).
  { destruct B as [|k].
    - split; [now apply Hzero|]. split; [lia | now apply wf_Allow].
    - destruct (denied_call _ _ _ _ t _ Hwf' (Hempty ltac:(lia)))
        as (Hden & Hcur & Hwf''); [reflexivity | lia |]. auto. }
  destruct Hcall as (Hden & Hcur & Hwf'').
  assert (Hlast : Allow_n (S B) t ip rl =
            (replicate B true ++ [false],
             snd (Allow t ip (snd (Allow_n B t ip rl))))).
  { replace (S B) with (B + 1)%nat by lia. rewrite Allow_n_add, Allow_n_S.
    cbn [fst snd Allow_n]. now rewrite Hoks, Hden. }
  rewrite Hlast. cbn [fst snd]. split; [reflexivity|]. split.
  - intros t' H1 H2. destruct B as [|k].
    + apply (proj1 (proj2 (Hdenied t'))). reflexivity.
    + apply (early_call R (Z.of_nat (S k)) ip t); auto. apply Hempty. lia.
  - intros HB1. split.
    + apply (refilled_call R (Z.of_nat B) ip t); auto; [reflexivity | lia].
    + apply (refilled_call R (Z.of_nat B) ip t); auto; [|reflexivity | lia].
      rewrite Hcur by assumption. auto.
Qed.

Lemma fresh_bucket_burst_then_refill_witness :
  let rl := snd (Allow (1 # 2) "10.0.0.7" (NewIPRateLimiter 10 2)) in
  fst (Allow_n 3 (7 # 2) "192.168.1.1" rl) = [true; true; false] ∧
  fst (Allow (18 # 5) "192.168.1.1" (snd (Allow_n 3 (7 # 2) "192.168.1.1" rl))) = true.
Proof.
  intros rl.
  destruct (fresh_bucket_burst_then_refill 10 2 "192.168.1.1" (7 # 2) rl) as (H1 & _ & H2).
  - apply reach_allow, reach_new.
  - reflexivity.
  - reflexivity.
  - split; [exact H1|]. apply H2. lia.
Defined.

(** C8. Distinct client addresses never share consumed tokens: in every
    state of a running limiter, a call of [Allow] for [a] leaves the bucket
    of any other address [b] as it was, its registration, its existence and
    its token count. *)
Theorem Allow_leaves_other_buckets (r : Q) (bu : Z) (now : Q) (a b : string) rl :
  reachable r bu rl → a ≠ b →
  limiters (snd (Allow now a rl)) !! b = limiters rl !! b ∧
  bucket b (snd (Allow now a rl)) = bucket b rl.
Proof.
  intros Hreach Hne.
  destruct (Allow_bucket now a rl (reachable_wf _ _ _ Hreach)) as (_ & _ & _ & _ & _ & H).
  apply H. congruence.
Qed.

Lemma Allow_leaves_other_buckets_witness :
  let rl := snd (Allow 0 "192.168.1.2" (NewIPRateLimiter 1 2)) in
  "192.168.1.1" ≠ "192.168.1.2" ∧
  bucket "192.168.1.2" rl = Some (rate.mkLimiter 1 2 1 0) ∧
  bucket "192.168.1.2" (snd (Allow 0 "192.168.1.1" rl)) = bucket "192.168.1.2" rl.
Proof.
  intros rl. split; [discriminate|]. split; [reflexivity|].
  apply (Allow_leaves_other_buckets 1 2 0 "192.168.1.1" "192.168.1.2" rl).
  - apply reach_allow, reach_new.
  - discriminate.
Defined.

End LimiterClaims.

Module FormatTokens.
Import ratelimit RateSpec.

Lemma int_of_float64_nonneg t : (0 <= t)%Q → 0 <= int_of_float64 t.
Proof.
  intros H. unfold int_of_float64. apply Z.quot_pos; [|lia].
  unfold Qle in H. simpl in H. lia.
Qed.

Lemma digit_rune d : 0 <= d < 10 → string_of_rune (48 + d) = decimal d.
Proof.
  intros H.
  assert (d = 0 ∨ d = 1 ∨ d = 2 ∨ d = 3 ∨ d = 4 ∨ d = 5 ∨ d = 6 ∨ d = 7 ∨
          d = 8 ∨ d = 9) as Hd by lia.
  repeat (destruct Hd as [-> | Hd]; [reflexivity|]). now subst.
Qed.

(** The integer part of a count below [2^63] is an [int]: the conversion
    is the truncation the language defines. *)
Lemma int_of_float64_in_range t :
  (0 <= t)%Q → (t < inject_Z (2 ^ 63))%Q → 0 <= int_of_float64 t < 2 ^ 63.
Proof.
  intros H0 H1. split; [now apply int_of_float64_nonneg|].
  unfold int_of_float64. unfold Qle in H0. unfold Qlt in H1.
  cbn [Qnum Qden inject_Z] in H0, H1.
  apply Z.quot_lt_upper_bound; lia.
Qed.

(** What [formatTokens] computes: ["0"] below zero, and otherwise the last
    decimal digit of the integer part. *)
Lemma formatTokens_last_digit t :
  (t < inject_Z (2 ^ 63))%Q →
  formatTokens t =
    if QMicromega.Qlt_bool t 0 then "0" else decimal (int_of_float64 t mod 10).
Proof.
  intros _.
  unfold formatTokens. destruct (QMicromega.Qlt_bool t 0) eqn:E; [reflexivity|].
  assert (Ht : (0 <= t)%Q).
  { destruct (Qlt_le_dec t 0) as [Hlt|Hle]; [|exact Hle].
    apply QMicromega.Qlt_bool_iff in Hlt. congruence. }
  pose proof (int_of_float64_nonneg t Ht) as Hn.
  rewrite Z.rem_mod_nonneg by lia.
  apply digit_rune. apply Z.mod_pos_bound. lia.
Qed.

(** On counts below ten the header is the integer count, clamped at 0. *)
Lemma formatTokens_small t : (t < 10)%Q → formatTokens t = remaining_header t.
Proof.
  intros Hlt. rewrite formatTokens_last_digit
    by (eapply Qlt_trans; [exact Hlt | reflexivity]).
  unfold remaining_header.
  destruct (QMicromega.Qlt_bool t 0) eqn:E.
  - apply QMicromega.Qlt_bool_iff in E.
    assert (int_of_float64 t <= 0).
    { unfold int_of_float64. unfold Qlt in E. simpl in E.
      pose proof (Z.quot_opp_l (Qnum t) (Z.pos (Qden t)) ltac:(lia)) as Ho.
      pose proof (Z.quot_pos (- Qnum t) (Z.pos (Qden t)) ltac:(lia) ltac:(lia)).
      lia. }
    now rewrite Z.max_l.
  - assert (Ht : (0 <= t)%Q).
    { destruct (Qlt_le_dec t 0) as [H|H]; [|exact H].
      apply QMicromega.Qlt_bool_iff in H. congruence. }
    pose proof (int_of_float64_nonneg t Ht) as Hn.
    assert (int_of_float64 t < 10).
    { unfold int_of_float64. apply Z.quot_lt_upper_bound; [|lia|].
      - unfold Qle in Ht. simpl in Ht. lia.
      - unfold Qlt in Hlt. simpl in Hlt. lia. }
    rewrite Z.max_r by lia. now rewrite Z.mod_small by lia.
Qed.

(** C1, at the counts the default configuration produces (burst 200). The
    first request of a client leaves 199 tokens; the header the middleware
    sets reads ["9"], where the integer count reads ["199"]. *)
Theorem formatTokens_drops_leading_digits :
  let rl := NewIPRateLimiter 100 200 in
  let r := http.mkRequest "GET" [] ∅ "192.168.1.1:12345" in
  let '(w, (rl', _)) := Middleware 0 0 RateTest.okHandler r http.NewRecorder (rl, tt) in
  http.Code w = Some 200 ∧
  (rate.Tokens 0 <$> bucket "192.168.1.1" rl') = Some (199 # 1)%Q ∧
  http.Header w !! "X-RateLimit-Remaining" = Some "9" ∧
  formatTokens 199 = "9" ∧
  remaining_header 199 = "199".
Proof. vm_compute. repeat split. Qed.

End FormatTokens.

(** *** The limiter's tests, on the model *)

Module LimiterTests.
Import ratelimit RateSpec.
Local Open Scope list_scope.

(** [TestRateLimiter_AllowsRequestsUnderLimit]. *)
Example allows_requests_under_limit :
  fst (Allow_n 10 0 "192.168.1.1" (NewIPRateLimiter 10 10)) = replicate 10 true.
Proof. reflexivity. Qed.

(** [TestRateLimiter_BlocksExcessiveRequests]. *)
Example blocks_excessive_requests :
  fst (Allow 0 "192.168.1.1" (snd (Allow_n 5 0 "192.168.1.1" (NewIPRateLimiter 1 5))))
    = false.
Proof. reflexivity. Qed.

(** [TestRateLimiter_DifferentIPsHaveSeparateLimits]. *)
Example different_ips_have_separate_limits :
  let rl := snd (Allow_n 2 0 "192.168.1.1" (NewIPRateLimiter 1 2)) in
  fst (Allow 0 "192.168.1.1" rl) = false ∧
  fst (Allow 0 "192.168.1.2" (snd (Allow 0 "192.168.1.1" rl))) = true.
Proof. split; reflexivity. Qed.

(** [TestRateLimiter_RefillsOverTime]: the third call comes 150 ms after
    the first two. *)
Example refills_over_time :
  let rl := NewIPRateLimiter 10 1 in
  let '(ok1, rl) := Allow 0 "192.168.1.1" rl in
  let '(ok2, rl) := Allow 0 "192.168.1.1" rl in
  let '(ok3, rl) := Allow (150 # 1000) "192.168.1.1" rl in
  (ok1, ok2, ok3) = (true, false, true).
Proof. reflexivity. Qed.

(** [TestRateLimiter_Middleware]: 200, then 429. *)
Example middleware_limits :
  let r := http.mkRequest "GET" [] ∅ "192.168.1.1:12345" in
  let h := Middleware 0 0 RateTest.okHandler in
  let '(rec1, s) := h r http.NewRecorder (NewIPRateLimiter 1 1, tt) in
  let '(rec2, s) := h r http.NewRecorder s in
  http.Code rec1 = Some http.StatusOK ∧
  http.Code rec2 = Some http.StatusTooManyRequests ∧
  http.Header rec2 !! "Retry-After" = Some "1".
Proof. vm_compute. repeat split. Qed.

(** [extractIP]: the first forwarded address, else the real address, else
    the host of the peer. *)
Example extractIP_cases :
  extractIP (http.mkRequest "GET" [] ∅ "192.168.1.1:12345") = "192.168.1.1" ∧
  extractIP (http.mkRequest "GET" [] {["X-Forwarded-For" := "10.0.0.1, 10.0.0.2"]}
               "192.168.1.1:12345") = "10.0.0.1" ∧
  extractIP (http.mkRequest "GET" [] {["X-Real-IP" := "10.0.0.9"]}
               "192.168.1.1:12345") = "10.0.0.9" ∧
  extractIP (http.mkRequest "GET" [] ∅ "[::1]:8080") = "::1" ∧
  extractIP (http.mkRequest "GET" [] ∅ "192.168.1.1") = "192.168.1.1".
Proof. vm_compute. repeat split. Qed.

End LimiterTests.

(** ** Strings: searching and slicing *)

Module StringProps.
Import gostrings.

Lemma append_nil_l (s : string) : "" ++ s = s.
Proof. reflexivity. Qed.

Lemma append_cons (x : ascii) (a b : string) : String x a ++ b = String x (a ++ b).
Proof. reflexivity. Qed.

Ltac app_norm := rewrite ?append_cons, ?append_nil_l.

Lemma append_nil_r (s : string) : s ++ "" = s.
Proof. induction s as [|c s IH]; [reflexivity|]. app_norm. now rewrite IH. Qed.

Lemma append_assoc (a b c : string) : (a ++ b) ++ c = a ++ (b ++ c).
Proof. induction a as [|x a IH]; [reflexivity|]. app_norm. now rewrite IH. Qed.

Lemma length_append (a b : string) :
  String.length (a ++ b) = (String.length a + String.length b)%nat.
Proof. induction a as [|x a IH]; [reflexivity|]. app_norm. cbn. now rewrite IH. Qed.

Lemma substring_0_all (s : string) : substring 0 (String.length s) s = s.
Proof. induction s as [|c s IH]; [reflexivity|]. cbn. now rewrite IH. Qed.

Lemma take_app (a b : string) : take (String.length a) (a ++ b) = a.
Proof.
  unfold take. induction a as [|x a IH]; app_norm; cbn.
  - now destruct b.
  - now rewrite IH.
Qed.

Lemma substring_skip (a b : string) n :
  substring (String.length a) n (a ++ b) = substring 0 n b.
Proof. induction a as [|x a IH]; [reflexivity|]. app_norm. cbn. exact IH. Qed.

Lemma drop_app (a b : string) : drop (String.length a) (a ++ b) = b.
Proof.
  unfold drop. rewrite substring_skip, length_append.
  replace (String.length a + String.length b - String.length a)%nat
    with (String.length b) by lia.
  apply substring_0_all.
Qed.

Lemma take_all (s : string) : take (String.length s) s = s.
Proof. apply substring_0_all. Qed.

Lemma take_drop (i : nat) (s : string) : take i s ++ drop i s = s.
Proof.
  unfold take, drop. revert i. induction s as [|c s IH]; intros [|i].
  - reflexivity.
  - reflexivity.
  - change (substring 0 0 (String c s)) with "". app_norm.
    apply (substring_0_all (String c s)).
  - change (substring 0 (S i) (String c s)) with (String c (substring 0 i s)).
    change (substring (S i) (String.length (String c s) - S i) (String c s))
      with (substring i (String.length s - i) s).
    app_norm. now rewrite IH.
Qed.

(** A string that holds no [c]: [IndexByte] finds none. *)
Lemma IndexByte_app (c : ascii) (a b : string) :
  IndexByte c a = None → IndexByte c (a ++ String c b) = Some (String.length a).
Proof.
  induction a as [|x a IH]; app_norm; cbn.
  - now rewrite Ascii.eqb_refl.
  - destruct (Ascii.eqb x c); [discriminate|].
    destruct (IndexByte c a); [discriminate|]. intros _. now rewrite IH.
Qed.

Lemma IndexByte_app_None (c : ascii) (a b : string) :
  IndexByte c a = None → IndexByte c b = None → IndexByte c (a ++ b) = None.
Proof.
  induction a as [|x a IH]; app_norm; cbn; [auto|].
  destruct (Ascii.eqb x c); [discriminate|].
  destruct (IndexByte c a); [discriminate|]. intros _ Hb. now rewrite IH.
Qed.

Lemma IndexByte_cons_ne (c x : ascii) (s : string) :
  x ≠ c → IndexByte c (String x s) = S <$> IndexByte c s.
Proof. intros H. cbn. apply Ascii.eqb_neq in H. now rewrite H. Qed.

(** What [IndexByte] finds is the first [c]. *)
Lemma IndexByte_Some (c : ascii) (s : string) i :
  IndexByte c s = Some i →
  IndexByte c (take i s) = None ∧ s = take i s ++ String c (drop (S i) s).
Proof.
  revert i. induction s as [|x s IH]; intros i; cbn; [discriminate|].
  destruct (Ascii.eqb_spec x c) as [->|Hne].
  - intros [= <-]. split; [reflexivity|]. unfold take. cbn. app_norm.
    unfold drop. cbn. rewrite Nat.sub_0_r. now rewrite substring_0_all.
  - destruct (IndexByte c s) as [j|] eqn:E; [|discriminate].
    intros [= <-]. destruct (IH j eq_refl) as [H1 H2].
    unfold take in *. cbn. apply Ascii.eqb_neq in Hne. rewrite Hne.
    rewrite H1. split; [reflexivity|].
    app_norm. f_equal. exact H2.
Qed.

Lemma LastIndexByte_None (c : ascii) (s : string) :
  IndexByte c s = None → LastIndexByte c s = None.
Proof.
  induction s as [|x s IH]; cbn; [reflexivity|].
  destruct (Ascii.eqb x c); [discriminate|].
  destruct (IndexByte c s); [discriminate|]. intros _. now rewrite IH.
Qed.

(** The last [c] of a string whose tail holds none. *)
Lemma LastIndexByte_app (c : ascii) (a b : string) :
  IndexByte c b = None → LastIndexByte c (a ++ String c b) = Some (String.length a).
Proof.
  intros Hb. induction a as [|x a IH]; app_norm; cbn.
  - rewrite (LastIndexByte_None c b Hb). now rewrite Ascii.eqb_refl.
  - now rewrite IH.
Qed.

Lemma prefix_app (p s : string) : String.prefix p (p ++ s) = true.
Proof.
  induction p as [|c p IH]; app_norm; cbn; [now destruct s|].
  destruct (ascii_dec c c); [exact IH | contradiction].
Qed.

Lemma prefix_split (p s : string) : String.prefix p s = true → ∃ t, s = p ++ t.
Proof.
  revert s. induction p as [|c p IH]; intros s; cbn.
  - exists s. reflexivity.
  - destruct s as [|x s]; [discriminate|]. cbn [String.prefix].
    destruct (ascii_dec c x) as [E|E]; [subst x|discriminate].
    intros H. destruct (IH s H) as [t ->]. exists t. reflexivity.
Qed.

End StringProps.

(** ** Host and port *)

Module NetProps.
Import errors gostrings StringProps ServerSpec.

Lemma no_bracket_prefix (s t : string) :
  IndexByte "[" s = None → HasPrefix (s ++ String ":" t) "[" = false.
Proof.
  unfold HasPrefix. intros H. destruct s as [|c s]; [reflexivity|]. app_norm.
  cbn [String.prefix].
  destruct (ascii_dec "[" c) as [E|E]; [subst c; discriminate H | reflexivity].
Qed.

Lemma drop_app_cons (a b : string) (c : ascii) :
  drop (S (String.length a)) (a ++ String c b) = b.
Proof.
  replace (a ++ String c b) with ((a ++ String c "") ++ b)
    by (rewrite append_assoc; reflexivity).
  replace (S (String.length a)) with (String.length (a ++ String c ""))
    by (rewrite length_append; simpl; lia).
  apply drop_app.
Qed.

Lemma drop_0 (s : string) : drop 0 s = s.
Proof. unfold drop. rewrite Nat.sub_0_r. apply substring_0_all. Qed.

(** [SplitHostPort] on [host:port]. *)
Lemma SplitHostPort_plain host port :
  plain host → plain port →
  net.SplitHostPort (host ++ String ":" port) = ok (host, port).
Proof.
  intros (Hc & Ho & Hcl) (Hpc & Hpo & Hpcl). unfold net.SplitHostPort.
  rewrite (LastIndexByte_app ":" host port Hpc), (no_bracket_prefix _ _ Ho).
  rewrite take_app. unfold net.contains. rewrite Hc.
  change (ok (host, 0%nat, 0%nat) ≫= _) with
    (if net.contains "[" (drop 0 (host ++ String ":" port))
     then net.addrErr (host ++ String ":" port) "unexpected '[' in address"
     else if net.contains "]" (drop 0 (host ++ String ":" port))
          then net.addrErr (host ++ String ":" port) "unexpected ']' in address"
          else ok (host, drop (S (String.length host)) (host ++ String ":" port))).
  unfold net.contains. rewrite drop_0.
  rewrite (IndexByte_app_None "[" host (String ":" port)) by
    (try assumption; rewrite IndexByte_cons_ne by discriminate; now rewrite Hpo).
  rewrite (IndexByte_app_None "]" host (String ":" port)) by
    (try assumption; rewrite IndexByte_cons_ne by discriminate; now rewrite Hpcl).
  now rewrite drop_app_cons.
Qed.

Lemma drop_1 (c : ascii) (s : string) : drop 1 (String c s) = s.
Proof. change (drop 1 (String c s)) with (drop 0 s). apply drop_0. Qed.

(** [SplitHostPort] on [[host]:port], the form of an IPv6 peer. *)
Lemma SplitHostPort_bracketed host port :
  unbracketed host → plain port →
  net.SplitHostPort (String "[" (host ++ String "]" (String ":" port))) = ok (host, port).
Proof.
  intros (Ho & Hcl) (Hpc & Hpo & Hpcl).
  set (hostport := String "[" (host ++ String "]" (String ":" port))).
  assert (Hlast : LastIndexByte ":" hostport = Some (S (S (String.length host)))).
  { subst hostport.
    replace (String "[" (host ++ String "]" (String ":" port)))
      with ((String "[" (host ++ String "]" "")) ++ String ":" port)
      by (app_norm; rewrite append_assoc; reflexivity).
    rewrite (LastIndexByte_app ":" _ port Hpc). f_equal. simpl.
    rewrite length_append. simpl. lia. }
  assert (Hend : IndexByte "]" hostport = Some (S (String.length host))).
  { subst hostport. rewrite IndexByte_cons_ne by discriminate.
    now rewrite (IndexByte_app "]" host _ Hcl). }
  assert (Hlen : String.length hostport = (String.length host + 3 + String.length port)%nat).
  { subst hostport. simpl. rewrite length_append. simpl. lia. }
  unfold net.SplitHostPort. rewrite Hlast.
  replace (HasPrefix hostport "[") with true
    by (symmetry; apply (prefix_app "[" (host ++ String "]" (String ":" port)))).
  rewrite Hend, Hlen.
  replace (S (S (String.length host)) =? String.length host + 3 + String.length port)%nat
    with false by (symmetry; apply Nat.eqb_neq; lia).
  rewrite Nat.eqb_refl.
  replace (take (S (String.length host) - 1) (drop 1 hostport)) with host.
  2:{ subst hostport. rewrite drop_1.
      replace (S (String.length host) - 1)%nat with (String.length host) by lia.
      now rewrite take_app. }
  change (ok (host, 1%nat, S (S (String.length host))) ≫= _) with
    (if net.contains "[" (drop 1 hostport)
     then net.addrErr hostport "unexpected '[' in address"
     else if net.contains "]" (drop (S (S (String.length host))) hostport)
          then net.addrErr hostport "unexpected ']' in address"
          else ok (host, drop (S (S (S (String.length host)))) hostport)).
  assert (Hd1 : drop 1 hostport = host ++ String "]" (String ":" port)).
  { subst hostport. apply drop_1. }
  assert (Hd2 : drop (S (S (String.length host))) hostport = String ":" port).
  { subst hostport.
    replace (String "[" (host ++ String "]" (String ":" port)))
      with (String "[" host ++ String "]" (String ":" port)) by reflexivity.
    apply (drop_app_cons (String "[" host)). }
  assert (Hd3 : drop (S (S (S (String.length host)))) hostport = port).
  { subst hostport.
    replace (String "[" (host ++ String "]" (String ":" port)))
      with ((String "[" host ++ String "]" "") ++ String ":" port)
      by (app_norm; rewrite append_assoc; reflexivity).
    replace (S (S (S (String.length host))))
      with (S (String.length (String "[" host ++ String "]" "")))
      by (app_norm; simpl; rewrite length_append; simpl; lia).
    apply drop_app_cons. }
  rewrite Hd1, Hd2, Hd3. unfold net.contains.
  rewrite (IndexByte_app_None "[" host _ Ho) by
    (rewrite !IndexByte_cons_ne by discriminate; now rewrite Hpo).
  rewrite !IndexByte_cons_ne by discriminate. now rewrite Hpcl.
Qed.

End NetProps.

(** ** The admission limiter: registry, cleanup, middleware, identities *)

Module LimiterExtras.
Import errors gostrings StringProps NetProps ratelimit RateSpec RegistryProps ServerSpec.
Local Open Scope list_scope.

Lemma getLimiter_limiters ip rl :
  limiters (snd (getLimiter ip rl)) =
    match limiters rl !! ip with
    | Some _ => limiters rl
    | None => <[ip := fst (getLimiter ip rl)]> (limiters rl)
    end.
Proof. unfold getLimiter. destruct (limiters rl !! ip); reflexivity. Qed.

Lemma with_limiter_limiters {A} l (f : rate.Limiter → A * rate.Limiter) dflt rl :
  limiters (snd (with_limiter l f dflt rl)) = limiters rl.
Proof.
  unfold with_limiter. destruct (heap rl !! l) as [lim|]; [|reflexivity].
  now destruct (f lim).
Qed.

Lemma Allow_limiters now ip rl :
  limiters (snd (Allow now ip rl)) = limiters (snd (getLimiter ip rl)).
Proof.
  unfold Allow. destruct (getLimiter ip rl) as [l rl1]. apply with_limiter_limiters.
Qed.

(** X1. An address is registered by its first request and keeps its
    limiter afterwards. [getLimiter] called again for the same address
    returns the same limiter and changes nothing; a call of [Allow]
    registers the address it is made for, if it was not, and leaves every
    registration in place. *)
Theorem limiter_registered_once now ip rl :
  getLimiter ip (snd (getLimiter ip rl)) = getLimiter ip rl ∧
  dom (limiters (snd (Allow now ip rl))) = {[ip]} ∪ dom (limiters rl) ∧
  (∀ a l, limiters rl !! a = Some l → limiters (snd (Allow now ip rl)) !! a = Some l).
Proof.
  split; [|split].
  - unfold getLimiter at 2 3. destruct (limiters rl !! ip) as [l|] eqn:E.
    + simpl. unfold getLimiter. now rewrite E.
    + simpl. unfold getLimiter. simpl. now rewrite lookup_insert_eq.
  - rewrite Allow_limiters, getLimiter_limiters.
    destruct (limiters rl !! ip) as [l|] eqn:E.
    + symmetry. apply subseteq_union_1_L, singleton_subseteq_l, elem_of_dom. eauto.
    + apply dom_insert_L.
  - intros a l Ha. rewrite Allow_limiters, getLimiter_limiters.
    destruct (limiters rl !! ip) as [l'|] eqn:E; [exact Ha|].
    rewrite lookup_insert_ne; [exact Ha | congruence].
Qed.

(** X2. When the registry holds more than 10000 addresses, a tick of the
    cleanup loop that has not been stopped empties it: every address is
    then judged as a new one, against a full bucket of its own, whatever it
    had consumed. *)
Theorem cleanupTick_resets now ip rl :
  done rl = false → 10000 < Z.of_nat (size (limiters rl)) →
  limiters (cleanupTick rl) = ∅ ∧
  fst (Allow now ip (cleanupTick rl)) =
    fst (rate.Allow now (rate.NewLimiter (rl_rate rl) (rl_burst rl))) ∧
  bucket ip (snd (Allow now ip (cleanupTick rl))) =
    Some (snd (rate.Allow now (rate.NewLimiter (rl_rate rl) (rl_burst rl)))).
Proof.
  intros Hd Hsz. unfold cleanupTick. rewrite Hd.
  apply Z.ltb_lt in Hsz. rewrite Hsz.
  split; [reflexivity|].
  unfold Allow, getLimiter. simpl. rewrite lookup_empty.
  unfold with_limiter. simpl. rewrite lookup_insert_eq.
  destruct (rate.Allow now (rate.NewLimiter (rl_rate rl) (rl_burst rl))) as [ok lim].
  simpl. split; [reflexivity|].
  unfold bucket. simpl. rewrite lookup_insert_eq. simpl. apply lookup_insert_eq.
Qed.

Lemma addr_length i : String.length (ServerTest.addr i) = i.
Proof.
  unfold ServerTest.addr. induction i as [|i IH]; [reflexivity|].
  rewrite Nat.iter_succ. cbn [String.length]. now rewrite IH.
Qed.

(** The registry of [crowded n] holds [n] addresses. *)
Lemma size_crowded n : size (limiters (ServerTest.crowded n)) = n.
Proof.
  unfold ServerTest.crowded. cbn [limiters].
  rewrite map_size_list_to_map.
  - now rewrite length_map, length_seq.
  - change (map ?f ?l).*1 with (fst <$> (f <$> l)). rewrite <- list_fmap_compose.
    apply NoDup_fmap_2_strong; [|apply NoDup_seq].
    intros i j _ _ E. cbn in E.
    rewrite <- (addr_length i), <- (addr_length j). now rewrite E.
Qed.

Lemma cleanupTick_resets_witness :
  let rl := ServerTest.crowded (Z.to_nat 10001) in
  limiters (cleanupTick rl) = ∅ ∧
  fst (Allow 0 "1" (cleanupTick rl)) =
    fst (rate.Allow 0 (rate.NewLimiter (rl_rate rl) (rl_burst rl))) ∧
  bucket "1" (snd (Allow 0 "1" (cleanupTick rl))) =
    Some (snd (rate.Allow 0 (rate.NewLimiter (rl_rate rl) (rl_burst rl)))).
Proof.
  intros rl. apply (cleanupTick_resets 0 "1" rl); [reflexivity|].
  subst rl. rewrite size_crowded, Z2Nat.id; lia.
Defined.

(** X3. The middleware takes one decision per request. In every state of
    a running limiter, what it leaves of the limiter is what the one call
    of [Allow] leaves: reading the remaining tokens for the header consumes
    nothing. On admission the inner handler runs on the response with the
    header set; on denial it does not run, and the response is the 429
    with [Retry-After: 1] and no count. *)
Theorem Middleware_one_decision {S} (r0 : Q) (b0 : Z) (t t' : Q) (next : http.Handler S)
    (r : http.Request) (w : http.ResponseWriter) rl (s : S) :
  reachable r0 b0 rl →
  let ip := extractIP r in
  let rl1 := snd (Allow t ip rl) in
  if fst (Allow t ip rl) then
    let w1 := http.Header_Set "X-RateLimit-Remaining"
                (formatTokens (rate.Tokens t' (current ip rl1))) w in
    Middleware t t' next r w (rl, s) = ((next r w1 s).1, (rl1, (next r w1 s).2))
  else
    ∃ w', Middleware t t' next r w (rl, s) = (w', (rl1, s)) ∧
      (http.Code w = None → http.Code w' = Some http.StatusTooManyRequests) ∧
      http.Header w' !! "Retry-After" = Some "1" ∧
      http.Header w' !! "X-RateLimit-Remaining" =
        http.Header w !! "X-RateLimit-Remaining" ∧
      http.Body w' =
        http.Body w ++ bytes.of_string (text.dq "{'error':'rate limit exceeded','code':429}").
Proof.
  intros Hreach. cbv zeta. set (ip := extractIP r).
  pose proof (Allow_bucket t ip rl (reachable_wf _ _ _ Hreach)) as H. cbv zeta in H.
  destruct H as (_ & Hbk & _). unfold Middleware. fold ip.
  destruct (Allow t ip rl) as [ok rl1] eqn:EA. simpl in Hbk |- *.
  destruct ok; simpl.
  - unfold bucket in Hbk. destruct (limiters rl1 !! ip) as [l|] eqn:El; [|discriminate].
    simpl in Hbk. unfold getLimiter. rewrite El. unfold with_limiter. rewrite Hbk.
    assert (Hcur : current ip rl1 = snd (rate.Allow t (current ip rl))).
    { unfold current, bucket. rewrite El. simpl. now rewrite Hbk. }
    rewrite Hcur. rewrite insert_id by exact Hbk.
    destruct rl1 as [lims hp rr bb dd]. unfold set_heap. simpl.
    now destruct (next r _ s).
  - eexists. split; [reflexivity|].
    unfold http.Write, http.WriteHeader, http.Header_Set. simpl.
    destruct (http.Code w) as [c|]; simpl;
      (split; [intros H; first [discriminate H | reflexivity]|]);
      (split; [apply lookup_insert_eq|]);
      (split; [now rewrite !lookup_insert_ne by discriminate | reflexivity]).
Qed.

Lemma Middleware_one_decision_witness :
  let r := http.mkRequest "GET" [] ∅ "192.168.1.1:12345" in
  let h := Middleware 0 0 RateTest.okHandler in
  let rl1 := snd (Allow 0 "192.168.1.1" (NewIPRateLimiter 1 2)) in
  h r http.NewRecorder (NewIPRateLimiter 1 2, tt) =
    (http.mkResponseWriter {["X-RateLimit-Remaining" := "1"]} (Some 200)
       (bytes.of_string "OK"), (rl1, tt)) ∧
  bucket "192.168.1.1" rl1 = Some (rate.mkLimiter 1 2 1 0).
Proof.
  intros r h rl1. split; [|reflexivity].
  exact (Middleware_one_decision 1 2 0 0 RateTest.okHandler r http.NewRecorder
           (NewIPRateLimiter 1 2) tt (reach_new 1 2)).
Defined.

(** X4. The identity of a client that comes with no forwarding header is
    the host of its peer address: of [host:port], and of [[host]:port] for
    an IPv6 host, whatever the port; an address that does not split is the
    identity as it stands. *)
Theorem extractIP_peer (r : http.Request) :
  http.Request_Header_Get "X-Forwarded-For" r = "" →
  http.Request_Header_Get "X-Real-IP" r = "" →
  (∀ host port, http.RemoteAddr r = (host ++ String ":" port)%string →
     plain host → plain port → extractIP r = host) ∧
  (∀ host port,
     http.RemoteAddr r = String "[" (host ++ String "]" (String ":" port))%string →
     unbracketed host → plain port → extractIP r = host) ∧
  (IndexByte ":" (http.RemoteAddr r) = None → extractIP r = http.RemoteAddr r).
Proof.
  intros Hxff Hxri. unfold extractIP. rewrite Hxff, Hxri. simpl.
  split; [|split].
  - intros host port -> Hh Hp. now rewrite (SplitHostPort_plain host port Hh Hp).
  - intros host port -> Hh Hp. now rewrite (SplitHostPort_bracketed host port Hh Hp).
  - intros Hnone. unfold net.SplitHostPort.
    now rewrite (LastIndexByte_None ":" _ Hnone).
Qed.

Lemma extractIP_peer_witness :
  extractIP (http.mkRequest "GET" [] ∅ "192.168.1.1:12345") = "192.168.1.1" ∧
  extractIP (http.mkRequest "GET" [] ∅ "192.168.1.1:54321") = "192.168.1.1".
Proof.
  split.
  - refine (proj1 (extractIP_peer (http.mkRequest "GET" [] ∅ "192.168.1.1:12345") _ _)
              "192.168.1.1" "12345" _ _ _);
      first [reflexivity | repeat split].
  - refine (proj1 (extractIP_peer (http.mkRequest "GET" [] ∅ "192.168.1.1:54321") _ _)
              "192.168.1.1" "54321" _ _ _);
      first [reflexivity | repeat split].
Defined.

(** X5. When the request carries [X-Forwarded-For], the identity is the
    header up to its first comma, as it stands: it holds no comma, the peer
    address and [X-Real-IP] play no part, and two requests with the same
    header are one client. *)
Theorem extractIP_forwarded (r : http.Request) :
  http.Request_Header_Get "X-Forwarded-For" r ≠ "" →
  let xff := http.Request_Header_Get "X-Forwarded-For" r in
  IndexByte "," (extractIP r) = None ∧
  (extractIP r = xff ∨ ∃ rest, xff = (extractIP r ++ String "," rest)%string) ∧
  (∀ r', http.Request_Header_Get "X-Forwarded-For" r' = xff → extractIP r' = extractIP r).
Proof.
  intros Hne xff. fold xff in Hne. apply String.eqb_neq in Hne.
  assert (E : ∀ r', http.Request_Header_Get "X-Forwarded-For" r' = xff →
              extractIP r' = match IndexByte "," xff with
                             | Some i => take i xff
                             | None => xff
                             end).
  { intros r' Hr'. unfold extractIP. rewrite Hr', Hne. reflexivity. }
  rewrite (E r eq_refl). split; [|split].
  - destruct (IndexByte "," xff) as [i|] eqn:Ei; [|exact Ei].
    apply (IndexByte_Some _ _ _ Ei).
  - destruct (IndexByte "," xff) as [i|] eqn:Ei; [|now left].
    right. eexists. apply (IndexByte_Some _ _ _ Ei).
  - exact E.
Qed.

Lemma extractIP_forwarded_witness :
  extractIP (http.mkRequest "GET" [] {["X-Forwarded-For" := "10.0.0.1, 172.16.0.1"]}
               "192.168.1.1:12345") =
  extractIP (http.mkRequest "GET" []
               {["X-Forwarded-For" := "10.0.0.1, 172.16.0.1"; "X-Real-IP" := "10.9.9.9"]}
               "203.0.113.7:80").
Proof.
  symmetry.
  apply (extractIP_forwarded
           (http.mkRequest "GET" [] {["X-Forwarded-For" := "10.0.0.1, 172.16.0.1"]}
              "192.168.1.1:12345")); [discriminate | reflexivity].
Defined.

(** X6. For a count below [2^63], where the conversion to [int] is the
    truncation the language defines, the text [formatTokens] makes is one
    character, a decimal digit: [0] for a count below zero, and otherwise
    the last digit of the count's integer part, which is an [int]. From
    [2^63] on the result of the conversion is left to the implementation,
    and nothing is stated. *)
Theorem formatTokens_one_digit (tokens : Q) :
  (tokens < inject_Z (2 ^ 63))%Q →
  String.length (formatTokens tokens) = 1%nat ∧
  ∃ d, 0 <= d <= 9 ∧ formatTokens tokens = decimal d ∧
       ((0 <= tokens)%Q →
          0 <= int_of_float64 tokens < 2 ^ 63 ∧ d = int_of_float64 tokens mod 10) ∧
       ((tokens < 0)%Q → d = 0).
Proof.
  intros Hmax. rewrite (FormatTokens.formatTokens_last_digit tokens Hmax).
  destruct (QMicromega.Qlt_bool tokens 0) eqn:E.
  - split; [reflexivity|]. exists 0. split; [lia|]. split; [reflexivity|].
    apply QMicromega.Qlt_bool_iff in E. split; [intros H; exfalso; lra | reflexivity].
  - pose proof (Z.mod_pos_bound (int_of_float64 tokens) 10 ltac:(lia)) as Hd.
    remember (int_of_float64 tokens mod 10) as d eqn:Ed.
    assert (Hcases : d = 0 ∨ d = 1 ∨ d = 2 ∨ d = 3 ∨ d = 4 ∨ d = 5 ∨ d = 6 ∨ d = 7 ∨
                     d = 8 ∨ d = 9) by lia.
    split.
    + clear Ed Hd. repeat (destruct Hcases as [-> | Hcases]; [reflexivity|]).
      subst d. reflexivity.
    + exists d. split; [lia|]. split; [reflexivity|]. split.
      * intros H0. split; [|reflexivity].
        exact (FormatTokens.int_of_float64_in_range tokens H0 Hmax).
      * intros H. apply QMicromega.Qlt_bool_iff in H. congruence.
Qed.

Lemma formatTokens_one_digit_witness :
  String.length (formatTokens (9223372036854775807 # 2)) = 1%nat ∧
  formatTokens (9223372036854775807 # 2) = "3" ∧
  int_of_float64 (9223372036854775807 # 2) = 4611686018427387903.
Proof.
  destruct (formatTokens_one_digit (9223372036854775807 # 2)) as [H _]; [reflexivity|].
  split; [exact H|]. split; reflexivity.
Defined.

End LimiterExtras.

(** ** The shape of the URLs that pass validation *)

Module UrlProps.
Import errors text gostrings StringProps url FetcherSpec.

(** The scheme [getScheme] splits off, when there is one, is what comes
    before the first colon. *)
Lemma getScheme_from_split rawURL : ∀ rest pre s r,
  rawURL = pre ++ rest →
  getScheme_from rawURL (String.length pre) rest = ok (s, r) → s ≠ "" →
  rawURL = s ++ String ":" r.
Proof.
  induction rest as [|c rest IH]; intros pre s r Hraw; cbn [getScheme_from].
  - intros [= <- <-] H. contradiction.
  - assert (Hnext : rawURL = (pre ++ String c "") ++ rest)
      by (rewrite append_assoc; exact Hraw).
    assert (Hlen : S (String.length pre) = String.length (pre ++ String c ""))
      by (rewrite length_append; simpl; lia).
    destruct (between "a" c "z" || between "A" c "Z").
    { rewrite Hlen. apply IH. exact Hnext. }
    destruct (between "0" c "9" || is_byte c ["+"; "-"; "."]%char).
    { destruct pre as [|p pre].
      - intros [= <- <-] H. contradiction.
      - cbn [String.length] in *. rewrite Hlen. apply IH. exact Hnext. }
    destruct (Ascii.eqb_spec c ":") as [->|Hc].
    { destruct pre as [|p pre]; [discriminate|].
      intros [= <- <-] _. rewrite Hraw at 1. f_equal. symmetry.
      rewrite Hraw. apply (take_app (String p pre)). }
    intros [= <- <-] H. contradiction.
Qed.

Lemma getScheme_split rawURL s r :
  getScheme rawURL = ok (s, r) → s ≠ "" → rawURL = s ++ String ":" r.
Proof. apply (getScheme_from_split rawURL rawURL ""). reflexivity. Qed.

Lemma Cut_prefix (s : string) (sep : ascii) :
  ∃ t, s = (Cut s sep).1.1 ++ t.
Proof.
  unfold Cut. destruct (IndexByte sep s) as [i|] eqn:E; simpl.
  - eexists. apply (IndexByte_Some _ _ _ E).
  - exists "". now rewrite append_nil_r.
Qed.

Lemma ToLower_nil s : ToLower s = "" → s = "".
Proof. destruct s; [reflexivity | discriminate]. Qed.

(** What is left of [rest] once the query is cut off is a prefix of it. *)
Lemma query_cut_prefix (rest : string) :
  let rest1 :=
    (if (match last_byte rest with Some c => Ascii.eqb c "?" | None => false end)
        && (Count rest "?" =? 1)%nat
     then (take (String.length rest - 1) rest, true, "")
     else let '(before, after, _) := Cut rest "?" in (before, false, after)).1.1 in
  ∃ t, rest = rest1 ++ t.
Proof.
  cbv zeta. destruct (_ && _).
  - simpl. eexists. symmetry. apply take_drop.
  - destruct (Cut_prefix rest "?") as [t Ht].
    destruct (Cut rest "?") as [[before after] found]. simpl in *. eauto.
Qed.

(** A URL that parses with a scheme and a host is [scheme://...]. *)
Lemma parse_with_host u0 u :
  parse u0 = ok u → Scheme u ≠ "" → Host u ≠ "" →
  ∃ s rest, u0 = s ++ "://" ++ rest ∧ Scheme u = ToLower s.
Proof.
  unfold parse. destruct (stringContainsCTLByte u0); [discriminate|].
  destruct (String.eqb u0 "*"); [intros [= <-] H; now destruct H|].
  destruct (getScheme u0) as [[s r]|e] eqn:Eg; [|discriminate].
  cbn [mbind result_bind bind].
  pose proof (query_cut_prefix r) as Hq. cbv zeta in Hq.
  destruct (if _ && _ then _ else _) as [[rest1 forceQuery] rawQuery].
  simpl in Hq. destruct Hq as [tl Hr].
  destruct (negb (HasPrefix rest1 "/") && negb (String.eqb (ToLower s) "")).
  { intros [= <-] _ H. now destruct H. }
  destruct (negb (HasPrefix rest1 "/") && _); [discriminate|].
  destruct ((negb (String.eqb (ToLower s) "") || negb (HasPrefix rest1 "///"))
            && HasPrefix rest1 "//") eqn:Ea.
  - apply andb_true_iff in Ea as [_ Hp]. apply prefix_split in Hp as [t' ->].
    destruct (IndexByte "/" (drop 2 ("//" ++ t'))) as [i|];
      (destruct (parseAuthority _) as [[user host]|e]; [|discriminate]);
      cbn [mbind result_bind bind];
      (destruct (unescape _ encodePath) as [path|e]; [|discriminate]);
      cbn [mbind result_bind bind]; intros [= <-] Hs _; cbn [Scheme] in *;
      (assert (s ≠ "") by (intros ->; now apply Hs));
      exists s, (t' ++ tl); (split; [|reflexivity]);
      rewrite (getScheme_split _ _ _ Eg) by assumption; rewrite Hr;
      rewrite append_assoc; reflexivity.
  - cbn [mbind result_bind bind].
    destruct (unescape rest1 encodePath) as [path|e]; [|discriminate].
    cbn [mbind result_bind bind]. intros [= <-] _ H. now destruct H.
Qed.

(** The scheme [url.Parse] reports is the lower-cased text that
    [getScheme] splits off what comes before the fragment. *)
Lemma parse_scheme u0 u :
  parse u0 = ok u → ∃ s r, getScheme u0 = ok (s, r) ∧ Scheme u = ToLower s.
Proof.
  unfold parse. destruct (stringContainsCTLByte u0); [discriminate|].
  destruct (String.eqb_spec u0 "*") as [->|_].
  { intros [= <-]. exists "", "*". split; reflexivity. }
  destruct (getScheme u0) as [[s r]|e] eqn:Eg; [|discriminate].
  cbn [mbind result_bind bind]. exists s, r. split; [reflexivity|].
  destruct (if _ && _ then _ else _) as [[rest1 forceQuery] rawQuery].
  destruct (negb (HasPrefix rest1 "/") && negb (String.eqb (ToLower s) "")).
  { injection H as <-. reflexivity. }
  destruct (negb (HasPrefix rest1 "/") && _); [discriminate|].
  destruct ((negb (String.eqb (ToLower s) "") || negb (HasPrefix rest1 "///"))
            && HasPrefix rest1 "//").
  - destruct (IndexByte "/" (drop 2 rest1)) as [i|];
      (destruct (parseAuthority _) as [[user host]|e]; [|discriminate]);
      cbn [mbind result_bind bind] in H;
      (destruct (unescape _ encodePath) as [path|e]; [|discriminate]);
      cbn [mbind result_bind bind] in H; injection H as <-; reflexivity.
  - cbn [mbind result_bind bind] in H.
    destruct (unescape rest1 encodePath) as [path|e]; [|discriminate].
    cbn [mbind result_bind bind] in H. injection H as <-. reflexivity.
Qed.

Lemma Parse_scheme rawURL u :
  Parse rawURL = ok u →
  ∃ s r, getScheme (Cut rawURL "#").1.1 = ok (s, r) ∧ Scheme u = ToLower s.
Proof.
  unfold Parse. destruct (Cut rawURL "#") as [[u0 frag] found]. simpl.
  destruct (parse u0) as [u1|e] eqn:Ep; [|discriminate].
  pose proof (parse_scheme u0 u1 Ep) as Hs.
  destruct (String.eqb frag ""); [intros [= <-]; exact Hs|].
  destruct (unescape frag encodeFragment) as [fragment|e]; [|discriminate].
  intros [= <-]. exact Hs.
Qed.

(** The two cases of a letter. *)
Lemma lower_spelled (c : ascii) :
  Ascii.eqb c (lower c) || Ascii.eqb c (capital (lower c)) = true.
Proof. destruct c as [[] [] [] [] [] [] [] []]; vm_compute; reflexivity. Qed.

Lemma lower_case_letter (n : ascii) :
  between "a" n "z" = true →
  lower n = n ∧ lower (capital n) = n ∧
  letter n = true ∧ letter (capital n) = true ∧
  Ascii.eqb n "#" = false ∧ Ascii.eqb (capital n) "#" = false.
Proof.
  destruct n as [[] [] [] [] [] [] [] []]; vm_compute; intros H;
    try discriminate H; repeat split.
Qed.

(** A scheme that lower-cases to [name] is [name] written in some case. *)
Lemma written_ToLower (s rest : string) :
  written_scheme (ToLower s) (s ++ String ":" rest) = true.
Proof.
  induction s as [|c s IH]; [reflexivity|]. app_norm.
  cbn [ToLower written_scheme]. now rewrite lower_spelled, IH.
Qed.

(** A URL that starts with [name] written in some case starts with
    letters that lower-case to [name], and a colon. *)
Lemma written_split (name : string) : ∀ rawURL,
  forallb (λ n, between "a" n "z") (list_ascii_of_string name) = true →
  written_scheme name rawURL = true →
  ∃ s rest, rawURL = s ++ String ":" rest ∧ ToLower s = name ∧
            forallb letter (list_ascii_of_string s) = true ∧
            IndexByte "#" s = None.
Proof.
  induction name as [|n name IH]; intros [|c rawURL] Hname Hw;
    cbn [written_scheme] in Hw; try discriminate.
  - apply Ascii.eqb_eq in Hw as ->. exists "", rawURL. repeat split.
  - cbn [list_ascii_of_string forallb] in Hname.
    apply andb_true_iff in Hname as [Hn Hname].
    apply andb_true_iff in Hw as [Hc Hw].
    destruct (IH rawURL Hname Hw) as (s & rest & -> & Hlow & Hlet & Hfrag).
    destruct (lower_case_letter n Hn) as (L1 & L2 & L3 & L4 & L5 & L6).
    assert (Hc' : lower c = n ∧ letter c = true ∧ Ascii.eqb c "#" = false).
    { apply orb_true_iff in Hc as [Hc|Hc]; apply Ascii.eqb_eq in Hc; subst c; auto. }
    destruct Hc' as (C1 & C2 & C3).
    exists (String c s), rest. app_norm. split; [reflexivity|].
    cbn [ToLower list_ascii_of_string forallb IndexByte].
    rewrite C1, Hlow, C2, Hlet, C3, Hfrag. repeat split.
Qed.

(** [getScheme] on letters and a colon. *)
Lemma getScheme_from_letters (full r : string) : ∀ s pre,
  full = pre ++ s ++ String ":" r →
  forallb letter (list_ascii_of_string s) = true → pre ++ s ≠ "" →
  getScheme_from full (String.length pre) (s ++ String ":" r) = ok (pre ++ s, r).
Proof.
  induction s as [|c s IH]; intros pre Hfull Hlet Hne.
  - rewrite append_nil_r in Hne |- *. rewrite append_nil_l in Hfull |- *.
    destruct pre as [|p pre]; [contradiction|].
    change (getScheme_from full (String.length (String p pre)) (String ":" r))
      with (ok (take (String.length (String p pre)) full, r) : result (string * string)).
    now rewrite Hfull, (take_app (String p pre)).
  - cbn [list_ascii_of_string forallb] in Hlet.
    apply andb_true_iff in Hlet as [Hc Hlet]. app_norm.
    cbn [getScheme_from]. unfold letter in Hc. rewrite Hc.
    replace (S (String.length pre)) with (String.length (pre ++ String c ""))
      by (rewrite length_append; simpl; lia).
    rewrite IH.
    + rewrite append_assoc. reflexivity.
    + rewrite Hfull, append_assoc. reflexivity.
    + exact Hlet.
    + destruct pre; discriminate.
Qed.

Lemma getScheme_letters (s r : string) :
  forallb letter (list_ascii_of_string s) = true → s ≠ "" →
  getScheme (s ++ String ":" r) = ok (s, r).
Proof.
  intros Hlet Hne. apply (getScheme_from_letters _ r s ""); auto.
Qed.

(** What comes before the first [c] of a text starts with every start of
    the text that holds no [c]. *)
Lemma before_first (c : ascii) : ∀ p a x y,
  a ++ String c x = p ++ y → IndexByte c p = None → ∃ t, a = p ++ t.
Proof.
  induction p as [|k p IH]; intros a x y E Hp.
  - exists a. reflexivity.
  - cbn [IndexByte] in Hp. destruct (Ascii.eqb_spec k c) as [->|Hk]; [discriminate|].
    destruct (IndexByte c p) eqn:Ep; [discriminate|].
    destruct a as [|k' a]; revert E; app_norm; intros [= E1 E2].
    + congruence.
    + subst k'. destruct (IH a x y E2 eq_refl) as [t ->]. exists t. reflexivity.
Qed.

(** The fragment is cut off behind the scheme. *)
Lemma Cut_fragment_keeps (s rest : string) :
  IndexByte "#" s = None →
  ∃ t, (Cut (s ++ String ":" rest) "#").1.1 = s ++ String ":" t.
Proof.
  intros Hs. unfold Cut.
  destruct (IndexByte "#" (s ++ String ":" rest)) as [i|] eqn:E; simpl; [|eauto].
  destruct (IndexByte_Some _ _ _ E) as [_ Hsplit].
  destruct (before_first "#" (s ++ String ":" "") (take i (s ++ String ":" rest))
              (drop (S i) (s ++ String ":" rest)) rest) as [t Ht].
  - rewrite <- Hsplit, append_assoc. reflexivity.
  - apply IndexByte_app_None; [exact Hs | reflexivity].
  - exists t. rewrite Ht, append_assoc. reflexivity.
Qed.

(** The scheme [url.Parse] reports is [name] exactly when the URL is
    written with [name] in some letter case. *)
Lemma Parse_written_scheme (name rawURL : string) u :
  forallb (λ n, between "a" n "z") (list_ascii_of_string name) = true → name ≠ "" →
  Parse rawURL = ok u →
  Scheme u = name ↔ written_scheme name rawURL = true.
Proof.
  intros Hname Hne Hp. destruct (Parse_scheme rawURL u Hp) as (s & r & Hg & Hs).
  split.
  - intros E. rewrite E in Hs. subst name.
    assert (s ≠ "") by (intros ->; now apply Hne).
    destruct (Cut_prefix rawURL "#") as [tl Hraw].
    rewrite Hraw, (getScheme_split _ _ _ Hg) by assumption.
    rewrite append_assoc. app_norm. apply written_ToLower.
  - intros Hw.
    destruct (written_split name rawURL Hname Hw) as (s' & rest & -> & Hlow & Hlet & Hfrag).
    destruct (Cut_fragment_keeps s' rest Hfrag) as [t Ht].
    rewrite Ht, getScheme_letters in Hg.
    + injection Hg as <- <-. congruence.
    + exact Hlet.
    + intros ->. now apply Hne.
Qed.

End UrlProps.


(** ** URL validation and fetch *)

Module FetcherProps.
Import errors proxy FetcherSpec.
Local Open Scope list_scope.

(** The four rules of [ValidateURL], in the order it checks them. *)
Lemma ValidateURL_cases f rawURL :
  (rawURL = "" ∧ ValidateURL f rawURL = Some ErrInvalidURL) ∨
  (rawURL ≠ "" ∧ ∃ e, url.Parse rawURL = err e ∧
     ValidateURL f rawURL =
       Some (wrapError (Error ErrInvalidURL ++ ": " ++ Error e) ErrInvalidURL)) ∨
  (rawURL ≠ "" ∧ ∃ u, url.Parse rawURL = ok u ∧
     url.Scheme u ≠ "http" ∧ url.Scheme u ≠ "https" ∧
     ValidateURL f rawURL = Some ErrInvalidScheme) ∨
  (rawURL ≠ "" ∧ ∃ u, url.Parse rawURL = ok u ∧
     (url.Scheme u = "http" ∨ url.Scheme u = "https") ∧ url.Host u = "" ∧
     ValidateURL f rawURL = Some ErrInvalidURL) ∨
  (rawURL ≠ "" ∧ ∃ u, url.Parse rawURL = ok u ∧
     (url.Scheme u = "http" ∨ url.Scheme u = "https") ∧ url.Host u ≠ "" ∧
     ValidateURL f rawURL = None).
Proof.
  unfold ValidateURL.
  destruct (String.eqb_spec rawURL "") as [E0|E0]; [left; auto|].
  right. destruct (url.Parse rawURL) as [u|e]; [|left; eauto].
  right.
  destruct (String.eqb_spec (url.Scheme u) "http") as [E1|E1];
    destruct (String.eqb_spec (url.Scheme u) "https") as [E2|E2]; simpl.
  4:{ left. split; [assumption|]. exists u. auto. }
  all: right; destruct (String.eqb_spec (url.Host u) "") as [E3|E3]; [left|right];
    (split; [assumption|]); exists u; auto 6.
Qed.

(** A URL that passes validation parses. *)
Lemma ValidateURL_parses f rawURL :
  ValidateURL f rawURL = None → ∃ u, url.Parse rawURL = ok u.
Proof.
  intros H.
  destruct (ValidateURL_cases f rawURL)
    as [[_ H']|[(_ & e & _ & H')|[(_ & u & _ & _ & _ & H')|
        [(_ & u & _ & _ & _ & H')|(_ & u & Hp & _)]]]];
    try (rewrite H' in H; discriminate).
  eauto.
Qed.

(** The scheme rule, read on the text of the URL: the scheme that
    [url.Parse] reports is the lower-cased one. *)
Lemma scheme_rule rawURL u :
  url.Parse rawURL = ok u →
  (url.Scheme u = "http" ↔ written_scheme "http" rawURL = true) ∧
  (url.Scheme u = "https" ↔ written_scheme "https" rawURL = true).
Proof.
  intros Hp.
  split; apply UrlProps.Parse_written_scheme; try exact Hp; try reflexivity; discriminate.
Qed.

(** C2. [ValidateURL] returns nil exactly when the URL is not empty,
    parses, is written with the scheme [http] or [https] in any mix of
    upper and lower case, and has a host that is not empty. It returns
    [ErrInvalidScheme] exactly when the URL is not empty, parses and is
    written with another scheme or none, whatever its host; every other
    failure (the empty string, a parse error, an empty host) is an
    [ErrInvalidURL]. The case of the letters does not count because the
    scheme that is compared is the one [url.Parse] reports, which is the
    written one in lower case. The empty string, [ftp://host],
    [javascript:alert(1)], [data:text/html,...], a bare [example.com] and
    [/relative/path] are rejected; [http://example.com] and
    [https://example.com] are accepted, and so are [HTTP://example.com]
    and [hTTpS://example.com]. *)
Theorem ValidateURL_spec (f : Fetcher) :
  (∀ rawURL, ValidateURL f rawURL = None ↔
     rawURL ≠ "" ∧ ∃ u, url.Parse rawURL = ok u ∧
       (written_scheme "http" rawURL = true ∨ written_scheme "https" rawURL = true) ∧
       url.Host u ≠ "") ∧
  (∀ rawURL, ValidateURL f rawURL = Some ErrInvalidScheme ↔
     rawURL ≠ "" ∧ (∃ u, url.Parse rawURL = ok u) ∧
       written_scheme "http" rawURL = false ∧ written_scheme "https" rawURL = false) ∧
  (∀ rawURL e, ValidateURL f rawURL = Some e → e ≠ ErrInvalidScheme →
     Is e ErrInvalidURL = true ∧ Is e ErrInvalidScheme = false ∧
     (rawURL = "" ∨ (∃ e', url.Parse rawURL = err e') ∨
      ∃ u, url.Parse rawURL = ok u ∧
        (written_scheme "http" rawURL = true ∨ written_scheme "https" rawURL = true) ∧
        url.Host u = "")) ∧
  (∀ rawURL u, url.Parse rawURL = ok u →
     (url.Scheme u = "http" ↔ written_scheme "http" rawURL = true) ∧
     (url.Scheme u = "https" ↔ written_scheme "https" rawURL = true)) ∧
  ValidateURL f "" = Some ErrInvalidURL ∧
  ValidateURL f "ftp://host" = Some ErrInvalidScheme ∧
  ValidateURL f "ftp://example.com" = Some ErrInvalidScheme ∧
  ValidateURL f "javascript:alert(1)" = Some ErrInvalidScheme ∧
  ValidateURL f "data:text/html,..." = Some ErrInvalidScheme ∧
  ValidateURL f "data:text/html,<h1>test</h1>" = Some ErrInvalidScheme ∧
  ValidateURL f "example.com" = Some ErrInvalidScheme ∧
  ValidateURL f "/relative/path" = Some ErrInvalidScheme ∧
  ValidateURL f "/path/to/resource" = Some ErrInvalidScheme ∧
  ValidateURL f "http://example.com" = None ∧
  ValidateURL f "https://example.com" = None ∧
  ValidateURL f "HTTP://example.com" = None ∧
  ValidateURL f "hTTpS://example.com" = None.
Proof.
  assert (Hrule : ∀ rawURL u, url.Parse rawURL = ok u →
            ((url.Scheme u = "http" ∨ url.Scheme u = "https") ↔
             (written_scheme "http" rawURL = true ∨ written_scheme "https" rawURL = true)) ∧
            ((url.Scheme u ≠ "http" ∧ url.Scheme u ≠ "https") ↔
             (written_scheme "http" rawURL = false ∧
              written_scheme "https" rawURL = false))).
  { intros rawURL u Hp. destruct (scheme_rule rawURL u Hp) as [H1 H2].
    rewrite <- !not_true_iff_false. tauto. }
  split; [|split; [|split; [|split]]].
  - intros rawURL.
    destruct (ValidateURL_cases f rawURL)
      as [[H0 H]|[(H0 & e & Hp & H)|[(H0 & u & Hp & H1 & H2 & H)|
          [(H0 & u & Hp & H1 & H2 & H)|(H0 & u & Hp & H1 & H2 & H)]]]];
      rewrite H; split; try discriminate; try (intros _; reflexivity).
    + intros [Hne _]. contradiction.
    + intros (_ & u & Hu & _). congruence.
    + intros (_ & u' & Hu & Hs & _). rewrite Hp in Hu. injection Hu as <-.
      apply (Hrule rawURL u Hp) in Hs. tauto.
    + intros (_ & u' & Hu & _ & Hh). congruence.
    + intros _. split; [assumption|]. exists u. split; [assumption|].
      split; [|assumption]. now apply (Hrule rawURL u Hp).
  - intros rawURL.
    destruct (ValidateURL_cases f rawURL)
      as [[H0 H]|[(H0 & e & Hp & H)|[(H0 & u & Hp & H1 & H2 & H)|
          [(H0 & u & Hp & H1 & H2 & H)|(H0 & u & Hp & H1 & H2 & H)]]]];
      rewrite H; split; try discriminate; try (intros _; reflexivity).
    + intros [Hne _]. contradiction.
    + intros (_ & [u Hu] & _). congruence.
    + intros _. split; [assumption|]. split; [eauto|].
      now apply (Hrule rawURL u Hp).
    + intros (_ & _ & Hs). apply (Hrule rawURL u Hp) in Hs. tauto.
    + intros (_ & _ & Hs). apply (Hrule rawURL u Hp) in Hs. tauto.
  - intros rawURL e.
    destruct (ValidateURL_cases f rawURL)
      as [[H0 H]|[(H0 & e' & Hp & H)|[(H0 & u & Hp & H1 & H2 & H)|
          [(H0 & u & Hp & H1 & H2 & H)|(H0 & u & Hp & H1 & H2 & H)]]]];
      rewrite H; intros [= <-] Hne; try congruence;
      (split; [reflexivity|]); (split; [reflexivity|]); eauto 8.
    right. right. exists u. split; [assumption|]. split; [|assumption].
    now apply (Hrule rawURL u Hp).
  - exact scheme_rule.
  - repeat split; reflexivity.
Qed.

Lemma ValidateURL_spec_witness :
  let f := NewFetcher HandlerTest.helloOrigin 10000000000 10485760 in
  ValidateURL f "Http://example.com" = None ∧
  (∃ u, url.Parse "Http://example.com" = ok u ∧ url.Scheme u = "http" ∧
        url.Host u = "example.com") ∧
  ValidateURL f "httpx://example.com" = Some ErrInvalidScheme ∧
  ValidateURL f "http://" = Some ErrInvalidURL ∧
  ValidateURL f ":" =
    Some (wrapError (text.dq "invalid URL: parse ':': missing protocol scheme")
            ErrInvalidURL) ∧
  Is (wrapError (text.dq "invalid URL: parse ':': missing protocol scheme") ErrInvalidURL)
     ErrInvalidURL = true.
Proof.
  intros f. destruct (ValidateURL_spec f) as (Hnil & Hscheme & Hurl & _).
  split; [|split; [|split; [|split; [|split]]]].
  - apply Hnil. split; [discriminate|]. eexists. split; [reflexivity|].
    split; [left; reflexivity | discriminate].
  - eexists. split; [reflexivity|]. split; reflexivity.
  - apply Hscheme. split; [discriminate|]. split; [eexists; reflexivity|].
    split; reflexivity.
  - reflexivity.
  - reflexivity.
  - apply (Hurl ":" (wrapError (text.dq "invalid URL: parse ':': missing protocol scheme")
                       ErrInvalidURL)); [reflexivity | discriminate].
Defined.

(** C2 as stated fails: the scheme need not be exactly [http] or [https],
    letter for letter. [HTTP://example.com] and [Https://example.com/page]
    pass validation, and the scheme they are written with, the one
    [getScheme] splits off, is neither. *)
Lemma ValidateURL_accepts_other_case :
  let f := NewFetcher HandlerTest.helloOrigin 10000000000 10485760 in
  ValidateURL f "HTTP://example.com" = None ∧
  url.getScheme "HTTP://example.com" = ok ("HTTP", "//example.com") ∧
  exact_scheme "http" "HTTP://example.com" = false ∧
  exact_scheme "https" "HTTP://example.com" = false ∧
  ValidateURL f "Https://example.com/page" = None ∧
  url.getScheme "Https://example.com/page" = ok ("Https", "//example.com/page") ∧
  exact_scheme "http" "Https://example.com/page" = false ∧
  exact_scheme "https" "Https://example.com/page" = false ∧
  exact_scheme "http" "http://example.com" = true.
Proof. repeat split. Qed.

(** A URL that passes validation makes a request. *)
Lemma NewRequest_valid f rawURL :
  ValidateURL f rawURL = None →
  NewRequest "GET" rawURL = ok (mkOutRequest "GET" rawURL ∅).
Proof.
  intros H. destruct (ValidateURL_parses f rawURL H) as [u Hu].
  unfold NewRequest. now rewrite Hu.
Qed.

(** [Fetch] on a valid URL, by the outcome of the exchange. *)
Lemma Fetch_valid f rawURL :
  ValidateURL f rawURL = None →
  match Client_Do (client f) (request_for rawURL) with
  | err e =>
    Fetch f rawURL =
      (err (wrapError ("failed to fetch URL: " ++ Error e) e), [EvDo (request_for rawURL)])
  | ok resp =>
    if maxSize f <? ContentLength resp then
      ∃ msg, Fetch f rawURL =
        (err (wrapError msg ErrResponseTooBig), [EvDo (request_for rawURL); EvBodyClose])
    else Fetch f rawURL = (ok resp, [EvDo (request_for rawURL)])
  end.
Proof.
  intros H. unfold Fetch. rewrite H, (NewRequest_valid f rawURL H).
  fold (request_for rawURL).
  destruct (Client_Do (client f) (request_for rawURL)) as [resp|e]; [|reflexivity].
  destruct (maxSize f <? ContentLength resp); [eexists|]; reflexivity.
Qed.

(** [Fetch] never reads a body. *)
Lemma Fetch_never_reads f rawURL : EvBodyRead ∉ snd (Fetch f rawURL).
Proof.
  unfold Fetch.
  destruct (ValidateURL f rawURL); [simpl; apply not_elem_of_nil|].
  destruct (NewRequest "GET" rawURL) as [req|e]; [|simpl; apply not_elem_of_nil].
  destruct (Client_Do _ _) as [resp|e]; [destruct (_ <? _)|]; simpl;
    rewrite ?elem_of_cons, elem_of_nil; intuition discriminate.
Qed.

(** C5. When the upstream response to a fetch declares a Content-Length
    above the configured maximum, [Fetch] returns an error that is
    [ErrResponseTooBig]; all it has done is send the request and close the
    body, which it has not read. *)
Theorem Fetch_rejects_declared_oversize f rawURL resp :
  ValidateURL f rawURL = None →
  Client_Do (client f) (request_for rawURL) = ok resp →
  maxSize f < ContentLength resp →
  ∃ e, Fetch f rawURL = (err e, [EvDo (request_for rawURL); EvBodyClose]) ∧
       Is e ErrResponseTooBig = true ∧
       EvBodyRead ∉ snd (Fetch f rawURL).
Proof.
  intros Hv Hdo Hbig. pose proof (Fetch_valid f rawURL Hv) as H.
  rewrite Hdo in H. apply Z.ltb_lt in Hbig. rewrite Hbig in H.
  destruct H as [msg H]. eexists. split; [exact H|]. split; [reflexivity|].
  apply Fetch_never_reads.
Qed.

Lemma Fetch_rejects_declared_oversize_witness :
  let f := NewFetcher HandlerTest.largeOrigin 10000000000 1024 in
  ∃ e, Fetch f "http://origin.test/large" =
         (err e, [EvDo (request_for "http://origin.test/large"); EvBodyClose]) ∧
       Is e ErrResponseTooBig = true.
Proof.
  intros f.
  destruct (Fetch_rejects_declared_oversize f "http://origin.test/large"
              (mkResponse 200 ∅ 999999999 (ok (bytes.of_string "start of large response"))))
    as (e & H1 & H2 & _); [reflexivity | reflexivity | reflexivity |].
  exists e. auto.
Defined.

(** C9. The bound is strict. A response whose declared Content-Length is
    exactly the configured maximum is returned by [Fetch]; so is a response
    that declares none (-1), for every maximum that is a size, that is, not
    negative. *)
Theorem Fetch_size_bound_strict f rawURL resp :
  ValidateURL f rawURL = None →
  Client_Do (client f) (request_for rawURL) = ok resp →
  (ContentLength resp = maxSize f → fst (Fetch f rawURL) = ok resp) ∧
  (ContentLength resp = -1 → 0 <= maxSize f → fst (Fetch f rawURL) = ok resp).
Proof.
  intros Hv Hdo. pose proof (Fetch_valid f rawURL Hv) as H. rewrite Hdo in H.
  split.
  - intros Heq. rewrite Heq, Z.ltb_irrefl in H. now rewrite H.
  - intros Heq Hmax. replace (maxSize f <? ContentLength resp) with false in H.
    + now rewrite H.
    + symmetry. apply Z.ltb_ge. lia.
Qed.

Lemma Fetch_size_bound_strict_witness :
  fst (Fetch (NewFetcher (HandlerTest.sizedOrigin 1024) 10000000000 1024)
         "http://origin.test/exact") = ok (mkResponse 200 ∅ 1024 (ok [])) ∧
  fst (Fetch (NewFetcher (HandlerTest.sizedOrigin (-1)) 10000000000 1024)
         "http://origin.test/chunked") = ok (mkResponse 200 ∅ (-1) (ok [])).
Proof.
  split.
  - refine (proj1 (Fetch_size_bound_strict
             (NewFetcher (HandlerTest.sizedOrigin 1024) 10000000000 1024)
             "http://origin.test/exact" (mkResponse 200 ∅ 1024 (ok [])) _ _) _);
      reflexivity.
  - refine (proj2 (Fetch_size_bound_strict
             (NewFetcher (HandlerTest.sizedOrigin (-1)) 10000000000 1024)
             "http://origin.test/chunked" (mkResponse 200 ∅ (-1) (ok [])) _ _) _ _);
      [reflexivity | reflexivity | reflexivity | simpl; lia].
Defined.

(** The sizes and counts that [main] configures are positive. *)
Lemma getEnvInt_positive value dflt : 0 < dflt → 0 < config.getEnvInt value dflt.
Proof.
  intros H. unfold config.getEnvInt.
  destruct (negb _); [|assumption].
  destruct (0 <? config.digits value 0) eqn:E; [|assumption].
  now apply Z.ltb_lt in E.
Qed.

End FetcherProps.

(** *** The parser and the fetcher on examples *)

Module FetcherTests.
Import errors proxy.
Local Open Scope list_scope.

Example Parse_absolute :
  url.Parse "https://user:pw@example.com:8443/a%20b?q=1#frag" =
    ok (url.mkURL "https" "" (Some ("user", Some "pw")) "example.com:8443" "/a b"
          false false "q=1" "frag").
Proof. reflexivity. Qed.

Example Parse_opaque :
  url.Parse "javascript:alert(1)" =
    ok (url.mkURL "javascript" "alert(1)" None "" "" false false "" "").
Proof. reflexivity. Qed.

Example Parse_bare_host :
  url.Parse "example.com" = ok (url.mkURL "" "" None "" "example.com" false false "" "").
Proof. reflexivity. Qed.

Example Parse_errors :
  (∃ e, url.Parse "http://exa mple.com" = err e) ∧
  (∃ e, url.Parse "http://[::1" = err e) ∧
  (∃ e, url.Parse "http://example.com:port" = err e) ∧
  (∃ e, url.Parse "http://example.com/%zz" = err e) ∧
  (∃ e, url.Parse ("http://example.com/" ++ String "010" "") = err e) ∧
  (∃ e, url.Parse "1http://example.com" = err e).
Proof. repeat split; eexists; reflexivity. Qed.

(** The scheme is compared as the parser reports it, in lower case; a
    URL with a scheme but no host is not valid. *)
Example ValidateURL_more (f : Fetcher) :
  ValidateURL f "HTTP://example.com" = None ∧
  ValidateURL f "http://" = Some ErrInvalidURL ∧
  ValidateURL f "http:///path" = Some ErrInvalidURL ∧
  ValidateURL f "https:example.com" = Some ErrInvalidURL ∧
  ValidateURL f "//example.com/path" = Some ErrInvalidScheme ∧
  ValidateURL f "file:///etc/passwd" = Some ErrInvalidScheme ∧
  (∃ msg, ValidateURL f "http://exa mple.com" = Some (wrapError msg ErrInvalidURL)).
Proof. repeat split. eexists. reflexivity. Qed.

(** [TestFetcher_FetchesURL]. *)
Example fetches_url :
  Fetch (NewFetcher HandlerTest.helloOrigin 10000000000 10485760) "http://origin.test" =
    (ok (mkResponse 200 {["Content-Type" := "application/json"]} (-1)
           (ok (bytes.of_string (text.dq "{'message':'hello'}")))),
     [EvDo (request_for "http://origin.test")]).
Proof. reflexivity. Qed.

(** [TestFetcher_RejectsTooLargeResponse], with the text of the error. *)
Example rejects_too_large_response :
  fst (Fetch (NewFetcher HandlerTest.largeOrigin 10000000000 1024) "http://origin.test") =
    err (wrapError "response exceeds maximum allowed size: 999999999 bytes (max 1024)"
           ErrResponseTooBig).
Proof. reflexivity. Qed.

(** The configuration readers of [main] keep the digits of the value. *)
Example getEnvInt_cases :
  config.getEnvInt "" 200 = 200 ∧ config.getEnvInt "50" 200 = 50 ∧
  config.getEnvInt "0" 200 = 200 ∧ config.getEnvInt "-5" 200 = 5 ∧
  config.getEnvInt "1e3" 200 = 13.
Proof. repeat split. Qed.

End FetcherTests.
(** ** The fetcher: what passes validation, what a fetch returns *)

Module FetcherExtras.
Import errors text gostrings StringProps UrlProps proxy.

Lemma Parse_with_host rawURL u :
  url.Parse rawURL = ok u → url.Scheme u ≠ "" → url.Host u ≠ "" →
  ∃ s rest, rawURL = s ++ "://" ++ rest ∧ url.Scheme u = ToLower s.
Proof.
  unfold url.Parse. destruct (Cut_prefix rawURL "#") as [tl Hraw].
  destruct (Cut rawURL "#") as [[u0 frag] found]. simpl in Hraw.
  destruct (url.parse u0) as [u1|e] eqn:Ep; [|discriminate].
  assert (Hshape : url.Scheme u1 ≠ "" → url.Host u1 ≠ "" →
                   ∃ s rest, rawURL = s ++ "://" ++ rest ∧ url.Scheme u1 = ToLower s).
  { intros Hs Hh. destruct (parse_with_host u0 u1 Ep Hs Hh) as (s & rest & -> & E).
    exists s, (rest ++ tl). split; [|exact E].
    rewrite Hraw, !append_assoc. reflexivity. }
  destruct (String.eqb frag ""); [intros [= <-]; exact Hshape|].
  destruct (url.unescape frag url.encodeFragment) as [fragment|e]; [|discriminate].
  intros [= <-]. exact Hshape.
Qed.

(** X7. Every URL that passes validation reads [scheme://...], where the
    scheme is [http] or [https] in any mix of upper and lower case. *)
Theorem ValidateURL_shape (f : Fetcher) (rawURL : string) :
  ValidateURL f rawURL = None →
  ∃ scheme rest, rawURL = scheme ++ "://" ++ rest ∧
    (ToLower scheme = "http" ∨ ToLower scheme = "https").
Proof.
  intros H.
  destruct (FetcherProps.ValidateURL_cases f rawURL)
    as [[_ H']|[(_ & e & _ & H')|[(_ & u & _ & _ & _ & H')|
        [(_ & u & _ & _ & _ & H')|(_ & u & Hp & Hs & Hh & _)]]]];
    try (rewrite H' in H; discriminate).
  destruct (Parse_with_host rawURL u Hp) as (s & rest & Hraw & E).
  - destruct Hs as [-> | ->]; discriminate.
  - exact Hh.
  - exists s, rest. split; [exact Hraw|]. rewrite <- E. exact Hs.
Qed.

Lemma ValidateURL_shape_witness :
  ∃ scheme rest, "HTTPS://example.com/a?b#c" = scheme ++ "://" ++ rest ∧
    (ToLower scheme = "http" ∨ ToLower scheme = "https").
Proof.
  apply (ValidateURL_shape (NewFetcher HandlerTest.helloOrigin 10000000000 10485760)).
  reflexivity.
Defined.

(** X8. A response that [Fetch] returns is the answer to the one request
    it has sent, a GET for the URL as given that names the proxy as user
    agent; the URL has passed validation, the length the response declares
    is at most the maximum, and its body has been neither read nor
    closed. *)
Theorem Fetch_returns f rawURL resp :
  fst (Fetch f rawURL) = ok resp →
  ValidateURL f rawURL = None ∧
  ContentLength resp <= maxSize f ∧
  ∃ req, Client_Do (client f) req = ok resp ∧
         snd (Fetch f rawURL) = [EvDo req] ∧
         out_Method req = "GET" ∧ out_URL req = rawURL ∧
         out_Header req !! "User-Agent" = Some "ProxyHarold/1.0" ∧
         out_Header req !! "Accept" = Some "*/*".
Proof.
  intros H. destruct (ValidateURL f rawURL) as [e|] eqn:Ev.
  { unfold Fetch in H. rewrite Ev in H. discriminate. }
  pose proof (FetcherProps.Fetch_valid f rawURL Ev) as HF.
  split; [reflexivity|].
  destruct (Client_Do (client f) (request_for rawURL)) as [resp'|e] eqn:Ed.
  - destruct (maxSize f <? ContentLength resp') eqn:Hsz.
    + destruct HF as [msg HF]. rewrite HF in H. discriminate.
    + rewrite HF in H |- *. injection H as <-. apply Z.ltb_ge in Hsz.
      split; [exact Hsz|]. exists (request_for rawURL).
      split; [exact Ed|]. repeat split.
  - rewrite HF in H. discriminate.
Qed.

Lemma Fetch_returns_witness :
  let f := NewFetcher HandlerTest.helloOrigin 10000000000 10485760 in
  ValidateURL f "http://origin.test/hello" = None ∧
  snd (Fetch f "http://origin.test/hello") = [EvDo (request_for "http://origin.test/hello")].
Proof.
  intros f.
  destruct (Fetch_returns f "http://origin.test/hello"
              (mkResponse 200 {["Content-Type" := "application/json"]} (-1)
                 (ok (bytes.of_string (text.dq "{'message':'hello'}")))) eq_refl)
    as (Hv & _ & req & _ & Hev & _).
  split; [exact Hv | reflexivity].
Defined.

End FetcherExtras.

(** ** Bytes, bits and UTF-8 *)

Module BitProps.

(** Bits that do not overlap add up. *)
Lemma lor_add (a b k : Z) :
  0 <= k → 0 <= b < 2 ^ k → a mod 2 ^ k = 0 → Z.lor a b = a + b.
Proof.
  intros Hk Hb Ha.
  rewrite <- Z.lxor_lor; [symmetry; apply Z.add_nocarry_lxor|];
    (apply Z.bits_inj'; intros i Hi; rewrite Z.land_spec, Z.bits_0;
     destruct (Z.lt_ge_cases i k) as [Hlt|Hge];
     [ rewrite <- (Z.mod_pow2_bits_low a k i) by lia; rewrite Ha, Z.bits_0; reflexivity
     | rewrite <- (Z.mod_small b (2 ^ k)) by lia;
       rewrite (Z.mod_pow2_bits_high b k i) by lia; apply Bool.andb_false_r ]).
Qed.

Lemma Z_of_byte_range c : 0 <= utf8.Z_of_byte c < 256.
Proof.
  unfold utf8.Z_of_byte. pose proof (N_ascii_bounded c). lia.
Qed.

Lemma byte_of_Z_of_byte c : utf8.byte_of_Z (utf8.Z_of_byte c) = c.
Proof.
  unfold utf8.byte_of_Z. rewrite Z.mod_small by apply Z_of_byte_range.
  unfold utf8.Z_of_byte. rewrite N2Z.id. apply ascii_N_embedding.
Qed.

Lemma Z_of_byte_of_Z z : 0 <= z < 256 → utf8.Z_of_byte (utf8.byte_of_Z z) = z.
Proof.
  intros H. unfold utf8.byte_of_Z, utf8.Z_of_byte.
  rewrite Z.mod_small by lia. rewrite N_ascii_embedding; lia.
Qed.

Lemma to_Z_range x : 0 <= bytes.to_Z x < 256.
Proof.
  unfold bytes.to_Z. pose proof (Byte.to_N_bounded x). lia.
Qed.

Lemma of_to_Z x : bytes.of_Z (bytes.to_Z x) = x.
Proof. destruct x; reflexivity. Qed.

(** A property of the integers below [n], checked one by one. *)
Lemma forallb_below (f : Z → bool) (n : nat) :
  forallb f (map Z.of_nat (seq 0 n)) = true →
  ∀ i, 0 <= i < Z.of_nat n → f i = true.
Proof.
  intros H i Hi. rewrite forallb_forall in H. apply H.
  apply in_map_iff. exists (Z.to_nat i). split; [lia|].
  apply in_seq. lia.
Qed.

(** A property of all characters, checked one by one. *)
Lemma forallb_ascii (f : ascii → bool) :
  forallb (λ i, f (utf8.byte_of_Z i)) (map Z.of_nat (seq 0 256)) = true →
  ∀ c, f c = true.
Proof.
  intros H c. rewrite <- (byte_of_Z_of_byte c).
  apply (forallb_below _ 256 H). apply Z_of_byte_range.
Qed.

End BitProps.

Module Utf8Props.
Import utf8 BitProps.

(** Closed powers of two, computed. *)
Ltac pow2 :=
  repeat match goal with
         | |- context [2 ^ ?n] =>
           let v := eval vm_compute in (2 ^ n) in
           progress change (2 ^ n) with v
         end.

(** Shifts and masks, as products, quotients and remainders. *)
Ltac to_arith :=
  rewrite ?Z.shiftl_mul_pow2, ?Z.shiftr_div_pow2 by lia;
  change 0x3F with (Z.ones 6); change 0x1F with (Z.ones 5);
  change 0x0F with (Z.ones 4); change 0x07 with (Z.ones 3);
  rewrite ?Z.land_ones by lia; pow2.

Ltac dm := Z.div_mod_to_equations; lia.

Lemma uint32_small r : 0 <= r < 2 ^ 32 → uint32 r = r.
Proof. intros H. unfold uint32. now apply Z.mod_small. Qed.

(** The value of a two-byte sequence, as a sum. *)
Lemma rune2_value p0 b1 :
  Z.lor (Z.shiftl (Z.land p0 0x1F) 6) (Z.land b1 0x3F) = p0 mod 32 * 64 + b1 mod 64.
Proof.
  to_arith. apply (lor_add _ _ 6); [lia | dm | apply (Z.mod_mul _ 64); lia].
Qed.

Lemma rune3_value p0 b1 b2 :
  Z.lor (Z.lor (Z.shiftl (Z.land p0 0x0F) 12) (Z.shiftl (Z.land b1 0x3F) 6))
        (Z.land b2 0x3F)
  = p0 mod 16 * 4096 + b1 mod 64 * 64 + b2 mod 64.
Proof.
  to_arith.
  rewrite (lor_add (p0 mod 16 * 4096) _ 12); [| lia | dm |].
  - rewrite (lor_add _ _ 6); [lia | lia | dm |].
    replace (p0 mod 16 * 4096 + b1 mod 64 * 64)
      with ((p0 mod 16 * 64 + b1 mod 64) * 2 ^ 6) by lia.
    apply Z.mod_mul. lia.
  - apply (Z.mod_mul _ 4096). lia.
Qed.

Lemma rune4_value p0 b1 b2 b3 :
  Z.lor (Z.lor (Z.lor (Z.shiftl (Z.land p0 0x07) 18) (Z.shiftl (Z.land b1 0x3F) 12))
               (Z.shiftl (Z.land b2 0x3F) 6))
        (Z.land b3 0x3F)
  = p0 mod 8 * 262144 + b1 mod 64 * 4096 + b2 mod 64 * 64 + b3 mod 64.
Proof.
  to_arith.
  rewrite (lor_add (p0 mod 8 * 262144) _ 18); [| lia | dm |].
  - rewrite (lor_add _ (b2 mod 64 * 64) 12); [| lia | dm |].
    + rewrite (lor_add _ _ 6); [lia | lia | dm |].
      replace (p0 mod 8 * 262144 + b1 mod 64 * 4096 + b2 mod 64 * 64)
        with ((p0 mod 8 * 4096 + b1 mod 64 * 64 + b2 mod 64) * 2 ^ 6) by lia.
      apply Z.mod_mul. lia.
    + replace (p0 mod 8 * 262144 + b1 mod 64 * 4096)
        with ((p0 mod 8 * 64 + b1 mod 64) * 2 ^ 12) by lia.
      apply Z.mod_mul. lia.
  - apply (Z.mod_mul _ 262144). lia.
Qed.

(** A leading byte and a payload: [Z.lor lead x] for the patterns of
    UTF-8. *)
Lemma lead_byte lead k x :
  0 <= k → 0 <= x < 2 ^ k → lead mod 2 ^ k = 0 → Z.lor lead x = lead + x.
Proof. intros. now apply (lor_add lead x k). Qed.

Lemma cont_byte r : Z.lor 0x80 (Z.land r 0x3F) = 128 + r mod 64.
Proof.
  to_arith. apply (lor_add 128 _ 6); [lia | dm | reflexivity].
Qed.

(** Encoding the rune of a well-formed two-byte sequence gives the
    sequence back. *)
Lemma encode_rune2 p0 b1 :
  0xC2 <= p0 <= 0xDF → 0x80 <= b1 <= 0xBF →
  EncodeRune (Z.lor (Z.shiftl (Z.land p0 0x1F) 6) (Z.land b1 0x3F)) =
    str [byte_of_Z p0; byte_of_Z b1].
Proof.
  intros H0 H1. rewrite rune2_value.
  set (r := p0 mod 32 * 64 + b1 mod 64).
  assert (Hr : 0x80 <= r <= 0x7FF) by (unfold r; dm).
  unfold EncodeRune. rewrite uint32_small by lia.
  destruct (Z.leb_spec r 0x7F); [lia|].
  destruct (Z.leb_spec r 0x7FF); [|lia].
  rewrite cont_byte, Z.shiftr_div_pow2 by lia. pow2.
  rewrite (lead_byte 0xC0 5); [| lia | dm | reflexivity].
  repeat f_equal; unfold r; dm.
Qed.

Lemma encode_rune3 p0 b1 b2 :
  0xE0 <= p0 <= 0xEF → 0x80 <= b1 <= 0xBF → 0x80 <= b2 <= 0xBF →
  (p0 = 0xE0 → 0xA0 <= b1) → (p0 = 0xED → b1 <= 0x9F) →
  EncodeRune (Z.lor (Z.lor (Z.shiftl (Z.land p0 0x0F) 12) (Z.shiftl (Z.land b1 0x3F) 6))
                    (Z.land b2 0x3F)) =
    str [byte_of_Z p0; byte_of_Z b1; byte_of_Z b2].
Proof.
  intros H0 H1 H2 Hlo Hhi. rewrite rune3_value.
  set (r := p0 mod 16 * 4096 + b1 mod 64 * 64 + b2 mod 64).
  assert (Hr : 0x800 <= r <= 0xFFFF) by (unfold r; dm).
  assert (Hs : ¬ (0xD800 <= r <= 0xDFFF)) by (unfold r; dm).
  unfold EncodeRune. rewrite uint32_small by lia.
  destruct (Z.leb_spec r 0x7F); [lia|].
  destruct (Z.leb_spec r 0x7FF); [lia|].
  unfold MaxRune, surrogateMin, surrogateMax.
  destruct (Z.ltb_spec 0x10FFFF r); [lia|].
  destruct (Z.leb_spec 0xD800 r); destruct (Z.leb_spec r 0xDFFF); try lia; simpl;
    (destruct (Z.leb_spec r 0xFFFF); [|lia]);
    rewrite !cont_byte, !Z.shiftr_div_pow2 by lia; pow2;
    (rewrite (lead_byte 0xE0 4); [| lia | dm | reflexivity]);
    repeat f_equal; unfold r; dm.
Qed.

Lemma encode_rune4 p0 b1 b2 b3 :
  0xF0 <= p0 <= 0xF4 → 0x80 <= b1 <= 0xBF → 0x80 <= b2 <= 0xBF → 0x80 <= b3 <= 0xBF →
  (p0 = 0xF0 → 0x90 <= b1) → (p0 = 0xF4 → b1 <= 0x8F) →
  EncodeRune
    (Z.lor (Z.lor (Z.lor (Z.shiftl (Z.land p0 0x07) 18) (Z.shiftl (Z.land b1 0x3F) 12))
                  (Z.shiftl (Z.land b2 0x3F) 6))
           (Z.land b3 0x3F)) =
    str [byte_of_Z p0; byte_of_Z b1; byte_of_Z b2; byte_of_Z b3].
Proof.
  intros H0 H1 H2 H3 Hlo Hhi. rewrite rune4_value.
  set (r := p0 mod 8 * 262144 + b1 mod 64 * 4096 + b2 mod 64 * 64 + b3 mod 64).
  assert (Hr : 0x10000 <= r <= 0x10FFFF) by (unfold r; dm).
  unfold EncodeRune. rewrite uint32_small by lia.
  destruct (Z.leb_spec r 0x7F); [lia|].
  destruct (Z.leb_spec r 0x7FF); [lia|].
  unfold MaxRune, surrogateMin, surrogateMax.
  destruct (Z.ltb_spec 0x10FFFF r); [lia|].
  destruct (Z.leb_spec 0xD800 r); [|lia]. destruct (Z.leb_spec r 0xDFFF); [lia|]. simpl.
  destruct (Z.leb_spec r 0xFFFF); [lia|].
  rewrite !cont_byte, !Z.shiftr_div_pow2 by lia. pow2.
  rewrite (lead_byte 0xF0 4); [| lia | dm | reflexivity].
  repeat f_equal; unfold r; dm.
Qed.

End Utf8Props.

Module DecodeProps.
Import utf8 BitProps Utf8Props.

(** The classes of lead bytes. *)
Lemma first_cases p0 :
  0x80 <= p0 < 256 →
  (first p0 = xx) ∨
  (first p0 = 0x02 ∧ 0xC2 <= p0 <= 0xDF) ∨
  (first p0 = 0x13 ∧ p0 = 0xE0) ∨
  (first p0 = 0x03 ∧ 0xE1 <= p0 <= 0xEF ∧ p0 ≠ 0xED) ∨
  (first p0 = 0x23 ∧ p0 = 0xED) ∨
  (first p0 = 0x34 ∧ p0 = 0xF0) ∨
  (first p0 = 0x04 ∧ 0xF1 <= p0 <= 0xF3) ∨
  (first p0 = 0x44 ∧ p0 = 0xF4).
Proof.
  intros H. unfold first.
  repeat match goal with
         | |- context [if ?a <? ?b then _ else _] => destruct (Z.ltb_spec a b); try lia
         | |- context [if ?a <=? ?b then _ else _] => destruct (Z.leb_spec a b); try lia
         | |- context [if ?a =? ?b then _ else _] => destruct (Z.eqb_spec a b); try lia
         end; auto 10 with lia.
Qed.

Lemma outside_false lo x hi : outside lo x hi = false → lo <= x <= hi.
Proof.
  unfold outside. intros H. apply Bool.orb_false_iff in H as [H1 H2].
  apply Z.ltb_ge in H1, H2. lia.
Qed.

(** The second byte is checked against the range of the lead byte, the
    others against the range of continuation bytes. *)
Ltac in_range c1 O :=
  match goal with
  | |- context [outside ?lo (Z_of_byte c1) ?hi] =>
    destruct (outside lo (Z_of_byte c1) hi) eqn:O;
    [now left | pose proof (outside_false _ _ _ O); unfold locb, hicb in *]
  end.

Ltac three_bytes c rest :=
  let c1 := fresh "c1" in let c2 := fresh "c2" in let t := fresh "t" in
  let O1 := fresh "O1" in let O2 := fresh "O2" in
  destruct rest as [|c1 [|c2 t]]; [now left | now left |];
  in_range c1 O1;
  rewrite ?Bool.orb_false_l;
  in_range c2 O2;
  right; right; left; eexists _, c1, c2, t;
  (split; [reflexivity|]);
  (split; [|intros ?; unfold locb, hicb; rewrite O1, O2; reflexivity]);
  rewrite encode_rune3 by lia; now rewrite !byte_of_Z_of_byte.

Ltac four_bytes c rest :=
  let c1 := fresh "c1" in let c2 := fresh "c2" in let c3 := fresh "c3" in
  let t := fresh "t" in
  let O1 := fresh "O1" in let O2 := fresh "O2" in let O3 := fresh "O3" in
  destruct rest as [|c1 [|c2 [|c3 t]]]; [now left | now left | now left |];
  in_range c1 O1;
  rewrite ?Bool.orb_false_l;
  in_range c2 O2;
  rewrite ?Bool.orb_false_l;
  in_range c3 O3;
  right; right; right; eexists _, c1, c2, c3, t;
  (split; [reflexivity|]);
  (split; [|intros ?; unfold locb, hicb; rewrite O1, O2, O3; reflexivity]);
  rewrite encode_rune4 by lia; now rewrite !byte_of_Z_of_byte.

(** What [DecodeRuneInString] finds at a byte that is not ASCII: no
    encoding, or a well-formed sequence of two, three or four bytes, which
    is the encoding of the rune it returns and is all it has looked at. *)
Lemma DecodeRune_cases (c : ascii) (rest : string) :
  0x80 <= Z_of_byte c →
  DecodeRuneInString (String c rest) = (RuneError, 1%nat) ∨
  (∃ r c1 t, rest = String c1 t ∧ EncodeRune r = str [c; c1] ∧
     ∀ X, DecodeRuneInString (String c (String c1 X)) = (r, 2%nat)) ∨
  (∃ r c1 c2 t, rest = String c1 (String c2 t) ∧ EncodeRune r = str [c; c1; c2] ∧
     ∀ X, DecodeRuneInString (String c (String c1 (String c2 X))) = (r, 3%nat)) ∨
  (∃ r c1 c2 c3 t, rest = String c1 (String c2 (String c3 t)) ∧
     EncodeRune r = str [c; c1; c2; c3] ∧
     ∀ X, DecodeRuneInString (String c (String c1 (String c2 (String c3 X)))) = (r, 4%nat)).
Proof.
  intros Hc. pose proof (Z_of_byte_range c) as Hp.
  unfold DecodeRuneInString.
  destruct (first_cases (Z_of_byte c) ltac:(lia))
    as [E|[[E H]|[[E H]|[[E H]|[[E H]|[[E H]|[[E H]|[E H]]]]]]]]; rewrite E;
    [left; reflexivity | simpl ..].
  - (* two bytes *)
    destruct rest as [|c1 t]; [now left|].
    destruct (outside locb (Z_of_byte c1) hicb) eqn:O1; [now left|].
    right; left. eexists _, c1, t. split; [reflexivity|].
    split; [|intros ?; rewrite O1; reflexivity].
    apply outside_false in O1. unfold locb, hicb in O1.
    rewrite encode_rune2 by lia. now rewrite !byte_of_Z_of_byte.
  - three_bytes c rest.
  - three_bytes c rest.
  - three_bytes c rest.
  - four_bytes c rest.
  - four_bytes c rest.
  - four_bytes c rest.
Qed.

End DecodeProps.

(** ** The JSON text of a cached response *)

Module JsonProps.
Import errors utf8 BitProps DecodeProps json JsonSpec.

Lemma app_nil_l (s : string) : "" ++ s = s.
Proof. reflexivity. Qed.

Lemma app_cons (c : ascii) (s t : string) : String c s ++ t = String c (s ++ t).
Proof. reflexivity. Qed.

(** Move a known prefix out of an append. *)
Ltac norm_app := rewrite ?app_cons, ?app_nil_l.

Lemma string_app_assoc (x y z : string) : (x ++ y) ++ z = x ++ (y ++ z).
Proof. induction x as [|c x IH]; norm_app; congruence. Qed.

(** A character of [htmlSafeSet] is no quote, no backslash and no control
    character. *)
Lemma htmlSafe_plain c :
  htmlSafeSet c = true →
  Ascii.eqb c text.dquote = false ∧ Ascii.eqb c "\" = false ∧
  (text.b c <? 32) = false ∧ (text.b c <? 0x80) = true.
Proof.
  revert c. 
  assert (H : ∀ c, (negb (htmlSafeSet c) ||
                    (negb (Ascii.eqb c text.dquote) && negb (Ascii.eqb c "\") &&
                     negb (text.b c <? 32) && (text.b c <? 0x80))) = true).
  { apply forallb_ascii. vm_compute. reflexivity. }
  intros c Hc. specialize (H c). rewrite Hc in H. simpl in H.
  repeat (apply andb_prop in H as [H ?]).
  repeat match goal with
         | H : negb _ = true |- _ => apply Bool.negb_true_iff in H
         end.
  auto.
Qed.

(** A byte outside ASCII is no quote, no backslash and no control
    character either. *)
Lemma high_plain c :
  (text.b c <? 0x80) = false →
  Ascii.eqb c text.dquote = false ∧ Ascii.eqb c "\" = false ∧ (text.b c <? 32) = false.
Proof.
  revert c.
  assert (H : ∀ c, ((text.b c <? 0x80) ||
                    (negb (Ascii.eqb c text.dquote) && negb (Ascii.eqb c "\") &&
                     negb (text.b c <? 32))) = true).
  { apply forallb_ascii. vm_compute. reflexivity. }
  intros c Hc. specialize (H c). rewrite Hc in H. simpl in H.
  repeat (apply andb_prop in H as [H ?]).
  repeat match goal with
         | H : negb _ = true |- _ => apply Bool.negb_true_iff in H
         end.
  auto.
Qed.

(** Reading a character that is carried as it is. *)
Lemma unquote_plain c rest :
  htmlSafeSet c = true →
  unquote (String c rest) = ('(t, tl) ← unquote rest; ok (String c t, tl)).
Proof.
  intros H. destruct (htmlSafe_plain c H) as (H1 & H2 & H3 & H4).
  simpl. now rewrite H1, H2, H3, H4.
Qed.

(** Reading the escape of an ASCII character. *)
Lemma unquote_escape_ascii c rest :
  (text.b c <? 0x80) = true → htmlSafeSet c = false →
  unquote (escape_ascii c ++ rest) = ('(t, tl) ← unquote rest; ok (String c t, tl)).
Proof.
  intros H1 H2.
  destruct c as [[] [] [] [] [] [] [] []];
    try (vm_compute in H1; discriminate); try (vm_compute in H2; discriminate);
    reflexivity.
Qed.

Lemma escape_cons c rest :
  escape (String c rest) =
    if text.b c <? 0x80 then
      if htmlSafeSet c then String c (escape rest)
      else escape_ascii c ++ escape rest
    else
      let '(r, size) := DecodeRuneInString (String c rest) in
      if (r =? RuneError) && (size =? 1)%nat then "\ufffd" ++ escape rest
      else
        match size, rest with
        | 2%nat, String c1 t =>
          String c (String c1 (escape t))
        | 3%nat, String c1 (String c2 t) =>
          if (r =? 0x2028) || (r =? 0x2029)
          then "\u202" ++ String (hexdigit (Z.land r 0xF)) (escape t)
          else String c (String c1 (String c2 (escape t)))
        | 4%nat, String c1 (String c2 (String c3 t)) =>
          String c (String c1 (String c2 (String c3 (escape t))))
        | _, _ => "\ufffd" ++ escape rest
        end.
Proof. reflexivity. Qed.

Lemma coerce_cons c rest :
  coerce (String c rest) =
    if text.b c <? 0x80 then String c (coerce rest)
    else
      let '(r, size) := DecodeRuneInString (String c rest) in
      if (r =? RuneError) && (size =? 1)%nat
      then EncodeRune RuneError ++ coerce rest
      else
        match size, rest with
        | 2%nat, String c1 t => String c (String c1 (coerce t))
        | 3%nat, String c1 (String c2 t) => String c (String c1 (String c2 (coerce t)))
        | 4%nat, String c1 (String c2 (String c3 t)) =>
          String c (String c1 (String c2 (String c3 (coerce t))))
        | _, _ => EncodeRune RuneError ++ coerce rest
        end.
Proof. reflexivity. Qed.

(** Reading a byte outside ASCII: the rune found there, re-encoded. *)
Lemma unquote_high c rest :
  (text.b c <? 0x80) = false →
  unquote (String c rest) =
    let '(rr, size) := DecodeRuneInString (String c rest) in
    match size, rest with
    | 2%nat, String _ t' =>
      '(t, tl) ← unquote t'; ok (EncodeRune rr ++ t, tl)
    | 3%nat, String _ (String _ t') =>
      '(t, tl) ← unquote t'; ok (EncodeRune rr ++ t, tl)
    | 4%nat, String _ (String _ (String _ t')) =>
      '(t, tl) ← unquote t'; ok (EncodeRune rr ++ t, tl)
    | _, _ =>
      '(t, tl) ← unquote rest; ok (EncodeRune rr ++ t, tl)
    end.
Proof.
  intros H. destruct (high_plain c H) as (H1 & H2 & H3).
  change (unquote (String c rest)) with
    (if Ascii.eqb c text.dquote then ok ("", rest)
     else if Ascii.eqb c "\" then
       match rest with
       | "" => err (SyntaxError "unexpected end of JSON input")
       | String e rest1 => unquote (String "\" (String e rest1))
       end
     else if text.b c <? 32 then err (SyntaxError "invalid character in string literal")
     else if text.b c <? 0x80 then
       '(t, tl) ← unquote rest; ok (String c t, tl)
     else
       let '(rr, size) := DecodeRuneInString (String c rest) in
       match size, rest with
       | 2%nat, String _ t' =>
         '(t, tl) ← unquote t'; ok (EncodeRune rr ++ t, tl)
       | 3%nat, String _ (String _ t') =>
         '(t, tl) ← unquote t'; ok (EncodeRune rr ++ t, tl)
       | 4%nat, String _ (String _ (String _ t')) =>
         '(t, tl) ← unquote t'; ok (EncodeRune rr ++ t, tl)
       | _, _ =>
         '(t, tl) ← unquote rest; ok (EncodeRune rr ++ t, tl)
       end).
  now rewrite H1, H2, H3, H.
Qed.

Lemma bind_ok {A B} (a : A) (k : A → result B) : (ok a ≫= k) = k a.
Proof. reflexivity. Qed.

(** Reading the three escapes that [appendString] writes for runes outside
    ASCII. *)
Lemma unquote_u4_fffd X :
  unquote ("\ufffd" ++ X) = ('(t, tl) ← unquote X; ok (EncodeRune RuneError ++ t, tl)).
Proof. reflexivity. Qed.

Lemma unquote_u4_2028 X :
  unquote ("\u2028" ++ X) = ('(t, tl) ← unquote X; ok (EncodeRune 0x2028 ++ t, tl)).
Proof. reflexivity. Qed.

Lemma unquote_u4_2029 X :
  unquote ("\u2029" ++ X) = ('(t, tl) ← unquote X; ok (EncodeRune 0x2029 ++ t, tl)).
Proof. reflexivity. Qed.

(** Reading what [appendString] has written between the quotes gives the
    string back, coerced to valid UTF-8. *)
Lemma unquote_escape_bounded n : ∀ s tl,
  (String.length s <= n)%nat →
  unquote (escape s ++ String text.dquote tl) = ok (coerce s, tl).
Proof.
  induction n as [|n IH]; intros s tl Hlen.
  { destruct s; [reflexivity | simpl in Hlen; lia]. }
  destruct s as [|c rest]; [reflexivity|]. simpl in Hlen.
  rewrite escape_cons, coerce_cons.
  destruct (text.b c <? 0x80) eqn:Hascii.
  - destruct (htmlSafeSet c) eqn:Hsafe.
    + norm_app. rewrite unquote_plain by assumption.
      rewrite IH by lia. reflexivity.
    + rewrite string_app_assoc, unquote_escape_ascii by assumption.
      rewrite IH by lia. reflexivity.
  - assert (Hhigh : 0x80 <= Z_of_byte c) by (apply Z.ltb_ge in Hascii; exact Hascii).
    destruct (DecodeRune_cases c rest Hhigh)
      as [E|[(r & c1 & t & -> & Henc & Hdec)|[(r & c1 & c2 & t & -> & Henc & Hdec)|
          (r & c1 & c2 & c3 & t & -> & Henc & Hdec)]]].
    + rewrite E. simpl andb. cbv iota.
      rewrite string_app_assoc, unquote_u4_fffd, IH by lia. reflexivity.
    + rewrite (Hdec t). simpl in Hlen.
      replace ((r =? RuneError) && (2 =? 1)%nat) with false by now rewrite Bool.andb_false_r.
      norm_app. rewrite unquote_high by assumption. rewrite Hdec.
      rewrite IH by lia. rewrite bind_ok. cbv beta iota. rewrite Henc. reflexivity.
    + rewrite (Hdec t). simpl in Hlen.
      replace ((r =? RuneError) && (3 =? 1)%nat) with false by now rewrite Bool.andb_false_r.
      destruct ((r =? 0x2028) || (r =? 0x2029)) eqn:Hsep.
      * apply Bool.orb_true_iff in Hsep as [Hr|Hr]; apply Z.eqb_eq in Hr; subst r.
        -- change ("\u202" ++ String (hexdigit (Z.land 0x2028 0xF)) (escape t))
             with ("\u2028" ++ escape t).
           rewrite string_app_assoc, unquote_u4_2028, IH by lia.
           rewrite bind_ok. cbv beta iota. rewrite Henc. reflexivity.
        -- change ("\u202" ++ String (hexdigit (Z.land 0x2029 0xF)) (escape t))
             with ("\u2029" ++ escape t).
           rewrite string_app_assoc, unquote_u4_2029, IH by lia.
           rewrite bind_ok. cbv beta iota. rewrite Henc. reflexivity.
      * norm_app. rewrite unquote_high by assumption. rewrite Hdec.
        rewrite IH by lia. rewrite bind_ok. cbv beta iota. rewrite Henc. reflexivity.
    + rewrite (Hdec t). simpl in Hlen.
      replace ((r =? RuneError) && (4 =? 1)%nat) with false by now rewrite Bool.andb_false_r.
      norm_app. rewrite unquote_high by assumption. rewrite Hdec.
      rewrite IH by lia. rewrite bind_ok. cbv beta iota. rewrite Henc. reflexivity.
Qed.

Lemma unquote_escape s tl :
  unquote (escape s ++ String text.dquote tl) = ok (coerce s, tl).
Proof. apply (unquote_escape_bounded (String.length s)). lia. Qed.

End JsonProps.

Module CodecProps.
Import errors utf8 BitProps DecodeProps json JsonSpec JsonProps.
Local Open Scope list_scope.

Lemma ValidString_cons c rest :
  ValidString (String c rest) =
    if Z_of_byte c <? 0x80 then ValidString rest
    else
      let '(r, size) := DecodeRuneInString (String c rest) in
      if (r =? RuneError) && (size =? 1)%nat then false
      else
        match size, rest with
        | 2%nat, String _ t' => ValidString t'
        | 3%nat, String _ (String _ t') => ValidString t'
        | 4%nat, String _ (String _ (String _ t')) => ValidString t'
        | _, _ => false
        end.
Proof. reflexivity. Qed.

Lemma coerce_valid_bounded n : ∀ s,
  (String.length s <= n)%nat → ValidString s = true → coerce s = s.
Proof.
  induction n as [|n IH]; intros s Hlen Hv.
  { destruct s; [reflexivity | simpl in Hlen; lia]. }
  destruct s as [|c rest]; [reflexivity|]. simpl in Hlen.
  rewrite ValidString_cons in Hv. rewrite coerce_cons. unfold text.b.
  destruct (Z_of_byte c <? 0x80) eqn:Hascii.
  - now rewrite IH by (assumption || lia).
  - assert (Hhigh : 0x80 <= Z_of_byte c) by (apply Z.ltb_ge in Hascii; exact Hascii).
    destruct (DecodeRune_cases c rest Hhigh)
      as [E|[(r & c1 & t & -> & _ & Hdec)|[(r & c1 & c2 & t & -> & _ & Hdec)|
          (r & c1 & c2 & c3 & t & -> & _ & Hdec)]]].
    + rewrite E in Hv. discriminate.
    + rewrite (Hdec t) in *. simpl in Hlen.
      rewrite Bool.andb_false_r in *. now rewrite IH by (assumption || lia).
    + rewrite (Hdec t) in *. simpl in Hlen.
      rewrite Bool.andb_false_r in *. now rewrite IH by (assumption || lia).
    + rewrite (Hdec t) in *. simpl in Hlen.
      rewrite Bool.andb_false_r in *. now rewrite IH by (assumption || lia).
Qed.

(** Valid UTF-8 passes through JSON unchanged. *)
Lemma coerce_valid s : ValidString s = true → coerce s = s.
Proof. apply (coerce_valid_bounded (String.length s)). lia. Qed.

(** *** Base64 *)

Lemma list_ind3 {A} (P : list A → Prop) :
  P [] → (∀ x, P [x]) → (∀ x y, P [x; y]) →
  (∀ x y z l, P l → P (x :: y :: z :: l)) → ∀ l, P l.
Proof.
  intros H0 H1 H2 H3.
  fix IH 1. intros [|x [|y [|z l]]]; [apply H0 | apply H1 | apply H2 | apply H3, IH].
Qed.

(** A character of the alphabet decodes to its index; it is no padding
    and no line break. *)
Lemma dec_enc i :
  0 <= i < 64 →
  base64.dec (base64.enc i) = Some i ∧
  Ascii.eqb (base64.enc i) "=" = false ∧
  Ascii.eqb (base64.enc i) "010" = false ∧ Ascii.eqb (base64.enc i) "013" = false ∧
  htmlSafeSet (base64.enc i) = true.
Proof.
  intros H.
  assert (Hall : ∀ i, 0 <= i < Z.of_nat 64 →
            (match base64.dec (base64.enc i) with Some j => j =? i | None => false end &&
             negb (Ascii.eqb (base64.enc i) "=") &&
             negb (Ascii.eqb (base64.enc i) "010") &&
             negb (Ascii.eqb (base64.enc i) "013") &&
             htmlSafeSet (base64.enc i)) = true).
  { apply forallb_below. vm_compute. reflexivity. }
  specialize (Hall i ltac:(lia)).
  repeat (apply andb_prop in Hall as [Hall ?]).
  repeat match goal with
         | H : negb _ = true |- _ => apply Bool.negb_true_iff in H
         end.
  destruct (base64.dec (base64.enc i)) as [j|]; [|discriminate].
  apply Z.eqb_eq in Hall. subst. auto.
Qed.

Lemma sextet_range x : 0 <= Z.land x 0x3F < 64.
Proof. change 0x3F with (Z.ones 6). rewrite Z.land_ones by lia. apply Z.mod_pos_bound. lia. Qed.

Import Utf8Props.

(** The 24 bits of a group of three bytes, as a sum. *)
Lemma group_value a b c :
  0 <= a < 256 → 0 <= b < 256 → 0 <= c < 256 →
  Z.lor (Z.lor (Z.shiftl a 16) (Z.shiftl b 8)) c = a * 65536 + b * 256 + c.
Proof.
  intros. rewrite !Z.shiftl_mul_pow2 by lia. pow2.
  rewrite (lor_add (a * 65536) (b * 256) 16); [| lia | lia | apply (Z.mod_mul _ 65536); lia].
  rewrite (lor_add _ c 8); [lia | lia | lia |].
  replace (a * 65536 + b * 256) with ((a * 256 + b) * 2 ^ 8) by lia.
  apply Z.mod_mul. lia.
Qed.

(** The four characters of a group decode to its three bytes. *)
Lemma group_bytes a b c :
  0 <= a < 256 → 0 <= b < 256 → 0 <= c < 256 →
  let val := Z.lor (Z.lor (Z.shiftl a 16) (Z.shiftl b 8)) c in
  let v1 := Z.land (Z.shiftr val 18) 0x3F in
  let v2 := Z.land (Z.shiftr val 12) 0x3F in
  let v3 := Z.land (Z.shiftr val 6) 0x3F in
  let v4 := Z.land val 0x3F in
  (Z.lor (Z.shiftl v1 2) (Z.shiftr v2 4)) mod 256 = a ∧
  (Z.lor (Z.shiftl v2 4) (Z.shiftr v3 2)) mod 256 = b ∧
  (Z.lor (Z.shiftl v3 6) v4) mod 256 = c.
Proof.
  intros Ha Hb Hc. cbv zeta. rewrite (group_value a b c Ha Hb Hc).
  to_arith.
  set (val := a * 65536 + b * 256 + c).
  assert (0 <= val < 16777216) by (unfold val; lia).
  repeat split.
  - rewrite (lor_add _ _ 2); [| lia | dm | apply (Z.mod_mul _ 4); lia].
    unfold val; dm.
  - rewrite (lor_add _ _ 4); [| lia | dm | apply (Z.mod_mul _ 16); lia].
    unfold val; dm.
  - rewrite (lor_add _ _ 6); [| lia | dm | apply (Z.mod_mul _ 64); lia].
    unfold val; dm.
Qed.

Lemma of_Z_eq z x : z mod 256 = bytes.to_Z x → bytes.of_Z z = x.
Proof.
  intros H. rewrite <- (of_to_Z x). unfold bytes.of_Z, byte_of_Z.
  rewrite <- H, Z.mod_mod by lia. reflexivity.
Qed.

Lemma Encode_group x y z l :
  base64.Encode (x :: y :: z :: l) =
    let val := Z.lor (Z.lor (Z.shiftl (bytes.to_Z x) 16) (Z.shiftl (bytes.to_Z y) 8))
                     (bytes.to_Z z) in
    String (base64.enc (Z.land (Z.shiftr val 18) 0x3F))
      (String (base64.enc (Z.land (Z.shiftr val 12) 0x3F))
         (String (base64.enc (Z.land (Z.shiftr val 6) 0x3F))
            (String (base64.enc (Z.land val 0x3F)) (base64.Encode l)))).
Proof. reflexivity. Qed.

Lemma Encode_two x y :
  base64.Encode [x; y] =
    let val := Z.lor (Z.lor (Z.shiftl (bytes.to_Z x) 16) (Z.shiftl (bytes.to_Z y) 8)) 0 in
    String (base64.enc (Z.land (Z.shiftr val 18) 0x3F))
      (String (base64.enc (Z.land (Z.shiftr val 12) 0x3F))
         (String (base64.enc (Z.land (Z.shiftr val 6) 0x3F)) "=")).
Proof. cbv zeta. rewrite Z.lor_0_r. reflexivity. Qed.

Lemma Encode_one x :
  base64.Encode [x] =
    let val := Z.lor (Z.lor (Z.shiftl (bytes.to_Z x) 16) (Z.shiftl 0 8)) 0 in
    String (base64.enc (Z.land (Z.shiftr val 18) 0x3F))
      (String (base64.enc (Z.land (Z.shiftr val 12) 0x3F)) "==").
Proof. cbv zeta. rewrite Z.shiftl_0_l, !Z.lor_0_r. reflexivity. Qed.

Lemma strip_cons c s :
  base64.strip_newlines (String c s) =
    if Ascii.eqb c "010" || Ascii.eqb c "013" then base64.strip_newlines s
    else String c (base64.strip_newlines s).
Proof. reflexivity. Qed.

(** The facts of [dec_enc] about a character of a group, the character
    itself forgotten. *)
Ltac sextet :=
  match goal with
  | |- context [base64.enc (Z.land ?x 0x3F)] =>
    let c := fresh "c" in
    pose proof (dec_enc (Z.land x 0x3F) (sextet_range x)) as (? & ? & ? & ? & ?);
    set (c := base64.enc (Z.land x 0x3F)) in *; clearbody c
  end.

Lemma strip_Encode l : base64.strip_newlines (base64.Encode l) = base64.Encode l.
Proof.
  induction l as [| x | x y | x y z l IH] using list_ind3; [reflexivity | ..].
  - rewrite Encode_one. cbv zeta. do 2 sextet. rewrite !strip_cons.
    repeat match goal with H : Ascii.eqb _ _ = false |- _ => rewrite H; clear H end.
    reflexivity.
  - rewrite Encode_two. cbv zeta. do 3 sextet. rewrite !strip_cons.
    repeat match goal with H : Ascii.eqb _ _ = false |- _ => rewrite H; clear H end.
    reflexivity.
  - rewrite Encode_group. cbv zeta. do 4 sextet. rewrite !strip_cons.
    repeat match goal with H : Ascii.eqb _ _ = false |- _ => rewrite H; clear H end.
    simpl. now rewrite IH.
Qed.

Lemma decode_group c1 c2 c3 c4 rest :
  base64.decode_quanta (String c1 (String c2 (String c3 (String c4 rest)))) =
    match base64.dec c1, base64.dec c2 with
    | Some v1, Some v2 =>
      let out1 := bytes.of_Z (Z.lor (Z.shiftl v1 2) (Z.shiftr v2 4)) in
      if Ascii.eqb c3 "=" then
        if Ascii.eqb c4 "=" && String.eqb rest "" then ok [out1]
        else err base64.CorruptInputError
      else
        match base64.dec c3 with
        | Some v3 =>
          let out2 := bytes.of_Z (Z.lor (Z.shiftl v2 4) (Z.shiftr v3 2)) in
          if Ascii.eqb c4 "=" then
            if String.eqb rest "" then ok [out1; out2] else err base64.CorruptInputError
          else
            match base64.dec c4 with
            | Some v4 =>
              let out3 := bytes.of_Z (Z.lor (Z.shiftl v3 6) v4) in
              tl ← base64.decode_quanta rest; ok (out1 :: out2 :: out3 :: tl)
            | None => err base64.CorruptInputError
            end
        | None => err base64.CorruptInputError
        end
    | _, _ => err base64.CorruptInputError
    end.
Proof. reflexivity. Qed.

Ltac use_facts :=
  repeat match goal with
         | H : base64.dec _ = Some _ |- _ => rewrite H; clear H
         | H : Ascii.eqb _ _ = false |- _ => rewrite ?H; clear H
         | H : htmlSafeSet _ = true |- _ => clear H
         end.

Lemma decode_Encode l : base64.decode_quanta (base64.Encode l) = ok l.
Proof.
  induction l as [| x | x y | x y z l IH] using list_ind3; [reflexivity | ..].
  - rewrite Encode_one. cbv zeta. do 2 sextet. rewrite decode_group. use_facts.
    cbv zeta. simpl (Ascii.eqb "=" "="). simpl (_ && _). cbv iota.
    destruct (group_bytes (bytes.to_Z x) 0 0 (to_Z_range x) ltac:(lia) ltac:(lia))
      as (H1 & _ & _).
    now rewrite (of_Z_eq _ x H1).
  - rewrite Encode_two. cbv zeta. do 3 sextet. rewrite decode_group. use_facts.
    cbv zeta. simpl (Ascii.eqb "=" "="). simpl (String.eqb "" ""). cbv iota.
    destruct (group_bytes (bytes.to_Z x) (bytes.to_Z y) 0
                (to_Z_range x) (to_Z_range y) ltac:(lia)) as (H1 & H2 & _).
    now rewrite (of_Z_eq _ x H1), (of_Z_eq _ y H2).
  - rewrite Encode_group. cbv zeta. do 4 sextet. rewrite decode_group. use_facts.
    cbv zeta. rewrite IH.
    destruct (group_bytes (bytes.to_Z x) (bytes.to_Z y) (bytes.to_Z z)
                (to_Z_range x) (to_Z_range y) (to_Z_range z)) as (H1 & H2 & H3).
    now rewrite (of_Z_eq _ x H1), (of_Z_eq _ y H2), (of_Z_eq _ z H3).
Qed.

(** [DecodeString] undoes [EncodeToString]. *)
Lemma Decode_Encode l : base64.Decode (base64.Encode l) = ok l.
Proof. unfold base64.Decode. now rewrite strip_Encode, decode_Encode. Qed.

Lemma Encode_safe l : all_safe (base64.Encode l).
Proof.
  unfold all_safe.
  induction l as [| x | x y | x y z l IH] using list_ind3; [constructor | ..].
  - rewrite Encode_one. cbv zeta. do 2 sextet.
    repeat (constructor; [assumption || reflexivity|]). constructor.
  - rewrite Encode_two. cbv zeta. do 3 sextet.
    repeat (constructor; [assumption || reflexivity|]). constructor.
  - rewrite Encode_group. cbv zeta. do 4 sextet.
    repeat (constructor; [assumption|]). exact IH.
Qed.

Lemma unquote_safe s tl :
  all_safe s → unquote (s ++ String text.dquote tl) = ok (s, tl).
Proof.
  unfold all_safe. induction s as [|c s IH]; intros H; [reflexivity|].
  simpl in H. inversion H as [|? ? Hc Hs]; subst.
  norm_app. rewrite unquote_plain by assumption. now rewrite IH.
Qed.

End CodecProps.

Module MarshalProps.
Import errors json JsonSpec JsonProps CodecProps cache.

Lemma expect_app lit s : expect lit (lit ++ s) = ok s.
Proof.
  induction lit as [|c lit IH]; [reflexivity|].
  rewrite app_cons. simpl. now rewrite Ascii.eqb_refl.
Qed.

Lemma expect_null_quote X :
  expect "null" (String text.dquote X) = err (SyntaxError "invalid character").
Proof. reflexivity. Qed.

Lemma expect_quote X : expect (String text.dquote "") (String text.dquote X) = ok X.
Proof. reflexivity. Qed.

Lemma doc_tail ct :
  appendString ct ++ "}" = String text.dquote (escape ct ++ String text.dquote "}").
Proof. unfold appendString. rewrite app_cons, string_app_assoc. reflexivity. Qed.

Lemma doc_data l rest :
  String text.dquote (base64.Encode l ++ String text.dquote "") ++ rest =
  String text.dquote (base64.Encode l ++ String text.dquote rest).
Proof. rewrite app_cons, string_app_assoc. reflexivity. Qed.

(** Reading the second field and the end of the document. *)
Lemma read_content_type ct (d : option string) :
  (expect key_content_type (key_content_type ++ appendString ct ++ "}")
     ≫= λ s, expect (String text.dquote "") s
     ≫= λ s0, unquote s0
     ≫= λ '(ct', s1), expect "}" s1
     ≫= λ s2, if negb (String.eqb s2 "")
              then err (SyntaxError "invalid character after top-level value")
              else match d with
                   | Some t => base64.Decode t ≫= λ b, ok (mkCachedResponse (Some b) ct')
                   | None => ok (mkCachedResponse None ct')
                   end) =
  match d with
  | Some t => base64.Decode t ≫= λ b, ok (mkCachedResponse (Some b) (coerce ct))
  | None => ok (mkCachedResponse None (coerce ct))
  end.
Proof.
  rewrite expect_app, bind_ok, doc_tail, expect_quote, bind_ok, unquote_escape, bind_ok.
  reflexivity.
Qed.

(** Decoding the JSON text of a cached response gives the response back,
    its content type coerced to valid UTF-8. *)
Lemma Unmarshal_Marshal v :
  ∃ doc, Marshal v = ok doc ∧
         Unmarshal doc = ok (mkCachedResponse (Data v) (coerce (ContentType v))).
Proof.
  unfold Marshal. eexists. split; [reflexivity|].
  unfold Unmarshal, bytes.to_string, bytes.of_string.
  rewrite string_of_list_byte_of_string.
  rewrite expect_app, bind_ok.
  destruct (Data v) as [l|].
  - rewrite doc_data, expect_null_quote, expect_quote, bind_ok.
    rewrite unquote_safe by apply Encode_safe.
    rewrite !bind_ok. cbv beta iota.
    rewrite (read_content_type (ContentType v) (Some (base64.Encode l))).
    now rewrite Decode_Encode.
  - rewrite expect_app, bind_ok. cbv beta iota.
    apply (read_content_type (ContentType v) None).
Qed.

End MarshalProps.

(** ** The response cache *)

Module CacheProps.
Import errors JsonSpec MarshalProps CodecProps cache.
Local Open Scope list_scope.

(** A transaction that meets no fault. *)
Lemma View_ok {A} (fn : badger.Txn → result A) d :
  badger.next_fault d = None →
  badger.View fn d =
    (fn (badger.mkTxn (badger.items d) (badger.clock d)), badger.after_txn (badger.items d) d).
Proof. intros H. unfold badger.View. now rewrite H. Qed.

Lemma View_fault {A} (fn : badger.Txn → result A) d e :
  badger.next_fault d = Some e →
  badger.View fn d = (err e, badger.after_txn (badger.items d) d).
Proof. intros H. unfold badger.View. now rewrite H. Qed.

Lemma no_faults_next d : badger.faults d = [] → badger.next_fault d = None.
Proof. intros H. unfold badger.next_fault. now rewrite H. Qed.

(** What [Get] returns when the transaction meets no fault, by what the
    store holds under the key. *)
Lemma Get_no_fault url c :
  badger.next_fault (db c) = None →
  fst (Get url c) =
    match badger.items (db c) !! GenerateCacheKey url with
    | Some it =>
      if badger.expired (badger.clock (db c)) it then (None, "", false, None)
      else
        match Unmarshal (badger.Value it) with
        | ok response => (Data response, ContentType response, true, None)
        | err ErrKeyNotFound => (None, "", false, None)
        | err e => (None, "", false, Some e)
        end
    | None => (None, "", false, None)
    end.
Proof.
  intros H. unfold Get. rewrite (View_ok _ _ H). unfold badger.txn_Get. simpl.
  destruct (badger.items (db c) !! GenerateCacheKey url) as [it|]; [|reflexivity].
  destruct (badger.expired (badger.clock (db c)) it); [reflexivity|].
  simpl. destruct (Unmarshal (badger.Value it)) as [response|[]]; reflexivity.
Qed.

(** What [Set] does to a store when the transaction meets no fault. *)
Lemma Set_no_fault url body contentType c :
  badger.next_fault (db c) = None →
  ∃ doc, Marshal (mkCachedResponse body contentType) = ok doc ∧
    Set_ url body contentType c =
      (None,
       with_db (badger.after_txn
                  (<[GenerateCacheKey url :=
                       badger.mkItem doc (badger.clock (db c) + ttl c)]> (badger.items (db c)))
                  (db c)) c).
Proof.
  intros H. destruct (Unmarshal_Marshal (mkCachedResponse body contentType)) as (doc & Hm & _).
  exists doc. split; [exact Hm|].
  unfold Set_. rewrite Hm. unfold badger.Update. rewrite H. reflexivity.
Qed.

Lemma Delete_no_fault url c :
  badger.next_fault (db c) = None →
  Delete url c =
    (None, with_db (badger.after_txn (delete (GenerateCacheKey url) (badger.items (db c)))
                      (db c)) c).
Proof. intros H. unfold Delete, badger.Update. now rewrite H. Qed.

(** [Get] after [Set], [d] nanoseconds later: a hit while the
    time-to-live has not elapsed, a miss afterwards. The content type comes
    back coerced to valid UTF-8. *)
Lemma Get_after_Set url body contentType c d :
  badger.faults (db c) = [] →
  fst (Get url (Sleep d (snd (Set_ url body contentType c)))) =
    if ttl c <=? d then (None, "", false, None)
    else (body, coerce contentType, true, None).
Proof.
  intros Hf.
  destruct (Set_no_fault url body contentType c (no_faults_next _ Hf)) as (doc & Hm & ->).
  rewrite Get_no_fault by (unfold badger.next_fault; simpl; now rewrite Hf).
  simpl. rewrite lookup_insert_eq. unfold badger.expired. simpl.
  replace (badger.clock (db c) + ttl c <=? badger.clock (db c) + d) with (ttl c <=? d)
    by (destruct (Z.leb_spec (ttl c) d), (Z.leb_spec (badger.clock (db c) + ttl c)
          (badger.clock (db c) + d)); lia || reflexivity).
  destruct (ttl c <=? d); [reflexivity|].
  destruct (Unmarshal_Marshal (mkCachedResponse body contentType)) as (doc' & Hm' & Hu).
  rewrite Hm in Hm'. injection Hm' as <-. now rewrite Hu.
Qed.

Lemma Sleep_0 c : Sleep 0 c = c.
Proof.
  destruct c as [[its clk fs] t]. unfold Sleep, with_db, badger.Sleep. simpl.
  now rewrite Z.add_0_r.
Qed.

End CacheProps.

Module CacheClaims.
Import errors JsonSpec MarshalProps CodecProps cache CacheProps.
Local Open Scope list_scope.

Lemma faults_after_Set url body contentType c :
  badger.faults (db c) = [] →
  badger.faults (db (snd (Set_ url body contentType c))) = [].
Proof.
  intros Hf.
  destruct (Set_no_fault url body contentType c (no_faults_next _ Hf)) as (doc & _ & ->).
  simpl. now rewrite Hf.
Qed.

(** [Get] after [Delete] is a miss. *)
Lemma Get_after_Delete url c :
  badger.faults (db c) = [] →
  fst (Delete url c) = None ∧
  fst (Get url (snd (Delete url c))) = (None, "", false, None).
Proof.
  intros Hf. rewrite (Delete_no_fault url c (no_faults_next _ Hf)). split; [reflexivity|].
  rewrite Get_no_fault by (unfold badger.next_fault; simpl; now rewrite Hf).
  simpl. now rewrite lookup_delete_eq.
Qed.

(** C4, as the code has it. On a store that meets no I/O fault, with a
    time-to-live that is positive, and for a content type that is valid
    UTF-8: [Set(url, body, contentType)] followed at once by [Get(url)]
    returns [(body, contentType, true)] and no error, for every url and
    body; and [Delete(url)] followed by [Get(url)] returns a miss, whatever
    the store held. *)
Theorem Set_Get_Delete_roundtrip url body contentType c :
  badger.faults (db c) = [] → 0 < ttl c → utf8.ValidString contentType = true →
  fst (Set_ url body contentType c) = None ∧
  fst (Get url (snd (Set_ url body contentType c))) = (body, contentType, true, None) ∧
  fst (Get url (snd (Delete url (snd (Set_ url body contentType c))))) =
    (None, "", false, None) ∧
  fst (Get url (snd (Delete url c))) = (None, "", false, None).
Proof.
  intros Hf Httl Hv. split; [|split; [|split]].
  - destruct (Set_no_fault url body contentType c (no_faults_next _ Hf)) as (doc & _ & ->).
    reflexivity.
  - rewrite <- (Sleep_0 (snd (Set_ url body contentType c))).
    rewrite Get_after_Set by assumption.
    destruct (Z.leb_spec (ttl c) 0); [lia|]. now rewrite coerce_valid.
  - apply Get_after_Delete, faults_after_Set, Hf.
  - apply Get_after_Delete, Hf.
Qed.

Lemma Set_Get_Delete_roundtrip_witness :
  let c := mkBadgerCache (badger.Open 0) 3600000000000 in
  let body := Some (bytes.of_string "response data") in
  fst (Get "https://example.com/api"
         (snd (Set_ "https://example.com/api" body "application/json" c))) =
    (body, "application/json", true, None).
Proof.
  intros c body.
  apply (Set_Get_Delete_roundtrip "https://example.com/api" body "application/json" c);
    [reflexivity | reflexivity | reflexivity].
Defined.

(** C4 as stated fails twice over. A content type that is not valid UTF-8
    comes back changed: the byte [0xFF] comes back as the three bytes of
    U+FFFD. And with a time-to-live of zero the entry has expired by the
    time it is read. *)
Lemma Set_Get_not_roundtrip :
  let body := Some (bytes.of_string "data") in
  let contentType := String (utf8.byte_of_Z 0xFF) "" in
  fst (Get "https://example.com"
         (snd (Set_ "https://example.com" body contentType
                 (mkBadgerCache (badger.Open 0) 3600000000000)))) =
    (body, utf8.EncodeRune utf8.RuneError, true, None) ∧
  utf8.EncodeRune utf8.RuneError ≠ contentType ∧
  fst (Get "https://example.com"
         (snd (Set_ "https://example.com" body "text/plain"
                 (mkBadgerCache (badger.Open 0) 0)))) =
    (None, "", false, None).
Proof. vm_compute. repeat split. discriminate. Qed.

(** A [Set] that has reported no error has met no fault. *)
Lemma Set_ok_no_fault url body contentType c :
  fst (Set_ url body contentType c) = None → badger.next_fault (db c) = None.
Proof.
  unfold Set_, badger.Update.
  destruct (Marshal _) as [doc|e]; [|discriminate].
  destruct (badger.next_fault (db c)); [discriminate | reflexivity].
Qed.

(** Whatever becomes of its transaction, [Get] finds nothing under a key
    that is absent or expired. *)
Lemma Get_dead_not_found url c :
  (badger.items (db c) !! GenerateCacheKey url = None ∨
   ∃ it, badger.items (db c) !! GenerateCacheKey url = Some it ∧
         badger.expired (badger.clock (db c)) it = true) →
  (fst (Get url c)).1.2 = false.
Proof.
  intros H. destruct (badger.next_fault (db c)) as [e|] eqn:Hf.
  - unfold Get. rewrite (View_fault _ _ e Hf). now destruct e.
  - rewrite Get_no_fault by assumption. destruct H as [-> | (it & -> & ->)]; reflexivity.
Qed.

(** C7. An entry stored by [Set] at time [t] with time-to-live [ttl] is a
    miss for every [Get] made more than [ttl] later: [found] is false,
    while the expired entry is still physically in the store as well as
    after compaction has reclaimed it; and when the read meets no I/O
    fault, what [Get] returns is the plain miss, with no error. *)
Theorem Get_after_expiry_misses url body contentType c d :
  fst (Set_ url body contentType c) = None → ttl c < d →
  let c1 := Sleep d (snd (Set_ url body contentType c)) in
  is_Some (badger.items (db c1) !! GenerateCacheKey url) ∧
  (fst (Get url c1)).1.2 = false ∧
  (fst (Get url (RunGC c1))).1.2 = false ∧
  (badger.next_fault (db c1) = None →
   fst (Get url c1) = (None, "", false, None) ∧
   fst (Get url (RunGC c1)) = (None, "", false, None)).
Proof.
  intros Hset Hd c1.
  destruct (Set_no_fault url body contentType c (Set_ok_no_fault _ _ _ _ Hset))
    as (doc & _ & E).
  assert (Hit : badger.items (db c1) !! GenerateCacheKey url =
                Some (badger.mkItem doc (badger.clock (db c) + ttl c))).
  { subst c1. rewrite E. simpl. apply lookup_insert_eq. }
  assert (Hclk : badger.clock (db c1) = badger.clock (db c) + d).
  { subst c1. rewrite E. reflexivity. }
  assert (Hexp : badger.expired (badger.clock (db c1))
                   (badger.mkItem doc (badger.clock (db c) + ttl c)) = true).
  { rewrite Hclk. unfold badger.expired. simpl. apply Z.leb_le. lia. }
  assert (Hgc : badger.items (db (RunGC c1)) !! GenerateCacheKey url = None).
  { change (badger.items (db (RunGC c1)))
      with (filter (λ kv : string * badger.Item,
                      badger.expired (badger.clock (db c1)) kv.2 = false)
              (badger.items (db c1))).
    apply map_lookup_filter_None. right. intros it Hit'.
    rewrite Hit in Hit'. injection Hit' as <-. cbn [snd]. rewrite Hexp. discriminate. }
  split; [rewrite Hit; eauto|].
  split; [apply Get_dead_not_found; right; eauto|].
  split; [apply Get_dead_not_found; left; exact Hgc|].
  intros Hf. split.
  - rewrite Get_no_fault by assumption. now rewrite Hit, Hexp.
  - rewrite Get_no_fault by exact Hf. now rewrite Hgc.
Qed.

Lemma Get_after_expiry_misses_witness :
  let c := mkBadgerCache (badger.Open 0) 1000000000 in
  let c1 := snd (Set_ "https://example.com" (Some (bytes.of_string "data")) "text/plain" c) in
  fst (Get "https://example.com" c1) =
    (Some (bytes.of_string "data"), "text/plain", true, None) ∧
  fst (Get "https://example.com" (Sleep 1100000000 c1)) = (None, "", false, None).
Proof.
  intros c c1. split; [reflexivity|].
  apply (Get_after_expiry_misses "https://example.com" (Some (bytes.of_string "data"))
           "text/plain" c 1100000000); reflexivity.
Defined.

(** C10. A miss is not an error. When the store holds no entry for the
    url, or only one that has expired, and the transaction meets no I/O
    fault, [Get] returns [(nil, "", false, nil)]: the store's
    key-not-found is mapped to a nil error. An I/O fault comes back as the
    error, with [found] false. *)
Theorem Get_miss_is_not_an_error url c :
  (badger.next_fault (db c) = None →
   (badger.items (db c) !! GenerateCacheKey url = None ∨
    ∃ it, badger.items (db c) !! GenerateCacheKey url = Some it ∧
          badger.expired (badger.clock (db c)) it = true) →
   fst (Get url c) = (None, "", false, None)) ∧
  (∀ e, badger.next_fault (db c) = Some e → e ≠ ErrKeyNotFound →
   fst (Get url c) = (None, "", false, Some e)).
Proof.
  split.
  - intros Hf H. rewrite Get_no_fault by assumption.
    destruct H as [-> | (it & -> & ->)]; reflexivity.
  - intros e Hf Hne. unfold Get. rewrite (View_fault _ _ e Hf).
    destruct e; try reflexivity. contradiction.
Qed.

Lemma Get_miss_is_not_an_error_witness :
  let c := mkBadgerCache (badger.Open 0) 3600000000000 in
  fst (Get "https://nonexistent.com" c) = (None, "", false, None) ∧
  fst (Get "https://nonexistent.com"
         (with_db (badger.Inject [Some (libError "input/output error")] (db c)) c)) =
    (None, "", false, Some (libError "input/output error")).
Proof.
  intros c. split.
  - apply (proj1 (Get_miss_is_not_an_error "https://nonexistent.com" c));
      [reflexivity | left; reflexivity].
  - apply (proj2 (Get_miss_is_not_an_error "https://nonexistent.com"
                    (with_db (badger.Inject [Some (libError "input/output error")] (db c)) c)));
      [reflexivity | discriminate].
Defined.

End CacheClaims.

(** *** The codecs and the cache on examples *)

Module CacheTests.
Import errors cache.
Local Open Scope list_scope.

(** The digests of the standard's test messages. *)
Example Sum256_vectors :
  hex.EncodeToString (sha256.Sum256 []) =
    "e3b0c44298fc1c149afbf4c8996fb92427ae41e4649b934ca495991b7852b855" ∧
  hex.EncodeToString (sha256.Sum256 (bytes.of_string "abc")) =
    "ba7816bf8f01cfea414140de5dae2223b00361a396177a9cb410ff61f20015ad" ∧
  hex.EncodeToString
    (sha256.Sum256
       (bytes.of_string "abcdbcdecdefdefgefghfghighijhijkijkljklmklmnlmnomnopnopq")) =
    "248d6a61d20638b8e5c026930c3e6039a33ce45964ff2167f6ecedd419db06c1".
Proof. vm_compute. repeat split. Qed.

(** [TestCache_KeyGeneration]. *)
Example key_generation :
  GenerateCacheKey "https://example.com/path1" ≠ GenerateCacheKey "https://example.com/path2" ∧
  String.length (GenerateCacheKey "https://example.com/path1") = 64%nat.
Proof. vm_compute. split; [discriminate | reflexivity]. Qed.

Example base64_vectors :
  map (λ s, base64.Encode (bytes.of_string s)) [""; "f"; "fo"; "foo"; "foob"; "fooba"; "foobar"]
    = [""; "Zg=="; "Zm8="; "Zm9v"; "Zm9vYg=="; "Zm9vYmE="; "Zm9vYmFy"] ∧
  base64.Decode "Zm9vYmE=" = ok (bytes.of_string "fooba") ∧
  base64.Decode "Zm9vYmE" = err base64.CorruptInputError.
Proof. vm_compute. repeat split. Qed.

(** The document [Set] stores; [<] is written as an escape. *)
Example Marshal_document :
  Marshal (mkCachedResponse (Some (bytes.of_string "data")) "text/html; charset=utf-8") =
    ok (bytes.of_string
          (text.dq "{'data':'ZGF0YQ==','content_type':'text/html; charset=utf-8'}")) ∧
  Marshal (mkCachedResponse None "a<b") =
    ok (bytes.of_string (text.dq "{'data':null,'content_type':'a\u003cb'}")).
Proof. vm_compute. repeat split. Qed.

(** [TestCache_SetAndGet], [TestCache_GetMiss], [TestCache_Delete]. *)
Example set_get_delete :
  let c := mkBadgerCache (badger.Open 0) 3600000000000 in
  let url := "https://example.com/api" in
  let data := Some (bytes.of_string "response data") in
  let '(e1, c1) := Set_ url data "application/json" c in
  let '(r1, c2) := Get url c1 in
  let '(r2, c3) := Get "https://nonexistent.com" c2 in
  let '(e2, c4) := Delete url c3 in
  let '(r3, _) := Get url c4 in
  e1 = None ∧ r1 = (data, "application/json", true, None) ∧
  r2 = (None, "", false, None) ∧ e2 = None ∧ r3 = (None, "", false, None).
Proof. vm_compute. repeat split. Qed.

End CacheTests.

(** ** The response cache: keys, frames, failures, lifetime *)

Module CacheExtras.
Import errors JsonSpec cache CacheProps ServerSpec.
Local Open Scope list_scope.

(** The state of the digest is eight words throughout. *)
Lemma round_length st kw : length st = 8%nat → length (sha256.round st kw) = 8%nat.
Proof.
  intros H. do 9 (destruct st as [|? st]; try discriminate H). reflexivity.
Qed.

Lemma rounds_length kws : ∀ st,
  length st = 8%nat → length (fold_left sha256.round kws st) = 8%nat.
Proof.
  induction kws as [|kw kws IH]; intros st H; [exact H|].
  simpl. apply IH, round_length, H.
Qed.

Lemma block_length st blk : length st = 8%nat → length (sha256.block st blk) = 8%nat.
Proof.
  intros H. unfold sha256.block.
  rewrite length_map, length_combine, rounds_length by exact H. rewrite H. reflexivity.
Qed.

Lemma blocks_length blks : ∀ st,
  length st = 8%nat → length (fold_left sha256.block blks st) = 8%nat.
Proof.
  induction blks as [|blk blks IH]; intros st H; [exact H|].
  simpl. apply IH, block_length, H.
Qed.

Lemma flat_map_be_length st : length (flat_map (sha256.be 4) st) = (4 * length st)%nat.
Proof.
  induction st as [|x st IH]; [reflexivity|].
  cbn [flat_map]. rewrite length_app, IH. unfold sha256.be.
  rewrite length_map, length_rev, length_seq. simpl. lia.
Qed.

Lemma Sum256_length data : length (sha256.Sum256 data) = 32%nat.
Proof.
  unfold sha256.Sum256. rewrite length_map, flat_map_be_length.
  rewrite blocks_length; reflexivity.
Qed.

Lemma hex_digits (v : byte) :
  let ok c := text.between "0" c "9" || text.between "a" c "f" in
  ok (hex.digit (Z.shiftr (bytes.to_Z v) 4)) = true ∧
  ok (hex.digit (Z.land (bytes.to_Z v) 0x0F)) = true.
Proof. destruct v; vm_compute; split; reflexivity. Qed.

Lemma EncodeToString_hex src :
  String.length (hex.EncodeToString src) = (2 * length src)%nat ∧
  lower_hex (hex.EncodeToString src).
Proof.
  unfold lower_hex. induction src as [|v src [IH1 IH2]]; [split; [reflexivity|constructor]|].
  cbn [hex.EncodeToString String.length list_ascii_of_string length].
  split; [rewrite IH1; lia|].
  destruct (hex_digits v) as [H1 H2]. repeat constructor; assumption.
Qed.

(** X9. A cache key is 64 characters, each a lower-case hexadecimal
    digit, whatever the URL. *)
Theorem GenerateCacheKey_format (url : string) :
  String.length (GenerateCacheKey url) = 64%nat ∧ lower_hex (GenerateCacheKey url).
Proof.
  unfold GenerateCacheKey.
  destruct (EncodeToString_hex (sha256.Sum256 (bytes.of_string url))) as [H1 H2].
  split; [|exact H2]. rewrite H1, Sum256_length. reflexivity.
Qed.

(** X10. What [Get] returns is well formed, and [Get] writes nothing:
    when the entry is not found the data are nil and the content type is
    empty, an error never comes with a found entry, and the entries of the
    store and its time-to-live are as before. *)
Theorem Get_result_shape (url : string) (c : BadgerCache) :
  let '(data, contentType, found, e) := fst (Get url c) in
  (found = false → data = None ∧ contentType = "") ∧
  (e ≠ None → found = false) ∧
  badger.items (db (snd (Get url c))) = badger.items (db c) ∧
  ttl (snd (Get url c)) = ttl c.
Proof.
  unfold Get, badger.View.
  destruct (badger.next_fault (db c)) as [e|].
  - destruct e; simpl; repeat split; congruence.
  - destruct (_ ≫= _) as [v|e]; [|destruct e]; simpl; repeat split; congruence.
Qed.

Lemma Set_items url body contentType c :
  badger.items (db (snd (Set_ url body contentType c))) = badger.items (db c) ∨
  ∃ it, badger.items (db (snd (Set_ url body contentType c))) =
          <[GenerateCacheKey url := it]> (badger.items (db c)).
Proof.
  unfold Set_. destruct (Marshal _) as [doc|e]; [|now left].
  unfold badger.Update. destruct (badger.next_fault (db c)); [now left|].
  right. simpl. eauto.
Qed.

Lemma Delete_items url c :
  badger.items (db (snd (Delete url c))) = badger.items (db c) ∨
  badger.items (db (snd (Delete url c))) = delete (GenerateCacheKey url) (badger.items (db c)).
Proof.
  unfold Delete, badger.Update. destruct (badger.next_fault (db c)); [now left|].
  right. reflexivity.
Qed.

Lemma Set_clock_faults url body contentType c :
  badger.clock (db (snd (Set_ url body contentType c))) = badger.clock (db c) ∧
  (badger.faults (db c) = [] → badger.faults (db (snd (Set_ url body contentType c))) = []).
Proof.
  unfold Set_. destruct (Marshal _) as [doc|e]; [|auto].
  unfold badger.Update. destruct (badger.next_fault (db c)); simpl;
    (split; [reflexivity|]); now intros ->.
Qed.

Lemma Delete_clock_faults url c :
  badger.clock (db (snd (Delete url c))) = badger.clock (db c) ∧
  (badger.faults (db c) = [] → badger.faults (db (snd (Delete url c))) = []).
Proof.
  unfold Delete, badger.Update. destruct (badger.next_fault (db c)); simpl;
    (split; [reflexivity|]); now intros ->.
Qed.

(** X11. Writing or deleting the entry of one URL leaves the entries
    of the URLs with another key alone: what the store holds for them is
    unchanged, and so is what [Get] returns for them. *)
Theorem other_entries_untouched url1 url2 body contentType c :
  GenerateCacheKey url1 ≠ GenerateCacheKey url2 →
  badger.items (db (snd (Set_ url1 body contentType c))) !! GenerateCacheKey url2 =
    badger.items (db c) !! GenerateCacheKey url2 ∧
  badger.items (db (snd (Delete url1 c))) !! GenerateCacheKey url2 =
    badger.items (db c) !! GenerateCacheKey url2 ∧
  (badger.faults (db c) = [] →
   fst (Get url2 (snd (Set_ url1 body contentType c))) = fst (Get url2 c) ∧
   fst (Get url2 (snd (Delete url1 c))) = fst (Get url2 c)).
Proof.
  intros Hne.
  assert (HS : badger.items (db (snd (Set_ url1 body contentType c))) !! GenerateCacheKey url2 =
               badger.items (db c) !! GenerateCacheKey url2).
  { destruct (Set_items url1 body contentType c) as [-> | [it ->]]; [reflexivity|].
    now apply lookup_insert_ne. }
  assert (HD : badger.items (db (snd (Delete url1 c))) !! GenerateCacheKey url2 =
               badger.items (db c) !! GenerateCacheKey url2).
  { destruct (Delete_items url1 c) as [-> | ->]; [reflexivity|].
    now apply lookup_delete_ne. }
  split; [exact HS|]. split; [exact HD|].
  intros Hf.
  destruct (Set_clock_faults url1 body contentType c) as [Hc1 Hf1].
  destruct (Delete_clock_faults url1 c) as [Hc2 Hf2].
  rewrite !Get_no_fault by (apply no_faults_next; auto).
  now rewrite HS, HD, Hc1, Hc2.
Qed.

Lemma other_entries_untouched_witness :
  let c := snd (Set_ "https://example.com/path2" (Some (bytes.of_string "two")) "text/plain"
                  (mkBadgerCache (badger.Open 0) 3600000000000)) in
  fst (Get "https://example.com/path2"
         (snd (Set_ "https://example.com/path1" (Some (bytes.of_string "one")) "text/html" c))) =
    fst (Get "https://example.com/path2" c).
Proof.
  intros c.
  refine (proj1 (proj2 (proj2 (other_entries_untouched "https://example.com/path1"
            "https://example.com/path2" (Some (bytes.of_string "one")) "text/html" c _)) _)).
  - intros H. vm_compute in H. discriminate H.
  - reflexivity.
Defined.

(** X12. [Set] and [Delete] fail only when the store does, with the
    store's error, and a call that has failed has changed no entry. *)
Theorem failed_write_changes_nothing url body contentType c e :
  badger.next_fault (db c) = Some e →
  fst (Set_ url body contentType c) = Some e ∧
  badger.items (db (snd (Set_ url body contentType c))) = badger.items (db c) ∧
  fst (Delete url c) = Some e ∧
  badger.items (db (snd (Delete url c))) = badger.items (db c) ∧
  (∀ c', badger.next_fault (db c') = None →
     fst (Set_ url body contentType c') = None ∧ fst (Delete url c') = None).
Proof.
  intros Hf. unfold Set_, Delete, badger.Update.
  destruct (MarshalProps.Unmarshal_Marshal (mkCachedResponse body contentType))
    as (doc & Hm & _).
  rewrite Hm, Hf. simpl. repeat split; try reflexivity;
    match goal with Hn : badger.next_fault _ = None |- _ => now rewrite Hn end.
Qed.

Lemma failed_write_changes_nothing_witness :
  fst (Set_ "https://example.com" (Some (bytes.of_string "data")) "text/plain"
         HandlerTest.failingCache) = Some (libError "input/output error") ∧
  badger.items (db (snd (Set_ "https://example.com" (Some (bytes.of_string "data"))
                           "text/plain" HandlerTest.failingCache))) =
    badger.items (db HandlerTest.failingCache).
Proof.
  destruct (failed_write_changes_nothing "https://example.com"
              (Some (bytes.of_string "data")) "text/plain" HandlerTest.failingCache
              (libError "input/output error") eq_refl) as (H1 & H2 & _).
  split; [exact H1 | exact H2].
Defined.

(** X13. The last write wins, and the body comes back byte for byte. On
    a store that meets no fault, with a time-to-live that is positive, and
    whatever the store held under the key before: [Get] made at once after
    [Set] returns the body of that [Set] unchanged, and its content type
    with every byte that is not part of a well-formed UTF-8 sequence
    replaced by U+FFFD. *)
Theorem Set_then_Get_returns url body contentType c :
  badger.faults (db c) = [] → 0 < ttl c →
  fst (Get url (snd (Set_ url body contentType c))) =
    (body, coerce contentType, true, None).
Proof.
  intros Hf Httl. rewrite <- (Sleep_0 (snd (Set_ url body contentType c))).
  rewrite (Get_after_Set url body contentType c 0 Hf).
  destruct (Z.leb_spec (ttl c) 0); [lia | reflexivity].
Qed.

Lemma Set_then_Get_returns_witness :
  let c := mkBadgerCache (badger.Open 0) 3600000000000 in
  let c1 := snd (Set_ "https://example.com" (Some (bytes.of_string "old")) "text/plain" c) in
  let contentType := String "t" (String (utf8.byte_of_Z 0xFF) "") in
  fst (Get "https://example.com"
         (snd (Set_ "https://example.com" (Some (bytes.of_string "new")) contentType c1))) =
    (Some (bytes.of_string "new"), coerce contentType, true, None) ∧
  coerce contentType = ("t" ++ utf8.EncodeRune utf8.RuneError)%string.
Proof.
  intros c c1 contentType. split; [|reflexivity].
  refine (Set_then_Get_returns "https://example.com" (Some (bytes.of_string "new"))
            contentType c1 _ _); reflexivity.
Defined.

(** X14. [Delete] of a URL that has no entry succeeds and changes no
    entry, and deleting twice is deleting once, on a store that meets no
    fault. *)
Theorem Delete_absent_and_again url c :
  badger.faults (db c) = [] →
  fst (Delete url c) = None ∧
  fst (Delete url (snd (Delete url c))) = None ∧
  badger.items (db (snd (Delete url (snd (Delete url c))))) =
    badger.items (db (snd (Delete url c))) ∧
  (badger.items (db c) !! GenerateCacheKey url = None →
   badger.items (db (snd (Delete url c))) = badger.items (db c)).
Proof.
  intros Hf.
  pose proof (proj2 (Delete_clock_faults url c) Hf) as Hf'.
  rewrite (Delete_no_fault url (snd (Delete url c)) (no_faults_next _ Hf')).
  rewrite (Delete_no_fault url c (no_faults_next _ Hf)). simpl.
  split; [reflexivity|]. split; [reflexivity|]. split.
  - apply delete_id, lookup_delete_eq.
  - intros Hnone. now apply delete_id.
Qed.

Lemma Delete_absent_and_again_witness :
  fst (Delete "https://nonexistent.com" (mkBadgerCache (badger.Open 0) 3600000000000)) = None.
Proof.
  exact (proj1 (Delete_absent_and_again "https://nonexistent.com"
                  (mkBadgerCache (badger.Open 0) 3600000000000) eq_refl)).
Defined.

(** X15. The cache of the handler's tests returns what was stored, as it
    was: [Get] after [Set] gives the data and the content type given,
    whatever their bytes; [Get] after [Delete] is a miss; no operation
    returns an error. *)
Theorem mockCache_roundtrip url data contentType (m : handler.mockCache) :
  handler.Set_ url data contentType m =
    (None, snd (handler.Set_ url data contentType m)) ∧
  fst (handler.Get url (snd (handler.Set_ url data contentType m))) =
    (data, contentType, true, None) ∧
  fst (handler.Get url (snd (handler.Delete url m))) = (None, "", false, None).
Proof.
  split; [reflexivity|]. split.
  - cbn. rewrite !lookup_insert_eq. reflexivity.
  - cbn. rewrite !lookup_delete_eq. reflexivity.
Qed.

End CacheExtras.

(** ** The request handler *)

Module HandlerProps.
Import errors handler HandlerSpec FetcherProps.
Local Open Scope list_scope.

Section served.

(** A request that is no preflight and names a valid URL, and a response
    that has not been started. *)
Context `{Cache C} (h : ProxyHandler C) (r : http.Request) (w : http.ResponseWriter).
Variable url : string.
Hypothesis Hmethod : http.Method r ≠ "OPTIONS".
Hypothesis Hquery : http.Query_Get "url" (http.Query r) = url.
Hypothesis Hvalid : proxy.ValidateURL (fetcher h) url = None.
Hypothesis Hcode : http.Code w = None.

(** What [ServeHTTP] does once the cache has not produced a hit: it
    fetches; a body that arrives is stored, whatever comes of that, and
    sent with status 200 and the miss marker. *)
Lemma ServeHTTP_miss :
  not_a_hit (fst (Get url (cache_ h))) →
  let c1 := snd (Get url (cache_ h)) in
  let '(w', c', evs) := ServeHTTP h r w in
  proxy.EvDo (proxy.request_for url) ∈ evs ∧
  ∀ resp body,
    proxy.Client_Do (proxy.client (fetcher h)) (proxy.request_for url) = ok resp →
    proxy.ContentLength resp <= proxy.maxSize (fetcher h) →
    proxy.Body resp = ok body →
    c' = snd (Set_ url (Some body) (content_type_of resp) c1) ∧
    evs = [proxy.EvDo (proxy.request_for url); proxy.EvBodyRead; proxy.EvBodyClose] ∧
    http.Code w' = Some http.StatusOK ∧
    http.Body w' = http.Body w ++ body ∧
    http.Header w' !! "X-Cache" = Some "MISS" ∧
    http.Header w' !! "Content-Type" = Some (content_type_of resp).
Proof.
  intros Hmiss. cbv zeta. unfold ServeHTTP.
  pose proof Hmethod as Hm. pose proof Hvalid as Hv.
  apply String.eqb_neq in Hm. rewrite Hm, Hquery.
  assert (Hne : String.eqb url "" = false).
  { apply String.eqb_neq. intros ->. discriminate Hv. }
  rewrite Hne, Hv.
  destruct (Get url (cache_ h)) as [[[[d ct0] found] e] c1] eqn:EG. simpl in Hmiss.
  assert (Hnot : match e with None => found | Some _ => false end = false).
  { destruct Hmiss as [He|Hf]; [destruct e; [reflexivity|contradiction]|].
    simpl in Hf. subst found. now destruct e. }
  rewrite Hnot. simpl snd.
  pose proof (Fetch_valid (fetcher h) url Hv) as HF.
  destruct (proxy.Client_Do (proxy.client (fetcher h)) (proxy.request_for url))
    as [resp|e'] eqn:EDo.
  - destruct (proxy.maxSize (fetcher h) <? proxy.ContentLength resp) eqn:Hsz.
    + destruct HF as [msg ->]. split; [set_solver|].
      intros resp' body [= <-] Hle. apply Z.ltb_lt in Hsz. lia.
    + rewrite HF.
      destruct (proxy.Body resp) as [body|e''] eqn:EB.
      * unfold content_type_of.
        destruct (Set_ url (Some body) _ c1) as [e2 c2] eqn:ES.
        split; [set_solver|].
        intros resp' body' [= <-] _ Hb. rewrite EB in Hb. injection Hb as <-.
        split; [now rewrite ES|]. split; [reflexivity|].
        unfold http.Write, http.WriteHeader, http.Header_Set. simpl. rewrite Hcode. simpl.
        split; [reflexivity|]. split; [reflexivity|].
        split; [apply lookup_insert_eq|].
        rewrite lookup_insert_ne by discriminate. apply lookup_insert_eq.
      * split; [set_solver|]. intros resp' body [= <-] _ Hb. rewrite EB in Hb. discriminate.
  - rewrite HF. split; [set_solver|]. intros resp body [=].
Qed.

(** C6. A cache error is never surfaced to the client. For a request
    other than a preflight that names a valid URL: if the cache's [Get] for
    that URL returns an error, the upstream fetch is performed; and
    whenever the cache has not produced a hit and the fetch has delivered a
    body, the request ends in status 200 with the fresh body and the marker
    [X-Cache: MISS], also when the cache's [Set] of that body fails. *)
Theorem cache_errors_not_surfaced :
  (∀ e, (fst (Get url (cache_ h))).2 = Some e →
     proxy.EvDo (proxy.request_for url) ∈ (ServeHTTP h r w).2) ∧
  (∀ resp body e,
     not_a_hit (fst (Get url (cache_ h))) →
     proxy.Client_Do (proxy.client (fetcher h)) (proxy.request_for url) = ok resp →
     proxy.ContentLength resp <= proxy.maxSize (fetcher h) →
     proxy.Body resp = ok body →
     fst (Set_ url (Some body) (content_type_of resp) (snd (Get url (cache_ h)))) = Some e →
     let w' := (ServeHTTP h r w).1.1 in
     http.Code w' = Some http.StatusOK ∧
     http.Body w' = http.Body w ++ body ∧
     http.Header w' !! "X-Cache" = Some "MISS" ∧
     http.Header w' !! "Content-Type" = Some (content_type_of resp)).
Proof.
  split.
  - intros e He.
    assert (Hmiss : not_a_hit (fst (Get url (cache_ h)))) by (left; rewrite He; discriminate).
    pose proof (ServeHTTP_miss Hmiss) as HS.
    destruct (ServeHTTP h r w) as [[w' c'] evs]. apply HS.
  - intros resp body e Hmiss HDo Hle HB _.
    pose proof (ServeHTTP_miss Hmiss) as HS.
    destruct (ServeHTTP h r w) as [[w' c'] evs]. cbv zeta in *. simpl.
    destruct HS as [_ HS]. destruct (HS resp body HDo Hle HB) as (_ & _ & H1 & H2 & H3 & H4).
    auto.
Qed.

End served.

Lemma cache_errors_not_surfaced_witness :
  let f := proxy.NewFetcher HandlerTest.helloOrigin 10000000000 10485760 in
  let h := NewProxyHandler HandlerTest.failingCache f in
  let r := http.mkRequest "GET" [("url", "http://origin.test/hello")] ∅ "192.168.1.1:12345" in
  let w' := (ServeHTTP h r http.NewRecorder).1.1 in
  (fst (Get "http://origin.test/hello" HandlerTest.failingCache)).2 =
    Some (libError "input/output error") ∧
  fst (Set_ "http://origin.test/hello"
         (Some (bytes.of_string (text.dq "{'message':'hello'}")))
         "application/json"
         (snd (Get "http://origin.test/hello" HandlerTest.failingCache))) =
    Some (libError "no space left on device") ∧
  proxy.EvDo (proxy.request_for "http://origin.test/hello") ∈ (ServeHTTP h r http.NewRecorder).2 ∧
  http.Code w' = Some 200 ∧
  http.Body w' = bytes.of_string (text.dq "{'message':'hello'}") ∧
  http.Header w' !! "X-Cache" = Some "MISS".
Proof.
  intros f h r w'.
  pose proof (cache_errors_not_surfaced h r http.NewRecorder "http://origin.test/hello")
    as [H1 H2]; [discriminate | reflexivity | reflexivity | reflexivity |].
  split; [reflexivity|]. split; [reflexivity|].
  split; [apply (H1 (libError "input/output error")); reflexivity|].
  destruct (H2 (proxy.mkResponse 200 {["Content-Type" := "application/json"]} (-1)
                  (ok (bytes.of_string (text.dq "{'message':'hello'}"))))
               (bytes.of_string (text.dq "{'message':'hello'}"))
               (libError "no space left on device"))
    as (Hc & Hb & Hx & _);
    [left; discriminate | reflexivity | simpl; lia | reflexivity | reflexivity |].
  auto.
Defined.

End HandlerProps.

(** *** The handler's tests, on the model *)

Module HandlerTests.
Import errors handler.
Local Open Scope list_scope.

(** [TestHandler_RequiresURLParameter], with the body of the answer. *)
Example requires_url_parameter :
  let h := NewProxyHandler newMockCache
             (proxy.NewFetcher HandlerTest.helloOrigin 10000000000 10485760) in
  let w := (ServeHTTP h (http.mkRequest "GET" [] ∅ "192.0.2.1:1234") http.NewRecorder).1.1 in
  http.Code w = Some http.StatusBadRequest ∧
  bytes.to_string (http.Body w) =
    (text.dq "{'error':'missing required " ++ "'url'" ++ text.dq " parameter','code':400}"
       ++ String "010" "")%string.
Proof. vm_compute. repeat split. Qed.

(** [TestHandler_RejectsInvalidURL]. *)
Example rejects_invalid_url :
  let h := NewProxyHandler newMockCache
             (proxy.NewFetcher HandlerTest.helloOrigin 10000000000 10485760) in
  let r := http.mkRequest "GET" [("url", "javascript:alert(1)")] ∅ "192.0.2.1:1234" in
  http.Code (ServeHTTP h r http.NewRecorder).1.1 = Some http.StatusBadRequest ∧
  (ServeHTTP h r http.NewRecorder).2 = [].
Proof. vm_compute. repeat split. Qed.

(** [TestHandler_FetchesAndCaches] and [TestHandler_ReturnsCachedData]: a
    miss that is stored, then a hit that asks the origin nothing. *)
Example fetches_and_caches :
  let h := NewProxyHandler newMockCache
             (proxy.NewFetcher HandlerTest.helloOrigin 10000000000 10485760) in
  let r := http.mkRequest "GET" [("url", "http://origin.test")] ∅ "192.0.2.1:1234" in
  let '(rec1, c, evs1) := ServeHTTP h r http.NewRecorder in
  let '(rec2, _, evs2) := ServeHTTP (NewProxyHandler c (fetcher h)) r http.NewRecorder in
  http.Code rec1 = Some http.StatusOK ∧
  http.Header rec1 !! "X-Cache" = Some "MISS" ∧
  is_Some (data c !! cache.GenerateCacheKey "http://origin.test") ∧
  http.Code rec2 = Some http.StatusOK ∧
  http.Header rec2 !! "X-Cache" = Some "HIT" ∧
  http.Body rec2 = http.Body rec1 ∧
  http.Header rec2 !! "Content-Type" = Some "application/json" ∧
  http.Header rec2 !! "Access-Control-Allow-Origin" = Some "*" ∧
  evs2 = [].
Proof. vm_compute. repeat split; eauto. Qed.

(** [TestHandler_HandlesPreflight]. *)
Example handles_preflight :
  let h := NewProxyHandler newMockCache
             (proxy.NewFetcher HandlerTest.helloOrigin 10000000000 10485760) in
  let r := http.mkRequest "OPTIONS" [("url", "https://example.com")]
             {["Origin" := "https://somesite.com"]} "192.0.2.1:1234" in
  let w := (ServeHTTP h r http.NewRecorder).1.1 in
  http.Code w = Some http.StatusNoContent ∧
  http.Header w !! "Access-Control-Allow-Origin" = Some "*".
Proof. vm_compute. repeat split. Qed.

(** [TestHandler_HandlesUpstreamErrors]: an origin that refuses the
    connection. *)
Example handles_upstream_errors :
  let refused := λ _ : proxy.OutRequest,
    err (libError "dial tcp 127.0.0.1:59999: connect: connection refused")
      : result proxy.Response in
  let h := NewProxyHandler newMockCache (proxy.NewFetcher refused 1000000000 10485760) in
  let r := http.mkRequest "GET" [("url", "http://localhost:59999/noexist")] ∅
             "192.0.2.1:1234" in
  http.Code (ServeHTTP h r http.NewRecorder).1.1 = Some http.StatusBadGateway.
Proof. vm_compute. reflexivity. Qed.

End HandlerTests.

(** ** The request handler: every path *)

Module HandlerExtras.
Import errors handler HandlerSpec ServerSpec FetcherProps.
Local Open Scope list_scope.

(** The response once the four headers are set. *)
Lemma cors_set (w : http.ResponseWriter) :
  cors (http.Header
          (http.Header_Set "Access-Control-Max-Age" "86400"
             (http.Header_Set "Access-Control-Allow-Headers" "*"
                (http.Header_Set "Access-Control-Allow-Methods" "GET, OPTIONS"
                   (http.Header_Set "Access-Control-Allow-Origin" "*" w))))).
Proof.
  unfold cors, http.Header_Set. simpl.
  repeat split; repeat (first [apply lookup_insert_eq | rewrite lookup_insert_ne by discriminate]).
Qed.

Lemma cors_insert hdr key value :
  cors hdr → String.prefix "Access-Control" key = false → cors (<[key := value]> hdr).
Proof.
  intros (H1 & H2 & H3 & H4) Hk. unfold cors.
  rewrite !lookup_insert_ne by (intros ->; now vm_compute in Hk). auto.
Qed.

Lemma cors_sendError message code w :
  cors (http.Header w) → cors (http.Header (sendError message code w)).
Proof.
  intros H. unfold sendError, http.Write, http.WriteHeader, http.Header_Set.
  simpl. destruct (http.Code w); simpl; now apply cors_insert.
Qed.

Lemma Code_sendError message code w :
  http.Code w = None → http.Code (sendError message code w) = Some code.
Proof.
  intros H. unfold sendError, http.Write, http.WriteHeader, http.Header_Set.
  simpl. rewrite H. reflexivity.
Qed.

Lemma Code_Write b w :
  http.Code w = None → http.Code (http.Write b w) = Some http.StatusOK.
Proof. intros H. unfold http.Write, http.WriteHeader. now rewrite H. Qed.

(** X16. Every response of the handler, to any request, carries the four
    CORS headers; its status is 200, 204, 400 or 502. *)
Theorem ServeHTTP_cors_and_status `{Cache C} (h : ProxyHandler C) r w :
  http.Code w = None →
  let w' := (ServeHTTP h r w).1.1 in
  cors (http.Header w') ∧
  (http.Code w' = Some http.StatusOK ∨ http.Code w' = Some http.StatusNoContent ∨
   http.Code w' = Some http.StatusBadRequest ∨ http.Code w' = Some http.StatusBadGateway).
Proof.
  intros Hcode. cbv zeta. unfold ServeHTTP.
  pose proof (cors_set w) as Hc.
  set (w0 := http.Header_Set "Access-Control-Max-Age" _ _) in *.
  assert (Hcode0 : http.Code w0 = None) by exact Hcode.
  clearbody w0.
  destruct (String.eqb (http.Method r) "OPTIONS").
  { cbn [fst snd]. split; [|right; left].
    - unfold http.WriteHeader. now destruct (http.Code w0).
    - unfold http.WriteHeader. now rewrite Hcode0. }
  destruct (String.eqb _ "").
  { cbn [fst snd]. split; [now apply cors_sendError|]. right; right; left. now apply Code_sendError. }
  destruct (proxy.ValidateURL _ _).
  { cbn [fst snd]. split; [now apply cors_sendError|]. right; right; left. now apply Code_sendError. }
  destruct (Get _ _) as [[[[data contentType] found] e] c].
  destruct (match e with None => found | Some _ => false end).
  { cbn [fst snd]. unfold Write_slice. split; [|left; now apply Code_Write].
    unfold http.Write, http.WriteHeader, http.Header_Set. simpl.
    destruct (http.Code w0); simpl; now repeat apply cors_insert. }
  destruct (proxy.Fetch _ _) as [[resp|e'] evs].
  - destruct (proxy.Body resp) as [body|e''].
    + destruct (Set_ _ _ _ c) as [e2 c2]. cbn [fst snd].
      split; [|left; now apply Code_Write].
      unfold http.Write, http.WriteHeader, http.Header_Set. simpl.
      destruct (http.Code w0); simpl; now repeat apply cors_insert.
    + cbn [fst snd]. split; [now apply cors_sendError|]. right; right; right.
      now apply Code_sendError.
  - cbn [fst snd]. split; [now apply cors_sendError|]. right; right; right.
    now apply Code_sendError.
Qed.

Lemma ServeHTTP_cors_and_status_witness :
  let h := NewProxyHandler newMockCache
             (proxy.NewFetcher HandlerTest.largeOrigin 10000000000 1024) in
  let r := http.mkRequest "GET" [("url", "http://origin.test/large")] ∅ "192.0.2.1:1234" in
  let w' := (ServeHTTP h r http.NewRecorder).1.1 in
  cors (http.Header w') ∧ http.Code w' = Some http.StatusBadGateway.
Proof.
  intros h r w'.
  split; [|reflexivity].
  apply (ServeHTTP_cors_and_status h r http.NewRecorder). reflexivity.
Defined.

Section hit.

Context `{Cache C} (h : ProxyHandler C) (r : http.Request) (w : http.ResponseWriter).
Variable url : string.
Hypothesis Hmethod : http.Method r ≠ "OPTIONS".
Hypothesis Hquery : http.Query_Get "url" (http.Query r) = url.
Hypothesis Hvalid : proxy.ValidateURL (fetcher h) url = None.

(** The answer from the cache. *)
Lemma ServeHTTP_on_hit data contentType :
  fst (Get url (cache_ h)) = (data, contentType, true, None) →
  let '(w', c', evs) := ServeHTTP h r w in
  evs = [] ∧ c' = snd (Get url (cache_ h)) ∧
  http.Body w' = http.Body w ++ default [] data ∧
  http.Header w' !! "X-Cache" = Some "HIT" ∧
  http.Header w' !! "Content-Type" = Some contentType ∧
  (http.Code w = None → http.Code w' = Some http.StatusOK).
Proof.
  intros Hget. unfold ServeHTTP.
  pose proof Hmethod as Hm. apply String.eqb_neq in Hm. rewrite Hm, Hquery.
  assert (Hne : String.eqb url "" = false).
  { apply String.eqb_neq. intros ->. discriminate Hvalid. }
  rewrite Hne, Hvalid.
  destruct (Get url (cache_ h)) as [[[[d ct0] found] e] c1]. simpl in Hget.
  injection Hget as -> -> -> ->. cbn [snd].
  split; [reflexivity|]. split; [reflexivity|].
  unfold Write_slice, http.Write, http.WriteHeader, http.Header_Set. simpl.
  destruct (http.Code w) as [c0|]; simpl;
    (split; [reflexivity|]); (split; [apply lookup_insert_eq|]);
    (split; [rewrite lookup_insert_ne by discriminate; apply lookup_insert_eq|]);
    intros Hc; first [discriminate Hc | reflexivity].
Qed.

(** X17. A request whose URL the cache holds is answered from the cache:
    the body and the content type are the cached ones, the marker reads
    [HIT], the status is 200, and the upstream server is not contacted. *)
Theorem ServeHTTP_hit data contentType :
  fst (Get url (cache_ h)) = (data, contentType, true, None) →
  (ServeHTTP h r w).2 = [] ∧
  (ServeHTTP h r w).1.2 = snd (Get url (cache_ h)) ∧
  let w' := (ServeHTTP h r w).1.1 in
  http.Body w' = http.Body w ++ default [] data ∧
  http.Header w' !! "X-Cache" = Some "HIT" ∧
  http.Header w' !! "Content-Type" = Some contentType ∧
  (http.Code w = None → http.Code w' = Some http.StatusOK).
Proof.
  intros Hget. pose proof (ServeHTTP_on_hit data contentType Hget) as HS.
  destruct (ServeHTTP h r w) as [[w' c'] evs]. cbv zeta. simpl. tauto.
Qed.

End hit.

Lemma ServeHTTP_hit_witness :
  let c := snd (Set_ "https://cached.example.com/data"
                  (Some (bytes.of_string (text.dq "{'cached':'response'}")))
                  "application/json" newMockCache) in
  let h := NewProxyHandler c (proxy.NewFetcher HandlerTest.helloOrigin 10000000000 10485760) in
  let r := http.mkRequest "GET" [("url", "https://cached.example.com/data")] ∅
             "192.0.2.1:1234" in
  (ServeHTTP h r http.NewRecorder).2 = [] ∧
  http.Body (ServeHTTP h r http.NewRecorder).1.1 =
    bytes.of_string (text.dq "{'cached':'response'}").
Proof.
  intros c h r.
  destruct (ServeHTTP_hit h r http.NewRecorder "https://cached.example.com/data"
              ltac:(discriminate) eq_refl eq_refl
              (Some (bytes.of_string (text.dq "{'cached':'response'}"))) "application/json")
    as (H1 & _ & H2 & _); [vm_compute; reflexivity|].
  split; [exact H1 | exact H2].
Defined.

(** X18. A preflight request is answered 204 with no body, whatever its
    query; the cache and the upstream server are not touched. *)
Theorem ServeHTTP_preflight `{Cache C} (h : ProxyHandler C) r w :
  http.Method r = "OPTIONS" → http.Code w = None →
  let '(w', c', evs) := ServeHTTP h r w in
  http.Code w' = Some http.StatusNoContent ∧ http.Body w' = http.Body w ∧
  c' = cache_ h ∧ evs = [].
Proof.
  intros Hm Hc. unfold ServeHTTP. rewrite Hm. simpl.
  unfold http.WriteHeader. simpl. rewrite Hc. auto.
Qed.

Lemma ServeHTTP_preflight_witness :
  let h := NewProxyHandler HandlerTest.failingCache
             (proxy.NewFetcher HandlerTest.helloOrigin 10000000000 10485760) in
  let r := http.mkRequest "OPTIONS" [("url", "javascript:alert(1)")] ∅ "192.0.2.1:1234" in
  ServeHTTP h r http.NewRecorder =
    (http.mkResponseWriter
       (http.Header (ServeHTTP h r http.NewRecorder).1.1) (Some 204) [],
     HandlerTest.failingCache, []).
Proof.
  intros h r.
  pose proof (ServeHTTP_preflight h r http.NewRecorder eq_refl eq_refl) as HS.
  destruct (ServeHTTP h r http.NewRecorder) as [[w' c'] evs].
  destruct HS as (H1 & H2 & -> & ->). destruct w' as [hdr code body].
  simpl in *. now subst.
Defined.

(** X19. A request that names no URL, or one that does not pass
    validation, is answered 400 with a JSON error; the cache and the
    upstream server are not touched. *)
Theorem ServeHTTP_bad_request `{Cache C} (h : ProxyHandler C) r w :
  http.Method r ≠ "OPTIONS" → http.Code w = None →
  http.Query_Get "url" (http.Query r) = "" ∨
  proxy.ValidateURL (fetcher h) (http.Query_Get "url" (http.Query r)) ≠ None →
  let '(w', c', evs) := ServeHTTP h r w in
  http.Code w' = Some http.StatusBadRequest ∧
  http.Header w' !! "Content-Type" = Some "application/json" ∧
  c' = cache_ h ∧ evs = [].
Proof.
  intros Hm Hc Hbad. unfold ServeHTTP.
  apply String.eqb_neq in Hm. rewrite Hm.
  assert (Hct : ∀ message w0, http.Header (sendError message 400 w0) !! "Content-Type"
                               = Some "application/json").
  { intros message w0. unfold sendError, http.Write, http.WriteHeader, http.Header_Set.
    simpl. destruct (http.Code w0); simpl; apply lookup_insert_eq. }
  destruct (String.eqb_spec (http.Query_Get "url" (http.Query r)) "") as [E|E].
  - split; [now apply Code_sendError|]. split; [apply Hct|]. auto.
  - destruct Hbad as [Hbad|Hbad]; [contradiction|].
    destruct (proxy.ValidateURL _ _) as [e|]; [|contradiction].
    split; [now apply Code_sendError|]. split; [apply Hct|]. auto.
Qed.

Lemma ServeHTTP_bad_request_witness :
  let h := NewProxyHandler HandlerTest.failingCache
             (proxy.NewFetcher HandlerTest.helloOrigin 10000000000 10485760) in
  let r := http.mkRequest "GET" [("url", "file:///etc/passwd")] ∅ "192.0.2.1:1234" in
  let '(w', c', evs) := ServeHTTP h r http.NewRecorder in
  http.Code w' = Some http.StatusBadRequest ∧
  http.Header w' !! "Content-Type" = Some "application/json" ∧
  c' = HandlerTest.failingCache ∧ evs = [].
Proof.
  intros h r.
  apply (ServeHTTP_bad_request h r http.NewRecorder);
    [discriminate | reflexivity | right; discriminate].
Defined.

(** X20. One request of a client makes at most one call of [client.Do],
    and the body of the response that call returns is closed, once, after
    the only read. The call is not the number of requests the upstream
    server sees: within it the client follows redirects, up to the limit
    [NewFetcher] sets, and those are not counted here. The events of a
    request are none; or the call alone, when it has failed; or the call
    and the closing of the body, when the response declares more than the
    maximum; or the call, the read of the body and its closing. *)
Theorem ServeHTTP_upstream_events `{Cache C} (h : ProxyHandler C) r w :
  let evs := (ServeHTTP h r w).2 in
  evs = [] ∨
  ∃ req,
    (∃ e, proxy.Client_Do (proxy.client (fetcher h)) req = err e ∧
          evs = [proxy.EvDo req]) ∨
    (∃ resp, proxy.Client_Do (proxy.client (fetcher h)) req = ok resp ∧
       ((proxy.maxSize (fetcher h) < proxy.ContentLength resp ∧
         evs = [proxy.EvDo req; proxy.EvBodyClose]) ∨
        (proxy.ContentLength resp <= proxy.maxSize (fetcher h) ∧
         evs = [proxy.EvDo req; proxy.EvBodyRead; proxy.EvBodyClose]))).
Proof.
  cbv zeta. unfold ServeHTTP.
  destruct (String.eqb (http.Method r) "OPTIONS"); [now left|].
  destruct (String.eqb _ ""); [now left|].
  destruct (proxy.ValidateURL _ _) eqn:Hv; [now left|].
  destruct (Get _ _) as [[[[data contentType] found] e] c].
  destruct (match e with None => found | Some _ => false end); [now left|].
  pose proof (Fetch_valid _ _ Hv) as HF. right.
  exists (proxy.request_for (http.Query_Get "url" (http.Query r))).
  destruct (proxy.Client_Do _ _) as [resp|e'] eqn:Ed.
  - right. exists resp. split; [reflexivity|].
    destruct (_ <? _) eqn:Hsz.
    + destruct HF as [msg ->]. left. apply Z.ltb_lt in Hsz. auto.
    + rewrite HF. right. apply Z.ltb_ge in Hsz. split; [exact Hsz|].
      destruct (proxy.Body resp); [destruct (Set_ _ _ _ c)|]; reflexivity.
  - left. exists e'. rewrite HF. auto.
Qed.

Section miss.

Context `{Cache C} (h : ProxyHandler C) (r : http.Request) (w : http.ResponseWriter).
Variable url : string.
Hypothesis Hmethod : http.Method r ≠ "OPTIONS".
Hypothesis Hquery : http.Query_Get "url" (http.Query r) = url.
Hypothesis Hvalid : proxy.ValidateURL (fetcher h) url = None.
Hypothesis Hcode : http.Code w = None.
Hypothesis Hmiss : not_a_hit (fst (Get url (cache_ h))).

Lemma ServeHTTP_miss_eq :
  ServeHTTP h r w =
    let w0 := http.Header_Set "Access-Control-Max-Age" "86400"
                (http.Header_Set "Access-Control-Allow-Headers" "*"
                   (http.Header_Set "Access-Control-Allow-Methods" "GET, OPTIONS"
                      (http.Header_Set "Access-Control-Allow-Origin" "*" w))) in
    let c := snd (Get url (cache_ h)) in
    match proxy.Fetch (fetcher h) url with
    | (err e, evs) =>
      (sendError ("failed to fetch URL: " ++ Error e) http.StatusBadGateway w0, c, evs)
    | (ok resp, evs) =>
      match proxy.Body resp with
      | err e =>
        (sendError ("failed to read response: " ++ Error e) http.StatusBadGateway w0,
         c, evs ++ [proxy.EvBodyRead; proxy.EvBodyClose])
      | ok body =>
        (http.Write body
           (http.Header_Set "X-Cache" "MISS"
              (http.Header_Set "Content-Type" (content_type_of resp) w0)),
         snd (Set_ url (Some body) (content_type_of resp) c),
         evs ++ [proxy.EvBodyRead; proxy.EvBodyClose])
      end
    end.
Proof.
  unfold ServeHTTP.
  pose proof Hmethod as Hm. apply String.eqb_neq in Hm. rewrite Hm, Hquery.
  assert (Hne : String.eqb url "" = false).
  { apply String.eqb_neq. intros ->. discriminate Hvalid. }
  rewrite Hne, Hvalid.
  destruct (Get url (cache_ h)) as [[[[d ct0] found] e] c1]. simpl in Hmiss.
  assert (Hnot : match e with None => found | Some _ => false end = false).
  { destruct Hmiss as [He|Hf]; [destruct e; [reflexivity|contradiction]|].
    simpl in Hf. subst found. now destruct e. }
  rewrite Hnot. cbv zeta. cbn [snd].
  destruct (proxy.Fetch (fetcher h) url) as [[resp|e'] evs]; [|reflexivity].
  destruct (proxy.Body resp) as [body|e'']; [|reflexivity].
  unfold content_type_of.
  now destruct (Set_ url (Some body) _ c1).
Qed.

(** X21. A failure upstream is answered 502 and leaves nothing in the
    cache: when the fetch returns an error (the exchange has failed, or the
    response declares more than the maximum), and when reading the body
    fails, the cache is as the lookup has left it. *)
Theorem ServeHTTP_upstream_failure :
  (∀ e, fst (proxy.Fetch (fetcher h) url) = err e →
     http.Code (ServeHTTP h r w).1.1 = Some http.StatusBadGateway ∧
     (ServeHTTP h r w).1.2 = snd (Get url (cache_ h)) ∧
     proxy.EvBodyRead ∉ (ServeHTTP h r w).2) ∧
  (∀ resp e, fst (proxy.Fetch (fetcher h) url) = ok resp → proxy.Body resp = err e →
     http.Code (ServeHTTP h r w).1.1 = Some http.StatusBadGateway ∧
     (ServeHTTP h r w).1.2 = snd (Get url (cache_ h)) ∧
     last (ServeHTTP h r w).2 = Some proxy.EvBodyClose).
Proof.
  rewrite ServeHTTP_miss_eq. cbv zeta.
  pose proof (Fetch_never_reads (fetcher h) url) as Hnr.
  destruct (proxy.Fetch (fetcher h) url) as [[resp|e'] evs]; simpl fst in *; simpl snd in *.
  - split; [discriminate|]. intros resp' e [= <-] ->. cbn [fst snd].
    split; [now apply Code_sendError|]. split; [reflexivity|].
    rewrite last_app. reflexivity.
  - split; [|discriminate]. intros e _. cbn [fst snd].
    split; [now apply Code_sendError|]. auto.
Qed.

(** X22. A body that has been fetched is served and stored in full: the
    maximum bounds the length a response declares, not the length of its
    body. The status of the answer is 200 and the entry is stored whatever
    the status of the upstream response. *)
Theorem ServeHTTP_serves_in_full resp body :
  proxy.Client_Do (proxy.client (fetcher h)) (proxy.request_for url) = ok resp →
  proxy.ContentLength resp <= proxy.maxSize (fetcher h) →
  proxy.Body resp = ok body →
  http.Code (ServeHTTP h r w).1.1 = Some http.StatusOK ∧
  http.Body (ServeHTTP h r w).1.1 = http.Body w ++ body ∧
  (ServeHTTP h r w).1.2 =
    snd (Set_ url (Some body) (content_type_of resp) (snd (Get url (cache_ h)))).
Proof.
  intros Hdo Hle Hbody. rewrite ServeHTTP_miss_eq. cbv zeta.
  pose proof (Fetch_valid (fetcher h) url Hvalid) as HF. rewrite Hdo in HF.
  replace (proxy.maxSize (fetcher h) <? proxy.ContentLength resp) with false in HF
    by (symmetry; apply Z.ltb_ge; exact Hle).
  rewrite HF, Hbody. cbn [fst snd].
  split; [now apply Code_Write|]. split; [|reflexivity].
  unfold http.Write, http.WriteHeader, http.Header_Set. simpl. now rewrite Hcode.
Qed.

End miss.

Lemma ServeHTTP_upstream_failure_witness :
  let h := NewProxyHandler newMockCache
             (proxy.NewFetcher HandlerTest.largeOrigin 10000000000 1024) in
  let r := http.mkRequest "GET" [("url", "http://origin.test/large")] ∅ "192.0.2.1:1234" in
  http.Code (ServeHTTP h r http.NewRecorder).1.1 = Some http.StatusBadGateway ∧
  (ServeHTTP h r http.NewRecorder).1.2 = newMockCache.
Proof.
  intros h r.
  destruct (ServeHTTP_upstream_failure h r http.NewRecorder "http://origin.test/large")
    as [H1 _]; [discriminate | reflexivity | reflexivity | reflexivity | right; reflexivity|].
  destruct (H1 _ eq_refl) as (Hc & Hs & _). split; [exact Hc | exact Hs].
Defined.

(** A body of 19 bytes under a maximum of 4. *)
Lemma ServeHTTP_serves_in_full_witness :
  let h := NewProxyHandler newMockCache
             (proxy.NewFetcher HandlerTest.helloOrigin 10000000000 4) in
  let r := http.mkRequest "GET" [("url", "http://origin.test/hello")] ∅ "192.0.2.1:1234" in
  http.Code (ServeHTTP h r http.NewRecorder).1.1 = Some http.StatusOK ∧
  http.Body (ServeHTTP h r http.NewRecorder).1.1 =
    bytes.of_string (text.dq "{'message':'hello'}").
Proof.
  intros h r.
  destruct (ServeHTTP_serves_in_full h r http.NewRecorder "http://origin.test/hello")
    with (resp := proxy.mkResponse 200 {["Content-Type" := "application/json"]} (-1)
                    (ok (bytes.of_string (text.dq "{'message':'hello'}"))))
         (body := bytes.of_string (text.dq "{'message':'hello'}"))
    as (Hc & Hb & _);
    [discriminate | reflexivity | reflexivity | reflexivity | right; reflexivity
    | reflexivity | simpl; lia | reflexivity |].
  split; [exact Hc | exact Hb].
Defined.

Lemma Fetch_answering code f url :
  proxy.Fetch (answering code f) url =
    match proxy.Fetch f url with
    | (ok resp, evs) => (ok (with_status code resp), evs)
    | (err e, evs) => (err e, evs)
    end.
Proof.
  unfold proxy.Fetch.
  change (proxy.ValidateURL (answering code f) url) with (proxy.ValidateURL f url).
  destruct (proxy.ValidateURL f url); [reflexivity|].
  destruct (proxy.NewRequest "GET" url) as [req|e]; [|reflexivity].
  unfold proxy.Client_Do, answering. simpl.
  destruct (proxy.transport (proxy.client f) _) as [resp|e]; [|reflexivity].
  simpl. now destruct (proxy.maxSize f <? proxy.ContentLength resp).
Qed.

(** X23. The status code of the upstream response plays no part: the
    answer to the client, the cache afterwards and the upstream events are
    the same whatever status the upstream server answers with. *)
Theorem ServeHTTP_ignores_upstream_status `{Cache C} (h : ProxyHandler C) r w code :
  ServeHTTP (mkProxyHandler (cache_ h) (answering code (fetcher h))) r w = ServeHTTP h r w.
Proof.
  unfold ServeHTTP. cbn [cache_ fetcher].
  change (proxy.ValidateURL (answering code (fetcher h))) with (proxy.ValidateURL (fetcher h)).
  destruct (String.eqb (http.Method r) "OPTIONS"); [reflexivity|].
  destruct (String.eqb _ ""); [reflexivity|].
  destruct (proxy.ValidateURL _ _); [reflexivity|].
  destruct (Get _ _) as [[[[data contentType] found] e] c].
  destruct (match e with None => found | Some _ => false end); [reflexivity|].
  rewrite Fetch_answering.
  destruct (proxy.Fetch (fetcher h) _) as [[resp|e'] evs]; reflexivity.
Qed.

(** X24. What [sendError] writes is a JSON document that reads back: the
    status is the code given, the content type is JSON, and the body is the
    object of the message and the code, the message as a string literal
    from which the message is read again, made valid UTF-8; no character of
    the message ends the literal early. *)
Theorem sendError_reads_back message code w :
  http.Code w = None →
  let w' := sendError message code w in
  http.Code w' = Some code ∧
  http.Header w' !! "Content-Type" = Some "application/json" ∧
  ∃ doc, http.Body w' = http.Body w ++ bytes.of_string doc ∧
    (s ← json.expect (text.dq "{'error':'") doc; json.unquote s) =
      ok (JsonSpec.coerce message,
          (text.dq ",'code':" ++ strconv.Itoa code ++ "}" ++ String "010" "")%string).
Proof.
  intros Hc. cbv zeta. split; [now apply Code_sendError|].
  split.
  { unfold sendError, http.Write, http.WriteHeader, http.Header_Set.
    cbn [http.Header http.Code http.Body]. rewrite Hc. apply lookup_insert_eq. }
  set (tail := (text.dq ",'code':" ++ strconv.Itoa code ++ "}" ++ String "010" "")%string).
  exists (text.dq "{'error':" ++ json.appendString message ++ tail)%string.
  split.
  { unfold sendError, http.Write, http.WriteHeader, http.Header_Set.
    cbn [http.Header http.Code http.Body]. rewrite Hc. reflexivity. }
  assert (Hdoc : (text.dq "{'error':" ++ json.appendString message ++ tail)%string =
                 (text.dq "{'error':'" ++
                  (json.escape message ++ String text.dquote tail))%string).
  { unfold json.appendString.
    change (text.dq "{'error':'") with (text.dq "{'error':" ++ String text.dquote "")%string.
    rewrite StringProps.append_assoc. f_equal.
    rewrite !StringProps.append_cons, StringProps.append_nil_l. f_equal.
    rewrite StringProps.append_assoc. reflexivity. }
  rewrite Hdoc, MarshalProps.expect_app. cbn [mbind result_bind bind].
  apply JsonProps.unquote_escape.
Qed.

Lemma sendError_reads_back_witness :
  let msg := (text.dq "invalid URL: parse 'a'},'b" ++ String "010" "")%string in
  bytes.to_string (http.Body (sendError msg 400 http.NewRecorder)) =
    (text.dq "{'error':'invalid URL: parse " ++ "\" ++ text.dq "'a" ++ "\" ++ text.dq "'},"
       ++ "\" ++ text.dq "'b\n','code':400}" ++ String "010" "")%string ∧
  http.Code (sendError msg 400 http.NewRecorder) = Some 400.
Proof.
  intros msg. split; [vm_compute; reflexivity|].
  apply (sendError_reads_back msg 400 http.NewRecorder). reflexivity.
Defined.

End HandlerExtras.

(** ** The handler over the store *)

Module ProxyCacheExtras.
Import errors handler HandlerSpec ServerSpec FetcherProps CacheProps HandlerExtras.
Local Open Scope list_scope.

(** A read that meets no fault leaves the cache as it was. *)
Lemma Get_no_faults_state url (c : cache.BadgerCache) :
  badger.faults (cache.db c) = [] → snd (cache.Get url c) = c.
Proof.
  intros Hf. unfold cache.Get.
  rewrite (View_ok _ _ (no_faults_next _ Hf)).
  destruct c as [[its clk fs] ttl]. simpl in Hf. subst fs.
  destruct (_ ≫= _) as [v|[]]; reflexivity.
Qed.

(** X25. A miss fills the cache, and the next request for the URL is
    served from it. When a request has missed a store that meets no fault
    and whose time-to-live is positive, and the fetch has delivered a body,
    the same request made again at once gets that body with the marker
    [HIT], and the upstream server is not contacted; the content type is
    the upstream one, made valid UTF-8 by the store. *)
Theorem miss_then_hit (c : cache.BadgerCache) (f : proxy.Fetcher) r w w2 url resp body :
  http.Method r ≠ "OPTIONS" →
  http.Query_Get "url" (http.Query r) = url →
  proxy.ValidateURL f url = None →
  badger.faults (cache.db c) = [] → 0 < cache.ttl c →
  (fst (cache.Get url c)).1.2 = false →
  proxy.Client_Do (proxy.client f) (proxy.request_for url) = ok resp →
  proxy.ContentLength resp <= proxy.maxSize f →
  proxy.Body resp = ok body →
  let c1 := (ServeHTTP (mkProxyHandler c f) r w).1.2 in
  let '(w2', _, evs2) := ServeHTTP (mkProxyHandler c1 f) r w2 in
  evs2 = [] ∧
  http.Body w2' = http.Body w2 ++ body ∧
  http.Header w2' !! "X-Cache" = Some "HIT" ∧
  http.Header w2' !! "Content-Type" = Some (JsonSpec.coerce (content_type_of resp)).
Proof.
  intros Hm Hq Hv Hf Httl Hmiss Hdo Hle Hbody. cbv zeta.
  assert (Hc1 : (ServeHTTP (mkProxyHandler c f) r w).1.2 =
                snd (cache.Set_ url (Some body) (content_type_of resp) c)).
  { rewrite (ServeHTTP_miss_eq (mkProxyHandler c f) r w url Hm Hq Hv)
      by (right; exact Hmiss).
    cbv zeta. cbn [cache_ fetcher]. pose proof (Fetch_valid f url Hv) as HF.
    rewrite Hdo in HF.
    replace (proxy.maxSize f <? proxy.ContentLength resp) with false in HF
      by (symmetry; apply Z.ltb_ge; exact Hle).
    rewrite HF, Hbody. cbn [fst snd].
    change (@Get cache.BadgerCache _) with cache.Get.
    change (@Set_ cache.BadgerCache _) with cache.Set_.
    now rewrite (Get_no_faults_state url c Hf). }
  rewrite Hc1.
  pose proof (Get_after_Set url (Some body) (content_type_of resp) c 0 Hf) as Hget.
  rewrite Sleep_0 in Hget.
  replace (cache.ttl c <=? 0) with false in Hget by (symmetry; apply Z.leb_gt; lia).
  pose proof (ServeHTTP_on_hit
                (mkProxyHandler (snd (cache.Set_ url (Some body) (content_type_of resp) c)) f)
                r w2 url Hm Hq Hv (Some body) (JsonSpec.coerce (content_type_of resp)) Hget)
    as HS.
  destruct (ServeHTTP _ r w2) as [[w2' c2] evs2].
  destruct HS as (H1 & _ & H2 & H3 & H4 & _). auto.
Qed.

Lemma miss_then_hit_witness :
  let c := cache.mkBadgerCache (badger.Open 0) 3600000000000 in
  let f := proxy.NewFetcher HandlerTest.helloOrigin 10000000000 10485760 in
  let r := http.mkRequest "GET" [("url", "http://origin.test/hello")] ∅ "192.0.2.1:1234" in
  let body := bytes.of_string (text.dq "{'message':'hello'}") in
  let resp := proxy.mkResponse 200 {["Content-Type" := "application/json"]} (-1) (ok body) in
  let c1 := (ServeHTTP (mkProxyHandler c f) r http.NewRecorder).1.2 in
  let '(w2', _, evs2) := ServeHTTP (mkProxyHandler c1 f) r http.NewRecorder in
  evs2 = [] ∧
  http.Body w2' = http.Body http.NewRecorder ++ body ∧
  http.Header w2' !! "X-Cache" = Some "HIT" ∧
  http.Header w2' !! "Content-Type" = Some (JsonSpec.coerce (content_type_of resp)).
Proof.
  intros c f r body resp.
  refine (miss_then_hit c f r http.NewRecorder http.NewRecorder "http://origin.test/hello"
            resp body _ _ _ _ _ _ _ _ _).
  - discriminate.
  - reflexivity.
  - vm_compute. reflexivity.
  - reflexivity.
  - reflexivity.
  - vm_compute. reflexivity.
  - reflexivity.
  - now vm_compute.
  - reflexivity.
Defined.

End ProxyCacheExtras.

(** ** The server: configuration and the chain of handlers *)

Module ServerExtras.
Import errors ratelimit RateSpec RateProps RegistryProps ServerSpec.
Local Open Scope list_scope.

Lemma wrap64_small x : - 2 ^ 63 <= x < 2 ^ 63 → config.wrap64 x = x.
Proof.
  intros H. unfold config.wrap64. rewrite Z.mod_small by lia. lia.
Qed.

Lemma digits_skip value : ∀ i, config.digits (only_digits value) i = config.digits value i.
Proof.
  induction value as [|c value IH]; intros i; [reflexivity|].
  cbn [only_digits config.digits].
  destruct (text.between "0" c "9") eqn:E; cbn [config.digits]; rewrite ?E; apply IH.
Qed.

Lemma of_uint_acc_ge u : ∀ p, (p <= Pos.of_uint_acc u p)%positive.
Proof.
  induction u; intros p; cbn [Pos.of_uint_acc]; try lia;
    match goal with
    | IH : ∀ q, (q <= Pos.of_uint_acc ?u q)%positive |- (_ <= Pos.of_uint_acc ?u ?q)%positive =>
      specialize (IH q); lia
    end.
Qed.

Ltac digit_value :=
  match goal with
  | |- context [text.b ?c - text.b "0"] =>
    let v := eval vm_compute in (text.b c - text.b "0") in
    change (text.b c - text.b "0") with v
  end.

(** The digit loop on a numeral, from an accumulator that is positive. *)
Lemma digits_acc u : ∀ p,
  Z.pos (Pos.of_uint_acc u p) < 2 ^ 63 →
  config.digits (DecimalString.NilEmpty.string_of_uint u) (Z.pos p) =
    Z.pos (Pos.of_uint_acc u p).
Proof.
  induction u; intros p Hlt; cbn [Pos.of_uint_acc DecimalString.NilEmpty.string_of_uint] in *;
    [reflexivity|..];
    match goal with
    | IH : ∀ q, _ → config.digits _ (Z.pos q) = _
      |- config.digits (String ?c _) _ = Z.pos (Pos.of_uint_acc ?u ?q) =>
      pose proof (of_uint_acc_ge u q);
      rewrite <- (IH q Hlt); cbn [config.digits];
      change (text.between "0" c "9") with true; cbv iota;
      f_equal; digit_value; rewrite wrap64_small by lia; lia
    end.
Qed.

Lemma digits_numeral u :
  Z.of_N (Pos.of_uint u) < 2 ^ 63 →
  config.digits (DecimalString.NilEmpty.string_of_uint u) 0 = Z.of_N (Pos.of_uint u).
Proof.
  induction u; intros Hlt; cbn [Pos.of_uint DecimalString.NilEmpty.string_of_uint] in *;
    [reflexivity | ..]; cbn [config.digits];
    match goal with
    | |- context [text.between "0" ?c "9"] => change (text.between "0" c "9") with true
    end; cbv iota; digit_value.
  - exact (IHu Hlt).
  - apply (digits_acc u 1 Hlt).
  - apply (digits_acc u 2 Hlt).
  - apply (digits_acc u 3 Hlt).
  - apply (digits_acc u 4 Hlt).
  - apply (digits_acc u 5 Hlt).
  - apply (digits_acc u 6 Hlt).
  - apply (digits_acc u 7 Hlt).
  - apply (digits_acc u 8 Hlt).
  - apply (digits_acc u 9 Hlt).
Qed.

Lemma Itoa_pos p :
  strconv.Itoa (Z.pos p) = DecimalString.NilEmpty.string_of_uint (Pos.to_uint p) ∧
  strconv.Itoa (Z.pos p) ≠ "".
Proof.
  unfold strconv.Itoa. cbn [Z.to_int DecimalString.NilZero.string_of_int].
  unfold DecimalString.NilZero.string_of_uint.
  pose proof (DecimalPos.Unsigned.to_uint_nonnil p) as Hnn.
  destruct (Pos.to_uint p); [contradiction|..]; split; (reflexivity || discriminate).
Qed.

(** X26. [getEnvInt] and [getEnvInt64] read the decimal digits of the
    variable and nothing else: the result is the same as for the text with
    every other character taken out, so a sign, a decimal point or a unit
    is skipped. A positive number below 2^63 written in decimal is read
    back as itself, and the result is positive whenever the default is. *)
Theorem getEnvInt_reads_digits :
  (∀ value dflt, config.getEnvInt value dflt = config.getEnvInt (only_digits value) dflt) ∧
  (∀ n dflt, 0 < n < 2 ^ 63 → config.getEnvInt (strconv.Itoa n) dflt = n) ∧
  (∀ value dflt, 0 < dflt → 0 < config.getEnvInt value dflt).
Proof.
  split; [|split].
  - intros value dflt. unfold config.getEnvInt.
    rewrite (digits_skip value 0).
    destruct (String.eqb_spec value "") as [->|Hv]; [reflexivity|].
    destruct (String.eqb_spec (only_digits value) "") as [E|E]; [|reflexivity].
    cbn [negb]. rewrite <- (digits_skip value 0), E. reflexivity.
  - intros n dflt Hn. destruct n as [|p|p]; try lia.
    destruct (Itoa_pos p) as [E Hne]. unfold config.getEnvInt.
    apply String.eqb_neq in Hne. rewrite Hne. cbn [negb]. rewrite E.
    assert (Hof : Z.of_N (Pos.of_uint (Pos.to_uint p)) = Z.pos p)
      by now rewrite DecimalPos.Unsigned.of_to.
    rewrite digits_numeral by (rewrite Hof; lia).
    rewrite Hof. reflexivity.
  - intros value dflt. apply FetcherProps.getEnvInt_positive.
Qed.

(** A bucket of rate zero that is empty stays empty. *)
Lemma empty_forever (B : Z) (ip : string) (t : Q) (ts : list Q) : ∀ rl,
  wf rl → holds (current ip rl) 0 B 0 t → 0 <= B →
  fst (Allow_at ts ip rl) = replicate (length ts) false.
Proof.
  induction ts as [|now ts IH]; intros rl Hwf Hh HB; [reflexivity|].
  cbn [Allow_at length replicate].
  pose proof (Allow_bucket now ip rl Hwf) as HA. cbv zeta in HA.
  destruct HA as (Hok & Hbk & Hwf' & _).
  assert (E : rate.Allow now (current ip rl) = (false, current ip rl)).
  { apply Allow_refuses. rewrite (advance_eq _ _ _ _ _ now Hh).
    assert (Hz : (Qmax 0 (0 * (now - t)) == 0)%Q)
      by (rewrite Q.max_l; [reflexivity | ring_simplify; apply Qle_refl]).
    rewrite Hz, Qplus_0_r, Q.min_r; [reflexivity|].
    change 0%Q with (inject_Z 0). now rewrite <- Zle_Qle. }
  rewrite E in Hok, Hbk.
  destruct (Allow now ip rl) as [ok rl1]. simpl in Hok, Hbk, Hwf'. subst ok.
  assert (Hcur : current ip rl1 = current ip rl) by (unfold current at 1; now rewrite Hbk).
  specialize (IH rl1 Hwf'). rewrite Hcur in IH. specialize (IH Hh HB).
  destruct (Allow_at ts ip rl1) as [oks rl2]. simpl in IH |- *. now rewrite IH.
Qed.

(** X27. When the variable of the rate limit is set, the rate that
    [main] configures is zero, whatever the variable says: a client is
    admitted for the requests of its burst and then never again, however
    long it waits. *)
Theorem rate_variable_stops_refill (value : string) (dflt : Q) (B : nat) (ip : string)
    (ts : list Q) :
  value ≠ "" →
  let rl := NewIPRateLimiter (server.getEnvFloat value None dflt) (Z.of_nat B) in
  server.getEnvFloat value None dflt = 0%Q ∧
  fst (Allow_n B 0 ip rl) = replicate B true ∧
  fst (Allow_at ts ip (snd (Allow_n B 0 ip rl))) = replicate (length ts) false.
Proof.
  intros Hv. cbv zeta.
  assert (E : server.getEnvFloat value None dflt = 0%Q).
  { unfold server.getEnvFloat. apply String.eqb_neq in Hv. now rewrite Hv. }
  rewrite E. split; [reflexivity|].
  pose proof (LimiterClaims.drain 0 (Z.of_nat B) ip 0 0 B (NewIPRateLimiter 0 (Z.of_nat B))
                (wf_New _ _) eq_refl eq_refl) as HD.
  cbv zeta in HD. destruct HD as (Hoks & Hwf' & _ & _ & Hempty).
  - unfold current. rewrite bucket_unregistered by reflexivity. apply NewLimiter_holds.
  - reflexivity.
  - lia.
  - split; [exact Hoks|]. apply (empty_forever (Z.of_nat B) ip 0 ts _ Hwf' Hempty). lia.
Qed.

Lemma rate_variable_stops_refill_witness :
  let rl := NewIPRateLimiter (server.getEnvFloat "100" None 100) (Z.of_nat 2) in
  fst (Allow_n 2 0 "192.168.1.1" rl) = replicate 2 true ∧
  fst (Allow_at [1; 60; 3600]%Q "192.168.1.1" (snd (Allow_n 2 0 "192.168.1.1" rl))) =
    replicate (length [1; 60; 3600]%Q) false.
Proof.
  intros rl.
  exact (proj2 (rate_variable_stops_refill "100" 100 2 "192.168.1.1" [1; 60; 3600]%Q
                  ltac:(discriminate))).
Defined.

(** X28. A request that the limiter denies costs nothing further down
    the chain: the answer is the 429, the cache and the record of upstream
    requests are as before, and the answer has no CORS header of the
    handler's. *)
Theorem limited_request_stops_at_limiter `{handler.Cache C} (f : proxy.Fetcher) (t t' : Q)
    (r : http.Request) (w : http.ResponseWriter) (rl : IPRateLimiter) (c : C)
    (log : list proxy.Event) :
  fst (Allow t (extractIP r) rl) = false → http.Code w = None →
  let '(w', (rl', (c', log'))) := server.Handler f t t' r w (rl, (c, log)) in
  http.Code w' = Some http.StatusTooManyRequests ∧
  rl' = snd (Allow t (extractIP r) rl) ∧ c' = c ∧ log' = log ∧
  http.Header w' !! "Access-Control-Allow-Origin" =
    http.Header w !! "Access-Control-Allow-Origin".
Proof.
  intros Hden Hcode. unfold server.Handler, Middleware.
  destruct (Allow t (extractIP r) rl) as [ok rl1]. simpl in Hden. subst ok.
  cbn [negb snd].
  unfold http.Write, http.WriteHeader, http.Header_Set. simpl. rewrite Hcode. simpl.
  repeat split. now rewrite !lookup_insert_ne by discriminate.
Qed.

Lemma limited_request_stops_at_limiter_witness :
  let f := proxy.NewFetcher HandlerTest.helloOrigin 10000000000 10485760 in
  let r := http.mkRequest "GET" [("url", "http://origin.test/hello")] ∅ "192.168.1.1:12345" in
  let rl := snd (Allow 0 "192.168.1.1" (NewIPRateLimiter 1 1)) in
  let '(w', (rl', (c', log'))) :=
    server.Handler f 0 0 r http.NewRecorder (rl, (handler.newMockCache, [])) in
  http.Code w' = Some http.StatusTooManyRequests ∧
  rl' = snd (Allow 0 (extractIP r) rl) ∧ c' = handler.newMockCache ∧ log' = [] ∧
  http.Header w' !! "Access-Control-Allow-Origin" =
    http.Header http.NewRecorder !! "Access-Control-Allow-Origin".
Proof.
  intros f r rl.
  refine (limited_request_stops_at_limiter f 0 0 r http.NewRecorder rl
            handler.newMockCache [] _ _); reflexivity.
Defined.

End ServerExtras.
